(** * BusTub buffer pool: clock replacer and buffer pool manager instance

    A shallow embedding of [src/buffer/clock_replacer.cpp] and
    [src/buffer/buffer_pool_manager_instance.cpp].

    The C++ objects are records, the linked ring of [ListNode]s lives in an
    explicit heap of malloc'ed cells, and every member function is a
    computation in a state-and-fault monad: it receives the object, and
    either returns a value together with the updated object or stops with a
    fault (undefined behaviour, the [throw] of [Unpin], a failed
    assertion). *)

From Stdlib Require Import ZArith Lia Bool Sorted.
From stdpp Require Import base option gmap list.

Local Open Scope Z_scope.

(** ** Machine integers *)

(** [size_t] arithmetic is modulo 2^64, [int32_t] is two's complement,
    [uint32_t] is modulo 2^32. *)
Definition size_t_wrap (z : Z) : Z := z mod 2 ^ 64.
Definition uint32_wrap (z : Z) : Z := z mod 2 ^ 32.
Definition int32_wrap (z : Z) : Z := (z + 2 ^ 31) mod 2 ^ 32 - 2 ^ 31.

Definition INT_MAX : Z := 2147483647.

(** ** Faults and the state monad *)

Inductive fault : Type :=
| UndefinedBehaviour   (* null, dangling or out-of-range dereference *)
| Thrown               (* [throw "TODO not implement"] *)
| AssertionFailed.     (* [assert] / [BUSTUB_ASSERT] *)

Inductive outcome (A : Type) : Type :=
| Ok (a : A)
| Fault (f : fault).
Arguments Ok {A} a.
Arguments Fault {A} f.

Definition M (S A : Type) : Type := S -> outcome (A * S).

Definition ret {S A} (a : A) : M S A := fun s => Ok (a, s).

Definition bind {S A B} (m : M S A) (k : A -> M S B) : M S B :=
  fun s => match m s with
           | Ok (a, s') => k a s'
           | Fault f => Fault f
           end.

Definition fail {S A} (f : fault) : M S A := fun _ => Fault f.
Definition gets {S A} (proj : S -> A) : M S A := fun s => Ok (proj s, s).
Definition modify {S} (upd : S -> S) : M S unit := fun s => Ok (tt, upd s).

Notation "'let*' x := c 'in' k" := (bind c (fun x => k))
  (at level 10, x pattern, c at level 200, k at level 200, only parsing).
Notation "c ;; k" := (bind c (fun _ => k))
  (at level 100, k at level 200, right associativity, only parsing).

(** Run a computation for its final state, or for its value. *)
Definition exec {S A} (m : M S A) (s : S) : outcome S :=
  match m s with Ok (_, s') => Ok s' | Fault f => Fault f end.

Definition eval {S A} (m : M S A) (s : S) : outcome A :=
  match m s with Ok (a, _) => Ok a | Fault f => Fault f end.

(** ** The clock replacer *)

Module Clock.

(** A pointer to a [ListNode]: [None] is [nullptr], [Some a] the address
    returned by the [a]-th call of [malloc]. *)
Definition ptr : Type := option nat.

Record ListNode : Type := mkListNode {
  pin_ : bool;
  refer_ : bool;
  frame_id_ : Z;
  next_ : ptr
}.

(** The object: its private fields, plus the heap of live nodes and the
    allocation counter.  A freed node leaves the heap, so that a pointer to
    it dangles. *)
Record ClockReplacer : Type := mkClockReplacer {
  heap : gmap nat ListNode;
  brk : nat;
  capacity_ : Z;
  clock_size_ : Z;
  pin_size_ : Z;
  head_ : ptr;
  tail_ : ptr;
  current_ : ptr
}.

Definition with_heap (h : gmap nat ListNode) (r : ClockReplacer) :=
  mkClockReplacer h (brk r) (capacity_ r) (clock_size_ r) (pin_size_ r)
                  (head_ r) (tail_ r) (current_ r).
Definition with_brk (b : nat) (r : ClockReplacer) :=
  mkClockReplacer (heap r) b (capacity_ r) (clock_size_ r) (pin_size_ r)
                  (head_ r) (tail_ r) (current_ r).
Definition with_clock_size (n : Z) (r : ClockReplacer) :=
  mkClockReplacer (heap r) (brk r) (capacity_ r) n (pin_size_ r)
                  (head_ r) (tail_ r) (current_ r).
Definition with_pin_size (n : Z) (r : ClockReplacer) :=
  mkClockReplacer (heap r) (brk r) (capacity_ r) (clock_size_ r) n
                  (head_ r) (tail_ r) (current_ r).
Definition with_head (p : ptr) (r : ClockReplacer) :=
  mkClockReplacer (heap r) (brk r) (capacity_ r) (clock_size_ r) (pin_size_ r)
                  p (tail_ r) (current_ r).
Definition with_tail (p : ptr) (r : ClockReplacer) :=
  mkClockReplacer (heap r) (brk r) (capacity_ r) (clock_size_ r) (pin_size_ r)
                  (head_ r) p (current_ r).
Definition with_current (p : ptr) (r : ClockReplacer) :=
  mkClockReplacer (heap r) (brk r) (capacity_ r) (clock_size_ r) (pin_size_ r)
                  (head_ r) (tail_ r) p.

(** *** Memory accesses *)

(** [*p]: reading through a null or dangling pointer is undefined. *)
Definition load (p : ptr) : M ClockReplacer ListNode :=
  fun r => match p with
           | Some a => match heap r !! a with
                       | Some nd => Ok (nd, r)
                       | None => Fault UndefinedBehaviour
                       end
           | None => Fault UndefinedBehaviour
           end.

(** [p->field = v], as an update [f] of the node [p] points to. *)
Definition store (p : ptr) (f : ListNode -> ListNode) : M ClockReplacer unit :=
  let* nd := load p in
  match p with
  | Some a => modify (fun r => with_heap (<[a := f nd]> (heap r)) r)
  | None => fail UndefinedBehaviour
  end.

Definition set_pin (b : bool) (nd : ListNode) : ListNode :=
  mkListNode b (refer_ nd) (frame_id_ nd) (next_ nd).
Definition set_refer (b : bool) (nd : ListNode) : ListNode :=
  mkListNode (pin_ nd) b (frame_id_ nd) (next_ nd).
Definition set_next (q : ptr) (nd : ListNode) : ListNode :=
  mkListNode (pin_ nd) (refer_ nd) (frame_id_ nd) q.

(** [free(p)] *)
Definition free (p : ptr) : M ClockReplacer unit :=
  let* _ := load p in
  match p with
  | Some a => modify (fun r => with_heap (delete a (heap r)) r)
  | None => fail UndefinedBehaviour
  end.

Definition ptr_eqb (p q : ptr) : bool := bool_decide (p = q).

(** *** Constructor

    [ClockReplacer(num_pages)] sets the three counters and leaves [head_],
    [tail_] and [current_] uninitialised; the model starts them at
    [nullptr].  While [clock_size_] is 0 no member function dereferences
    them: [Unpin] assigns [head_] and [current_] first. *)
Definition new (num_pages : Z) : ClockReplacer :=
  mkClockReplacer ∅ 0%nat (size_t_wrap num_pages) 0 0 None None None.

(** *** Create_node *)
Definition Create_node (frame_id : Z) (pin : bool) (next : ptr)
  : M ClockReplacer ptr :=
  let* a := gets brk in
  modify (fun r => with_brk (S a)
            (with_heap (<[a := mkListNode pin true frame_id next]> (heap r)) r)) ;;
  (* increase size *)
  modify (fun r => with_clock_size (size_t_wrap (clock_size_ r + 1)) r) ;;
  ret (Some a).

(** *** Victim *)

(** The local variables of [Victim] that survive the loop. *)
Record walk : Type := mkWalk {
  target : ptr;
  pre : ptr;
  min_pre : ptr;
  min_frame : ptr;
  min_frame_id : Z
}.

Definition walk0 : walk := mkWalk None None None None INT_MAX.

(** The [while (cnt < clock_size_)] loop; [n] is [clock_size_ - cnt]. *)
Fixpoint victim_loop (n : nat) (w : walk) : M ClockReplacer walk :=
  match n with
  | O => ret w
  | S n' =>
    let* cur := gets current_ in
    match cur with
    | None => ret w                                   (* break *)
    | Some _ =>
      let* nd := load cur in
      if pin_ nd then
        (* just skip *)
        modify (with_current (next_ nd)) ;;
        victim_loop n' (mkWalk (target w) cur (min_pre w) (min_frame w)
                               (min_frame_id w))
      else if negb (refer_ nd) then
        ret (mkWalk cur (pre w) (min_pre w) (min_frame w) (min_frame_id w))
      else
        (* not pin and refer *)
        store cur (set_refer false) ;;
        let w' := if frame_id_ nd <? min_frame_id w
                  then mkWalk (target w) (pre w) (pre w) cur (frame_id_ nd)
                  else w in
        modify (with_current (next_ nd)) ;;
        victim_loop n' (mkWalk (target w') cur (min_pre w') (min_frame w')
                               (min_frame_id w'))
    end
  end.

(** Unlinking and freeing [tgt], the second half of [Victim]. *)
Definition victim_unlink (tgt pre0 : ptr) : M ClockReplacer Z :=
  let* cs := gets clock_size_ in
  (if cs =? 1 then
     (* last one *)
     modify (with_head None) ;;
     modify (with_tail None) ;;
     modify (with_current None)
   else
     let* h := gets head_ in
     if ptr_eqb tgt h then
       let* t := load tgt in
       modify (with_head (next_ t)) ;;
       let* tl := gets tail_ in
       let* h' := gets head_ in
       store tl (set_next h')
     else
       let* h0 := gets head_ in
       let pre1 := match pre0 with None => h0 | Some _ => pre0 end in
       let* t := load tgt in
       store pre1 (set_next (next_ t))) ;;
  let* cur := gets current_ in
  (if ptr_eqb cur tgt then
     let* t := load tgt in
     modify (with_current (next_ t))
   else ret tt) ;;
  let* t := load tgt in
  let fid := frame_id_ t in
  store tgt (set_next None) ;;
  free tgt ;;
  modify (fun r => with_clock_size (size_t_wrap (clock_size_ r - 1)) r) ;;
  ret fid.

(** [Victim(&frame_id)]: [Some f] is "returns true with [*frame_id == f]",
    [None] is "returns false" ([*frame_id] is not written). *)
Definition Victim : M ClockReplacer (option Z) :=
  let* h := gets head_ in
  match h with
  | None => ret None
  | Some _ =>
    let* cs := gets clock_size_ in
    let* w := victim_loop (Z.to_nat cs) walk0 in
    let '(tgt, pre0) :=
      match target w, min_frame w with
      | None, Some _ => (min_frame w, min_pre w)
      | _, _ => (target w, pre w)
      end in
    match tgt with
    | Some _ => let* fid := victim_unlink tgt pre0 in ret (Some fid)
    | None => ret None
    end
  end.

(** *** The search loop shared by Pin and Unpin *)

(** [n] is [clock_size_ - cnt]; the result is [(target, pre)].  ([Pin] has
    no [pre] variable and ignores it.) *)
Fixpoint search_loop (n : nat) (frame_id : Z) (node pre0 : ptr)
  : M ClockReplacer (ptr * ptr) :=
  match n with
  | O => ret (None, pre0)
  | S n' =>
    match node with
    | None => ret (None, pre0)                        (* break *)
    | Some _ =>
      let* nd := load node in
      if frame_id_ nd =? frame_id then ret (node, pre0)
      else search_loop n' frame_id (next_ nd) node
    end
  end.

(** *** Pin *)
Definition Pin (frame_id : Z) : M ClockReplacer unit :=
  let* cs := gets clock_size_ in
  if cs =? 0 then ret tt
  else
    let* h := gets head_ in
    let* (tgt, _) := search_loop (Z.to_nat cs) frame_id h None in
    match tgt with
    | Some _ =>
      (* found *)
      store tgt (set_pin true) ;;
      store tgt (set_refer true) ;;
      modify (fun r => with_pin_size (size_t_wrap (pin_size_ r + 1)) r)
    | None => ret tt                                  (* not found, do nothing *)
    end.

(** *** Unpin *)
Definition Unpin (frame_id : Z) : M ClockReplacer unit :=
  let* cs := gets clock_size_ in
  if cs =? 0 then
    (* if empty then add *)
    let* p := Create_node frame_id false None in
    modify (with_head p) ;;
    let* h := gets head_ in
    store h (set_next h) ;;
    modify (with_current h)
  else
    let* h := gets head_ in
    let* (tgt, pre0) := search_loop (Z.to_nat cs) frame_id h None in
    match tgt with
    | Some _ =>
      (* found *)
      let* t := load tgt in
      if pin_ t then
        store tgt (set_pin false) ;;
        modify (fun r => with_pin_size (size_t_wrap (pin_size_ r - 1)) r)
      else ret tt
    | None =>
      (* not found *)
      let* cs' := gets clock_size_ in
      let* cap := gets capacity_ in
      if cs' <? cap then
        let* h' := gets head_ in
        let* new_node := Create_node frame_id false h' in
        store pre0 (set_next new_node) ;;
        modify (with_tail new_node)
      else
        (* full, we should evacuate one element *)
        fail Thrown
    end.

(** *** Size *)
Definition Size (r : ClockReplacer) : Z :=
  size_t_wrap (clock_size_ r - pin_size_ r).

(** *** Observing the ring

    The descriptors reachable from [head_]: follow [next_] until the walk
    is back at [head_], reaches a null or dangling pointer, or [fuel] runs
    out.  This is specification-level code, used to state what the ring
    contains. *)
Fixpoint ring_from (fuel : nat) (r : ClockReplacer) (p : ptr)
  : list ListNode :=
  match fuel with
  | O => []
  | S fuel' =>
    match p with
    | None => []
    | Some a =>
      match heap r !! a with
      | None => []
      | Some nd =>
        nd :: (if ptr_eqb (next_ nd) (head_ r) then []
               else ring_from fuel' r (next_ nd))
      end
    end
  end.

Definition ring (r : ClockReplacer) : list ListNode :=
  ring_from (size (heap r)) r (head_ r).

(** The descriptors as the triples [(frame_id, pin, refer)]. *)
Definition entry (nd : ListNode) : Z * bool * bool :=
  (frame_id_ nd, pin_ nd, refer_ nd).

Definition ring_entries (r : ClockReplacer) : list (Z * bool * bool) :=
  entry <$> ring r.

(** All descriptors that are still allocated, on the ring or not. *)
Definition allocated_entries (r : ClockReplacer) : list (Z * bool * bool) :=
  entry <$> (map_to_list (heap r)).*2.

(** The descriptor under the hand, if [current_] points to a live node. *)
Definition hand (r : ClockReplacer) : option (Z * bool * bool) :=
  match current_ r with
  | Some a => entry <$> heap r !! a
  | None => None
  end.

Definition unpinned_count (r : ClockReplacer) : Z :=
  Z.of_nat (length (filter (fun nd => pin_ nd = false) (ring r))).

Definition pinned_count (r : ClockReplacer) : Z :=
  Z.of_nat (length (filter (fun nd => pin_ nd = true) (ring r))).

(** A script of public calls, for running scenarios. *)
Inductive op : Type :=
| OpPin (frame_id : Z)
| OpUnpin (frame_id : Z)
| OpVictim.

Definition run_op (c : op) : M ClockReplacer (option Z) :=
  match c with
  | OpPin f => Pin f ;; ret None
  | OpUnpin f => Unpin f ;; ret None
  | OpVictim => Victim
  end.

(** The values returned by the [Victim] calls of the script, in order. *)
Fixpoint run_ops (cs : list op) : M ClockReplacer (list (option Z)) :=
  match cs with
  | [] => ret []
  | c :: cs' =>
    let* v := run_op c in
    let* vs := run_ops cs' in
    ret (match c with OpVictim => v :: vs | _ => vs end)
  end.

End Clock.

(** ** The buffer pool manager instance *)

Module BPM.

(** Modelled from the spec: [common/config.h] is not among the sources;
    "INVALID_PAGE_ID is a sentinel (-1)". *)
Definition INVALID_PAGE_ID : Z := -1.

(** Modelled from the spec: [common/config.h] is not among the sources; a
    frame is "a fixed-size block (conventionally 4 KiB)". *)
Definition BUSTUB_PAGE_SIZE : nat := 4096.

Definition zero_data : list Byte.byte := replicate BUSTUB_PAGE_SIZE Byte.x00.

(** Modelled from the spec: [storage/page/page.h] is not among the sources.
    A frame carries its data buffer, [page_id] ("the page currently
    resident, or INVALID_PAGE_ID if empty"), [pin_count] and [is_dirty]. *)
Record Page : Type := mkPage {
  data_ : list Byte.byte;
  page_id_ : Z;
  pin_count_ : Z;
  is_dirty_ : bool
}.

(** Modelled from the spec: a frame that was never used is empty, with no
    page resident, not pinned and not dirty. *)
Definition empty_page : Page := mkPage zero_data INVALID_PAGE_ID 0 false.

Definition set_data (d : list Byte.byte) (p : Page) : Page :=
  mkPage d (page_id_ p) (pin_count_ p) (is_dirty_ p).
Definition set_page_id (i : Z) (p : Page) : Page :=
  mkPage (data_ p) i (pin_count_ p) (is_dirty_ p).
Definition set_pin_count (n : Z) (p : Page) : Page :=
  mkPage (data_ p) (page_id_ p) n (is_dirty_ p).
Definition set_is_dirty (b : bool) (p : Page) : Page :=
  mkPage (data_ p) (page_id_ p) (pin_count_ p) b.

(** Modelled from the spec: the Disk Manager is an external collaborator
    that is not among the sources.  It provides [ReadPage] and [WritePage]
    and is informed of deallocations; these are the calls it can
    receive. *)
Inductive disk_call : Type :=
| DiskRead (page_id : Z)
| DiskWrite (page_id : Z) (bytes : list Byte.byte)
| DiskDeallocate (page_id : Z).

(** Modelled from the spec: the state of the Disk Manager, as the blocks
    it stores and a journal of the calls it has received. *)
Record DiskManager : Type := mkDiskManager {
  blocks : gmap Z (list Byte.byte);
  journal : list disk_call
}.

(** Modelled from the spec: [ReadPage] "reads one page into a
    caller-provided byte buffer"; a block that was never written reads as
    zeroes. *)
Definition disk_read (page_id : Z) (d : DiskManager)
  : list Byte.byte * DiskManager :=
  (default zero_data (blocks d !! page_id),
   mkDiskManager (blocks d) (journal d ++ [DiskRead page_id])).

(** Modelled from the spec: [WritePage] "writes one page from a
    caller-provided byte buffer". *)
Definition disk_write (page_id : Z) (bytes : list Byte.byte) (d : DiskManager)
  : DiskManager :=
  mkDiskManager (<[page_id := bytes]> (blocks d))
                (journal d ++ [DiskWrite page_id bytes]).

(** Modelled from the spec: [buffer/buffer_pool_manager_instance.h] is not
    among the sources.  The fields are those the member functions use.  A
    page ID is "a 32-bit signed integer" and so is the counter
    [next_page_id_]; a frame ID is an [int]; the two instance parameters
    are [uint32_t], as in the constructor's signature; [pages_] is the
    frame array, [free_list_] a list of frame IDs and [page_table_] a
    unique mapping from page ID to frame ID. *)
Record BufferPoolManagerInstance : Type := mkBPM {
  pool_size_ : Z;
  num_instances_ : Z;
  instance_index_ : Z;
  next_page_id_ : Z;
  pages_ : list Page;
  replacer_ : Clock.ClockReplacer;
  free_list_ : list Z;
  page_table_ : gmap Z Z;
  disk_manager_ : DiskManager
}.

Definition with_next_page_id (n : Z) (b : BufferPoolManagerInstance) :=
  mkBPM (pool_size_ b) (num_instances_ b) (instance_index_ b) n (pages_ b)
        (replacer_ b) (free_list_ b) (page_table_ b) (disk_manager_ b).
Definition with_pages (ps : list Page) (b : BufferPoolManagerInstance) :=
  mkBPM (pool_size_ b) (num_instances_ b) (instance_index_ b)
        (next_page_id_ b) ps (replacer_ b) (free_list_ b) (page_table_ b)
        (disk_manager_ b).
Definition with_replacer (r : Clock.ClockReplacer) (b : BufferPoolManagerInstance) :=
  mkBPM (pool_size_ b) (num_instances_ b) (instance_index_ b)
        (next_page_id_ b) (pages_ b) r (free_list_ b) (page_table_ b)
        (disk_manager_ b).
Definition with_free_list (l : list Z) (b : BufferPoolManagerInstance) :=
  mkBPM (pool_size_ b) (num_instances_ b) (instance_index_ b)
        (next_page_id_ b) (pages_ b) (replacer_ b) l (page_table_ b)
        (disk_manager_ b).
Definition with_page_table (t : gmap Z Z) (b : BufferPoolManagerInstance) :=
  mkBPM (pool_size_ b) (num_instances_ b) (instance_index_ b)
        (next_page_id_ b) (pages_ b) (replacer_ b) (free_list_ b) t
        (disk_manager_ b).
Definition with_disk_manager (d : DiskManager) (b : BufferPoolManagerInstance) :=
  mkBPM (pool_size_ b) (num_instances_ b) (instance_index_ b)
        (next_page_id_ b) (pages_ b) (replacer_ b) (free_list_ b)
        (page_table_ b) d.

(** [replacer_->f(...)] *)
Definition on_replacer {A} (m : M Clock.ClockReplacer A)
  : M BufferPoolManagerInstance A :=
  fun b => match m (replacer_ b) with
           | Ok (a, r) => Ok (a, with_replacer r b)
           | Fault f => Fault f
           end.

(** [*(pages_ + frame_id)]: outside the array the access is undefined. *)
Definition page_at (frame_id : Z) : M BufferPoolManagerInstance Page :=
  fun b => if frame_id <? 0 then Fault UndefinedBehaviour
           else match pages_ b !! Z.to_nat frame_id with
                | Some p => Ok (p, b)
                | None => Fault UndefinedBehaviour
                end.

Definition update_page (frame_id : Z) (f : Page -> Page)
  : M BufferPoolManagerInstance unit :=
  let* p := page_at frame_id in
  modify (fun b => with_pages (<[Z.to_nat frame_id := f p]> (pages_ b)) b).

(** [disk_manager_->WritePage(page_id, bytes)] *)
Definition WritePage (page_id : Z) (bytes : list Byte.byte)
  : M BufferPoolManagerInstance unit :=
  modify (fun b => with_disk_manager (disk_write page_id bytes (disk_manager_ b)) b).

(** [disk_manager_->ReadPage(page_id, pages_ + frame_id)] *)
Definition ReadPage (page_id frame_id : Z) : M BufferPoolManagerInstance unit :=
  let* d := gets disk_manager_ in
  let (bytes, d') := disk_read page_id d in
  modify (with_disk_manager d') ;;
  update_page frame_id (set_data bytes).

(** [page_table_.insert(page_table_.begin(), pair)]: [insert] keeps an
    existing entry for the key. *)
Definition table_insert (page_id frame_id : Z) (t : gmap Z Z) : gmap Z Z :=
  match t !! page_id with
  | Some _ => t
  | None => <[page_id := frame_id]> t
  end.

(** *** Constructor

    The two [BUSTUB_ASSERT]s, then the frame array of empty pages, the
    replacer of capacity [pool_size] and the free list: the loop counter
    [i] is a [size_t], and what is appended is [static_cast<int>(i)], for
    [i] from 0 to [pool_size - 1]; a counter that does not fit an [int]
    is reduced modulo 2^32 and can come out negative. *)
Definition new (pool_size num_instances instance_index : Z)
               (disk_manager : DiskManager)
  : outcome BufferPoolManagerInstance :=
  if negb (0 <? num_instances) then Fault AssertionFailed
  else if negb (instance_index <? num_instances) then Fault AssertionFailed
  else
    let n := Z.to_nat pool_size in
    Ok (mkBPM pool_size num_instances instance_index
              (int32_wrap instance_index)
              (replicate n empty_page)
              (Clock.new pool_size)
              ((fun i => int32_wrap (Z.of_nat i)) <$> seq 0 n)
              ∅
              disk_manager).

(** *** ValidatePageId and AllocatePage *)

(** [assert(page_id % num_instances_ == instance_index_)], with
    assertions enabled: the signed [page_id] is converted to [uint32_t] for
    the remainder, and a remainder by zero is undefined. *)
Definition ValidatePageId (page_id : Z) : M BufferPoolManagerInstance unit :=
  let* n := gets num_instances_ in
  let* i := gets instance_index_ in
  if n =? 0 then fail UndefinedBehaviour
  else if uint32_wrap page_id mod n =? i then ret tt
  else fail AssertionFailed.

Definition AllocatePage : M BufferPoolManagerInstance Z :=
  let* next_page_id := gets next_page_id_ in
  modify (fun b => with_next_page_id
                     (int32_wrap (next_page_id_ b + num_instances_ b)) b) ;;
  ValidatePageId next_page_id ;;
  ret next_page_id.

(** *** FlushPgImp *)
Definition FlushPgImp (page_id : Z) : M BufferPoolManagerInstance bool :=
  if page_id =? INVALID_PAGE_ID then ret false
  else
    let* t := gets page_table_ in
    match t !! page_id with
    | Some frame_id =>
      (* found in page_table *)
      let* page := page_at frame_id in
      if is_dirty_ page then
        WritePage page_id (data_ page) ;;
        update_page frame_id (set_is_dirty false)
      else ret tt
    | None => ret tt
    end ;;
    ret false.

(** *** FlushAllPgsImp

    The body of the loop, for one entry [(page_id, frame_id)] of the page
    table. *)
Definition flush_entry (entry : Z * Z) : M BufferPoolManagerInstance unit :=
  let (page_id, frame_id) := entry in
  let* page := page_at frame_id in
  if is_dirty_ page then
    WritePage page_id (data_ page) ;;
    update_page frame_id (set_is_dirty false)
  else ret tt.

(** The loop over the entries, in the order the iteration delivers them. *)
Fixpoint flush_entries (entries : list (Z * Z))
  : M BufferPoolManagerInstance unit :=
  match entries with
  | [] => ret tt
  | entry :: rest => flush_entry entry ;; flush_entries rest
  end.

(** The range-based [for] visits the entries of the [unordered_map] in an
    order the standard library leaves open.  The model takes the order of
    [map_to_list]; what is proved of the loop is proved of [flush_entries]
    on every enumeration of the page table. *)
Definition FlushAllPgsImp : M BufferPoolManagerInstance unit :=
  let* t := gets page_table_ in
  flush_entries (map_to_list t).

(** *** NewPgImp

    The result is [( *page_id, page )], where the returned [Page *] is the
    index of the frame, [None] for [nullptr]. *)
Definition NewPgImp : M BufferPoolManagerInstance (Z * option Z) :=
  let* page_id := AllocatePage in
  let* fl := gets free_list_ in
  let* page :=
    match fl with
    | frame_id :: rest =>
      (* have empty frame *)
      modify (with_free_list rest) ;;
      ret (Some frame_id)
    | [] =>
      let* is_found := on_replacer Clock.Victim in
      match is_found with
      | Some frame_id =>
        (* write old page if dirty *)
        let* old_page := page_at frame_id in
        let old_page_id := page_id_ old_page in
        (if is_dirty_ old_page then
           update_page frame_id (set_is_dirty false) ;;
           WritePage old_page_id (data_ old_page)
         else ret tt) ;;
        (* remove from page_table_ *)
        modify (fun b => with_page_table (delete old_page_id (page_table_ b)) b) ;;
        ret (Some frame_id)
      | None => ret None
      end
    end in
  match page with
  | Some frame_id =>
    ReadPage page_id frame_id ;;
    update_page frame_id (set_pin_count 1) ;;
    update_page frame_id (set_is_dirty false) ;;
    update_page frame_id (set_page_id page_id) ;;
    on_replacer (Clock.Unpin frame_id) ;;
    on_replacer (Clock.Pin frame_id) ;;
    modify (fun b => with_page_table
                       (table_insert page_id frame_id (page_table_ b)) b) ;;
    ret (page_id, Some frame_id)
  | None => ret (page_id, None)
  end.

(** *** FetchPgImp *)
Definition FetchPgImp (page_id : Z) : M BufferPoolManagerInstance (option Z) :=
  let* t := gets page_table_ in
  match t !! page_id with
  | Some frame_id =>
    on_replacer (Clock.Pin frame_id) ;;
    ret (Some frame_id)
  | None =>
    let* fl := gets free_list_ in
    let* page :=
      match fl with
      | frame_id :: rest =>
        modify (with_free_list rest) ;;
        ret (Some frame_id)
      | [] => on_replacer Clock.Victim
      end in
    match page with
    | Some frame_id =>
      let* p := page_at frame_id in
      (if is_dirty_ p then
         update_page frame_id (set_is_dirty false) ;;
         WritePage (page_id_ p) (data_ p)
       else ret tt) ;;
      (* remove from page_table_ *)
      modify (fun b => with_page_table (delete (page_id_ p) (page_table_ b)) b) ;;
      (* read from disk *)
      ReadPage page_id frame_id ;;
      update_page frame_id (set_page_id page_id) ;;
      update_page frame_id (set_is_dirty false) ;;
      update_page frame_id (set_pin_count 1) ;;
      on_replacer (Clock.Unpin frame_id) ;;
      on_replacer (Clock.Pin frame_id) ;;
      (* add to page_table_ *)
      modify (fun b => with_page_table
                         (table_insert page_id frame_id (page_table_ b)) b) ;;
      ret (Some frame_id)
    | None => ret None
    end
  end.

(** *** DeletePgImp

    After the two early returns the iterator [it] equals
    [page_table_.end()], and [it->second] dereferences it: the rest of the
    function body is never run with a defined meaning. *)
Definition DeletePgImp (page_id : Z) : M BufferPoolManagerInstance bool :=
  if page_id =? INVALID_PAGE_ID then ret true
  else
    let* t := gets page_table_ in
    match t !! page_id with
    | Some _ => ret true                 (* [it != page_table_.end()] *)
    | None => fail UndefinedBehaviour    (* [frame_id = it->second] *)
    end.

(** *** UnpinPgImp *)
Definition UnpinPgImp (page_id : Z) (is_dirty : bool)
  : M BufferPoolManagerInstance bool :=
  let* t := gets page_table_ in
  match t !! page_id with
  | None => ret true                     (* not found in page_table *)
  | Some frame_id =>
    (* found in page_table *)
    update_page frame_id (set_is_dirty is_dirty) ;;
    let* page := page_at frame_id in
    if 0 <? pin_count_ page then
      on_replacer (Clock.Unpin frame_id) ;;
      update_page frame_id (set_pin_count 0) ;;
      ret true
    else ret false
  end.

(** A script of public calls, for running scenarios. *)
Inductive call : Type :=
| CallNew
| CallFetch (page_id : Z)
| CallUnpin (page_id : Z) (is_dirty : bool)
| CallFlush (page_id : Z)
| CallDelete (page_id : Z).

Definition run_call (c : call) : M BufferPoolManagerInstance unit :=
  match c with
  | CallNew => NewPgImp ;; ret tt
  | CallFetch p => FetchPgImp p ;; ret tt
  | CallUnpin p d => UnpinPgImp p d ;; ret tt
  | CallFlush p => FlushPgImp p ;; ret tt
  | CallDelete p => DeletePgImp p ;; ret tt
  end.

Fixpoint run_calls (cs : list call) : M BufferPoolManagerInstance unit :=
  match cs with
  | [] => ret tt
  | c :: cs' => run_call c ;; run_calls cs'
  end.

(** A computation run on a freshly constructed instance. *)
Definition session {A} (pool_size num_instances instance_index : Z)
    (disk_manager : DiskManager) (m : M BufferPoolManagerInstance A)
  : outcome A :=
  match new pool_size num_instances instance_index disk_manager with
  | Ok b => eval m b
  | Fault f => Fault f
  end.

(** An empty database file. *)
Definition blank_disk : DiskManager := mkDiskManager ∅ [].

(** [n] successive calls of [AllocatePage], with the IDs they return. *)
Fixpoint allocate_many (n : nat) : M BufferPoolManagerInstance (list Z) :=
  match n with
  | O => ret []
  | S n' =>
    let* id := AllocatePage in
    let* ids := allocate_many n' in
    ret (id :: ids)
  end.

End BPM.

(** * Specification vocabulary

    The predicates and the concrete scenarios the theorems below are
    stated with. *)

Import Clock BPM.

(** ** Monadic code *)

(** [preserves I m]: whenever [m] returns, it has kept [I]. *)
Definition preserves {S A} (I : S -> Prop) (m : M S A) : Prop :=
  forall s a s', I s -> m s = Ok (a, s') -> I s'.

(** [establishes I m Q]: whenever [m] returns, it has kept [I] and its
    value satisfies [Q]. *)
Definition establishes {S A} (I : S -> Prop) (m : M S A) (Q : A -> Prop)
  : Prop :=
  forall s a s', I s -> m s = Ok (a, s') -> I s' /\ Q a.

(** ** Page IDs *)

(** The arithmetic progression of step [N] that starts at [x]. *)
Definition progression (N x : Z) (n : nat) : list Z :=
  (fun k => x + Z.of_nat k * N) <$> seq 0 n.

(** ** The ring of the clock replacer *)

(** [chain h p l q]: following [next_] from [p] visits exactly the nodes
    [l] and arrives at [q]. *)
Inductive chain (h : gmap nat ListNode) : ptr -> list ListNode -> ptr -> Prop :=
| chain_nil p : chain h p [] p
| chain_cons a nd l q :
    h !! a = Some nd -> chain h (next_ nd) l q ->
    chain h (Some a) (nd :: l) q.

(** [chain], with the addresses of the nodes. *)
Inductive achain (h : gmap nat ListNode)
  : ptr -> list (nat * ListNode) -> ptr -> Prop :=
| achain_nil p : achain h p [] p
| achain_cons a nd al q :
    h !! a = Some nd -> achain h (next_ nd) al q ->
    achain h (Some a) ((a, nd) :: al) q.

(** The loop of [Victim] replayed on the list of [(address, node)] pairs
    that the hand is about to visit. *)
Fixpoint scan (al : list (nat * ListNode)) (w : walk) : walk :=
  match al with
  | [] => w
  | (a, nd) :: al' =>
    if pin_ nd then
      scan al' (mkWalk (target w) (Some a) (min_pre w) (min_frame w)
                       (min_frame_id w))
    else if negb (refer_ nd) then
      mkWalk (Some a) (pre w) (min_pre w) (min_frame w) (min_frame_id w)
    else
      let w' := if frame_id_ nd <? min_frame_id w
                then mkWalk (target w) (pre w) (pre w) (Some a) (frame_id_ nd)
                else w in
      scan al' (mkWalk (target w') (Some a) (min_pre w') (min_frame w')
                       (min_frame_id w'))
  end.

(** The heap keeps the frame IDs [F] of its nodes. *)
Definition keeps_frame_ids (F : nat -> option Z) (r : ClockReplacer) : Prop :=
  forall a, frame_id_ <$> heap r !! a = F a.

(** Every node of the replacer's heap carries a frame ID in [[0, n)]. *)
Definition nodes_in_range (n : Z) (r : ClockReplacer) : Prop :=
  forall a nd, heap r !! a = Some nd -> 0 <= frame_id_ nd < n.

(** The pointers [scan] leaves in the local variables are those it started
    with, or addresses of visited nodes. *)
Definition ptr_in (A : list nat) (p : ptr) : Prop :=
  match p with Some a => a ∈ A | None => True end.

Definition walk_in (A : list nat) (w : walk) : Prop :=
  ptr_in A (target w) /\ ptr_in A (pre w) /\
  ptr_in A (min_pre w) /\ ptr_in A (min_frame w).

(** A node the hand stops at: unpinned, with [refer_ == false]. *)
Definition candidate (nd : ListNode) : Prop :=
  pin_ nd = false /\ refer_ nd = false.

(** The frame the clock policy prescribes for the nodes [l], listed from
    the hand: the first unpinned node with [refer_ == false]; if there is
    none, an unpinned node with the least frame ID; [None] if every node is
    pinned. *)
Definition clock_choice (l : list ListNode) (v : option Z) : Prop :=
  match v with
  | Some f =>
    (exists l1 nd l2,
        l = l1 ++ nd :: l2 /\ candidate nd /\
        Forall (fun nd' => ~ candidate nd') l1 /\ frame_id_ nd = f)
    \/
    (Forall (fun nd' => ~ candidate nd') l /\
     (exists nd, nd ∈ l /\ pin_ nd = false /\ frame_id_ nd = f) /\
     (forall nd, nd ∈ l -> pin_ nd = false -> f <= frame_id_ nd))
  | None => Forall (fun nd => pin_ nd = true) l
  end.

(** Every frame ID of a script lies in [[0, num_pages)]. *)
Definition in_range (num_pages : Z) (c : op) : Prop :=
  match c with
  | OpPin f | OpUnpin f => 0 <= f < num_pages
  | OpVictim => True
  end.

(** ** The frames of the buffer pool manager *)

(** A property of single frames, lifted to the frame array. *)
Definition all_frames (P : Page -> Prop) (b : BufferPoolManagerInstance)
  : Prop :=
  Forall P (pages_ b).

Definition pin_count_0_or_1 (p : Page) : Prop :=
  pin_count_ p = 0 \/ pin_count_ p = 1.

(** Every entry of the page table points into the frame array. *)
Definition table_in_range (b : BufferPoolManagerInstance) : Prop :=
  forall page_id frame_id,
    page_table_ b !! page_id = Some frame_id ->
    0 <= frame_id /\ is_Some (pages_ b !! Z.to_nat frame_id).

(** The frame IDs held by the page table, by the free list and by the
    replacer all point into the frame array of [n] frames. *)
Definition frames_in_range (n : Z) (b : BufferPoolManagerInstance) : Prop :=
  Z.of_nat (length (pages_ b)) = n /\
  (forall page_id frame_id,
      page_table_ b !! page_id = Some frame_id -> 0 <= frame_id < n) /\
  Forall (fun frame_id => 0 <= frame_id < n) (free_list_ b) /\
  nodes_in_range n (replacer_ b).

(** The page ID counter stands at [x]. *)
Definition counter_is (x : Z) (b : BufferPoolManagerInstance) : Prop :=
  next_page_id_ b = x.

(** The metadata of a frame, as [(page_id, pin_count, is_dirty)]. *)
Definition meta (p : Page) : Z * Z * bool :=
  (page_id_ p, pin_count_ p, is_dirty_ p).

Definition frame_meta (frame_id : nat) (b : BufferPoolManagerInstance)
  : option (Z * Z * bool) :=
  meta <$> pages_ b !! frame_id.

Definition frame_metas (b : BufferPoolManagerInstance) : list (Z * Z * bool) :=
  meta <$> pages_ b.

(** ** Scenarios *)

(** Five frames enter the ring, the first [Victim] evicts frame 0 after a
    full turn, frames 1 and 2 are pinned, and the second [Victim] evicts
    frame 3 and leaves the hand on frame 4, the third node of the ring. *)
Definition hand_on_third_node : list op :=
  [OpUnpin 0; OpUnpin 1; OpUnpin 2; OpUnpin 3; OpUnpin 4;
   OpVictim; OpPin 1; OpPin 2; OpVictim].

(** A script on a replacer of capacity 4, with every frame ID in
    [[0, 4)]. *)
Definition overflowing_script : list op :=
  [OpUnpin 0; OpUnpin 1; OpUnpin 2; OpUnpin 3; OpVictim; OpUnpin 0;
   OpPin 1; OpPin 2; OpVictim; OpVictim; OpUnpin 0; OpUnpin 3; OpUnpin 0].

(** The pool of one frame after [NewPgImp]: page 0 sits in frame 0 with
    pin count 1, and the replacer knows frame 0 as pinned. *)
Definition one_page_pool : BufferPoolManagerInstance :=
  mkBPM 1 1 0 1
        [mkPage zero_data 0 1 false]
        (mkClockReplacer {[0%nat := mkListNode true true 0 (Some 0%nat)]}
                         1 1 1 1 (Some 0%nat) None (Some 0%nat))
        []
        {[0 := 0]}
        (mkDiskManager ∅ [DiskRead 0]).

(** A database file whose block 0 holds the byte 0xab throughout. *)
Definition used_disk : DiskManager :=
  mkDiskManager {[0 := replicate BUSTUB_PAGE_SIZE Byte.xab]} [].

(** Five pages are created and unpinned; the sixth NewPage evicts frame 0;
    pages 1 and 2 are fetched again, which pins frames 1 and 2; the next
    two NewPage calls evict frames 3 and 4, the second with the hand on the
    third node of the ring.  After that every descriptor is pinned. *)
Definition all_pinned_after_bad_unlink : list call :=
  [CallNew; CallNew; CallNew; CallNew; CallNew;
   CallUnpin 0 false; CallUnpin 1 false; CallUnpin 2 false;
   CallUnpin 3 false; CallUnpin 4 false;
   CallNew; CallFetch 1; CallFetch 2; CallNew; CallNew].

(** ** Searching the ring *)

(** The address of the last node of [al], or [pre0] when [al] is empty:
    the value of [pre] after a search that has walked over [al]. *)
Definition last_ptr (al : list (nat * ListNode)) (pre0 : ptr) : ptr :=
  match last al with
  | Some x => Some x.1
  | None => pre0
  end.

(** No node of [al] carries the frame [f]. *)
Definition unknown_frame (f : Z) (al : list (nat * ListNode)) : Prop :=
  Forall (fun x => frame_id_ x.2 <> f) al.

(** [(a, nd)] is the first node of [al] that carries the frame [f]. *)
Definition first_with_frame (f : Z) (al : list (nat * ListNode))
    (a : nat) (nd : ListNode) : Prop :=
  exists l1 l2, al = l1 ++ (a, nd) :: l2 /\ unknown_frame f l1 /\
                frame_id_ nd = f.

(** What no store of [Victim] changes in a node: its frame ID and its pin
    flag. *)
Definition identity (nd : ListNode) : Z * bool := (frame_id_ nd, pin_ nd).

(** The heap keeps the identities [G] of its nodes, and the replacer its
    three counters. *)
Definition keeps_identities (G : nat -> option (Z * bool)) (cs ps cap : Z)
    (r : ClockReplacer) : Prop :=
  (forall a, identity <$> heap r !! a = G a) /\
  clock_size_ r = cs /\ pin_size_ r = ps /\ capacity_ r = cap.

(** [p] is null or points to an unpinned node. *)
Definition unpinned_in (G : nat -> option (Z * bool)) (p : ptr) : Prop :=
  match p with
  | Some a => exists f, G a = Some (f, false)
  | None => True
  end.

(** ** A ring in order *)

(** What the loop of [Victim] leaves alone in a node: everything but the
    refer flag. *)
Definition links (nd : ListNode) : Z * bool * ptr :=
  (frame_id_ nd, pin_ nd, next_ nd).

Definition same_but_refer (h h' : gmap nat ListNode) : Prop :=
  forall a, links <$> h' !! a = links <$> h !! a.

(** Two lists of nodes at the same addresses that differ in refer flags
    only. *)
Definition alike (al al' : list (nat * ListNode)) : Prop :=
  Forall2 (fun x y => x.1 = y.1 /\ links x.2 = links y.2) al al'.

(** The state of the ring in which every call of the replacer does what
    it is meant to: listed from the head, the ring is [al], [clock_size_]
    distinct nodes with distinct frames, the last linked back to the head;
    the hand is on the head and, when there is more than one node, [tail_]
    on the last one; the ring fits the capacity, and the address malloc
    returns next is free. *)
Definition ring_at_head (r : ClockReplacer) (al : list (nat * ListNode))
  : Prop :=
  achain (heap r) (head_ r) al (head_ r) /\
  NoDup al.*1 /\
  NoDup (frame_id_ <$> al.*2) /\
  length al = Z.to_nat (clock_size_ r) /\
  current_ r = head_ r /\
  (clock_size_ r <> 1 -> tail_ r = last_ptr al None) /\
  clock_size_ r <= capacity_ r /\ capacity_ r < 2 ^ 64 /\
  heap r !! brk r = None.

(** ** Bringing a page into a frame *)

(** The frame that holds a page right after it was brought in: the buffer
    is what the disk manager's [ReadPage] delivers. *)
Definition fresh_frame (page_id : Z) (d : DiskManager) : Page :=
  mkPage (disk_read page_id d).1 page_id 1 false.

(** The disk manager after the write-back of the page [old] that is
    replaced: a dirty page is written under its own page ID. *)
Definition written_back (old : Page) (d : DiskManager) : DiskManager :=
  if is_dirty_ old then disk_write (page_id_ old) (data_ old) d else d.

(** ** Flushing *)

(** The frame [i] is the target of one of the [entries]. *)
Definition targets (entries : list (Z * Z)) (i : nat) : Prop :=
  exists page_id frame_id,
    (page_id, frame_id) ∈ entries /\ Z.to_nat frame_id = i.

(** [c] is the write of a dirty frame of [b] under a page ID that one of
    the [entries] maps to it. *)
Definition flushes (entries : list (Z * Z)) (b : BufferPoolManagerInstance)
    (c : disk_call) : Prop :=
  exists page_id frame_id page,
    (page_id, frame_id) ∈ entries /\
    pages_ b !! Z.to_nat frame_id = Some page /\
    is_dirty_ page = true /\
    c = DiskWrite page_id (data_ page).

(** The blocks of the disk after the calls [ws]. *)
Definition blocks_after (ws : list disk_call) (bl : gmap Z (list Byte.byte))
  : gmap Z (list Byte.byte) :=
  foldl (fun bl c => match c with
                     | DiskWrite i d => <[i := d]> bl
                     | _ => bl
                     end) bl ws.

(** ** Sequences of public calls *)

(** A public call: one of the page-wise calls, or [FlushAllPgsImp]. *)
Inductive request : Type :=
| PageCall (c : call)
| FlushAllCall.

Definition run_request (q : request) : M BufferPoolManagerInstance unit :=
  match q with
  | PageCall c => run_call c
  | FlushAllCall => FlushAllPgsImp
  end.

Fixpoint run_requests (qs : list request) : M BufferPoolManagerInstance unit :=
  match qs with
  | [] => ret tt
  | q :: qs' => run_request q ;; run_requests qs'
  end.

(** The free list is what is left of the list [l]. *)
Definition free_list_left (l : list Z) (b : BufferPoolManagerInstance) : Prop :=
  free_list_ b `suffix_of` l.

(** [n] successive calls of [NewPgImp], with their results. *)
Fixpoint new_pages (n : nat)
  : M BufferPoolManagerInstance (list (Z * option Z)) :=
  match n with
  | O => ret []
  | S n' =>
    let* v := NewPgImp in
    let* vs := new_pages n' in
    ret (v :: vs)
  end.

(** ** Filling a fresh pool *)

(** The descriptor of frame [a] in the ring of the [k] pinned frames
    0, ..., [k - 1], linked in this order and closed at the first. *)
Definition pinned_node (k a : nat) : ListNode :=
  mkListNode true true (Z.of_nat a)
             (Some (if decide (S a = k) then 0%nat else S a)).

(** That ring: the node of frame [a] sits at the address [a]; head and the
    hand are on frame 0 and, from the second frame on, tail on the last. *)
Definition pinned_ring (k : nat) (r : ClockReplacer) : Prop :=
  brk r = k /\ clock_size_ r = Z.of_nat k /\
  (k <> 0%nat -> head_ r = Some 0%nat /\ current_ r = Some 0%nat) /\
  ((2 <= k)%nat -> tail_ r = Some (k - 1)%nat) /\
  (forall a, heap r !! a =
             if decide (a < k)%nat then Some (pinned_node k a) else None).

(** The nodes [j], ..., [j + m - 1] of that ring, with their addresses. *)
Definition ring_nodes (k j m : nat) : list (nat * ListNode) :=
  (fun a => (a, pinned_node k a)) <$> seq j m.

(** The ring of the [k] frames 0, ..., [k - 1] of which only frame [j] is
    not pinned. *)
Definition ring_with_unpinned (k j : nat) : list (nat * ListNode) :=
  ring_nodes k 0 j ++
  (j, set_pin false (pinned_node k j)) :: ring_nodes k (S j) (k - S j).

(** The pool of [n] frames after [k] pages were created and none was
    unpinned: the frames [k], ..., [n - 1] are still free, the replacer
    holds the frames 0, ..., [k - 1] as pinned, and the page table maps
    the [k] page IDs handed out so far, and nothing else, to these frames,
    whose pin counts are 1. *)
Definition filled_up_to (n : nat) (N i : Z) (k : nat)
    (b : BufferPoolManagerInstance) : Prop :=
  num_instances_ b = N /\ instance_index_ b = i /\
  next_page_id_ b = i + Z.of_nat k * N /\
  length (pages_ b) = n /\
  free_list_ b = Z.of_nat <$> seq k (n - k) /\
  pinned_ring k (replacer_ b) /\
  capacity_ (replacer_ b) = Z.of_nat n /\
  (forall page_id f,
     page_table_ b !! page_id = Some f <->
     exists j, (j < k)%nat /\ page_id = i + Z.of_nat j * N /\ f = Z.of_nat j) /\
  (forall j, (j < k)%nat ->
     exists p, pages_ b !! j = Some p /\ pin_count_ p = 1).

(** ** Further scenarios *)

(** A replacer of capacity 4 after Unpin(0), Unpin(1), Unpin(2), Pin(0):
    the ring 0, 1, 2 with frame 0 pinned and the hand on frame 0. *)
Definition sample_ring : ClockReplacer :=
  mkClockReplacer
    {[0%nat := mkListNode true true 0 (Some 1%nat);
      1%nat := mkListNode false true 1 (Some 2%nat);
      2%nat := mkListNode false true 2 (Some 0%nat)]}
    3 4 3 1 (Some 0%nat) (Some 2%nat) (Some 0%nat).

Definition sample_nodes : list (nat * ListNode) :=
  [(0%nat, mkListNode true true 0 (Some 1%nat));
   (1%nat, mkListNode false true 1 (Some 2%nat));
   (2%nat, mkListNode false true 2 (Some 0%nat))].

(** [sample_ring] after [Victim] has evicted frame 1. *)
Definition sample_ring_without_1 : ClockReplacer :=
  mkClockReplacer
    {[0%nat := mkListNode true true 0 (Some 2%nat);
      2%nat := mkListNode false false 2 (Some 0%nat)]}
    3 4 2 1 (Some 0%nat) (Some 2%nat) (Some 0%nat).

(** A fresh pool of two frames on [used_disk]. *)
Definition two_frame_pool : BufferPoolManagerInstance :=
  mkBPM 2 1 0 0 (replicate 2 empty_page) (Clock.new 2) [0; 1] ∅ used_disk.

(** That pool after NewPage, NewPage, UnpinPage(0, true),
    UnpinPage(1, false): page 0 sits in frame 0, dirty, page 1 in frame 1,
    clean, and neither is pinned. *)
Definition two_dirty_pages : BufferPoolManagerInstance :=
  mkBPM 2 1 0 2
        [mkPage (replicate BUSTUB_PAGE_SIZE Byte.xab) 0 0 true;
         mkPage zero_data 1 0 false]
        (mkClockReplacer
           {[0%nat := mkListNode false true 0 (Some 1%nat);
             1%nat := mkListNode false true 1 (Some 0%nat)]}
           2 2 2 0 (Some 0%nat) (Some 1%nat) (Some 0%nat))
        []
        {[0 := 0; 1 := 1]}
        (mkDiskManager {[0 := replicate BUSTUB_PAGE_SIZE Byte.xab]}
                       [DiskRead 0; DiskRead 1]).

(** The nodes of the ring of [two_dirty_pages], from the head. *)
Definition two_dirty_nodes : list (nat * ListNode) :=
  [(0%nat, mkListNode false true 0 (Some 1%nat));
   (1%nat, mkListNode false true 1 (Some 0%nat))].

(** A script that uses every kind of public call. *)
Definition mixed_requests : list request :=
  [PageCall CallNew; PageCall (CallUnpin 0 true); FlushAllCall;
   PageCall CallNew; PageCall (CallFetch 0); PageCall (CallFlush 1);
   PageCall (CallDelete 1)].

(** * Properties *)

(** ** Invariants of monadic code *)

Section Preserves.

Context {S : Type} (I : S -> Prop).

Lemma preserves_ret {A} (a : A) : preserves I (ret a).
Proof. intros s a' s' Hs [= _ <-]. exact Hs. Qed.

Lemma preserves_fail {A} f : preserves I (@fail S A f).
Proof. intros s a s' _ [=]. Qed.

Lemma preserves_gets {A} (proj : S -> A) : preserves I (gets proj).
Proof. intros s a s' Hs [= _ <-]. exact Hs. Qed.

Lemma preserves_modify (upd : S -> S) :
  (forall s, I s -> I (upd s)) -> preserves I (modify upd).
Proof. intros Hu s a s' Hs [= _ <-]. auto. Qed.

Lemma preserves_bind {A B} (m : M S A) (k : A -> M S B) :
  preserves I m -> (forall a, preserves I (k a)) -> preserves I (bind m k).
Proof.
  intros Hm Hk s b s' Hs. unfold bind.
  destruct (m s) as [[a s1]|f] eqn:E; [|discriminate].
  intros Hks. eapply Hk; [|exact Hks]. eapply Hm; eauto.
Qed.

End Preserves.

Lemma bind_Ok {S A B} (m : M S A) (k : A -> M S B) s b s' :
  bind m k s = Ok (b, s') ->
  exists a s1, m s = Ok (a, s1) /\ k a s1 = Ok (b, s').
Proof.
  unfold bind. destruct (m s) as [[a s1]|f]; [|discriminate]. eauto.
Qed.

Lemma establishes_bind {S A B} (I : S -> Prop) (Q : A -> Prop)
    (m : M S A) (k : A -> M S B) :
  establishes I m Q -> (forall a, Q a -> preserves I (k a)) ->
  preserves I (bind m k).
Proof.
  intros Hm Hk s b s' Hs H. apply bind_Ok in H as (a & s1 & H1 & H2).
  destruct (Hm s a s1 Hs H1) as [Hs1 Ha]. eapply Hk; eauto.
Qed.

Lemma establishes_gets {S A} (I : S -> Prop) (proj : S -> A) (Q : A -> Prop) :
  (forall s, I s -> Q (proj s)) -> establishes I (gets proj) Q.
Proof. intros HQ s a s' Hs [= <- <-]. auto. Qed.

(** ** Machine arithmetic *)

Lemma int32_wrap_id z : - 2 ^ 31 <= z < 2 ^ 31 -> int32_wrap z = z.
Proof.
  intros Hz. unfold int32_wrap.
  rewrite Z.mod_small by lia. lia.
Qed.

Lemma uint32_wrap_id z : 0 <= z < 2 ^ 32 -> uint32_wrap z = z.
Proof. intros Hz. unfold uint32_wrap. now rewrite Z.mod_small. Qed.

(** ** Page ID allocation *)

Section Allocation.

Variables (N i : Z).
Hypothesis HN : 0 < N < 2 ^ 32.
Hypothesis Hi : 0 <= i < N.

Lemma progression_S x n : progression N x (S n) = x :: progression N (x + N) n.
Proof.
  unfold progression. cbn [seq fmap list_fmap]. f_equal; [lia|].
  rewrite <- seq_shift, <- list_fmap_compose.
  apply list_fmap_ext. intros _ k _. cbn. lia.
Qed.

Lemma AllocatePage_in_range (b : BPM.BufferPoolManagerInstance) x :
  BPM.num_instances_ b = N -> BPM.instance_index_ b = i ->
  BPM.next_page_id_ b = x -> 0 <= x <= INT_MAX -> x mod N = i ->
  BPM.AllocatePage b =
    Ok (x, BPM.with_next_page_id (int32_wrap (x + N)) b).
Proof.
  intros HbN Hbi Hx Hr Hm.
  unfold BPM.AllocatePage, BPM.ValidatePageId, bind, gets, modify, ret, fail.
  cbn. rewrite HbN, Hbi, Hx.
  destruct (N =? 0) eqn:E0; [lia|].
  rewrite uint32_wrap_id by (unfold INT_MAX in Hr; lia).
  rewrite Hm, Z.eqb_refl. reflexivity.
Qed.

Lemma allocate_many_in_range n : forall (b : BPM.BufferPoolManagerInstance) x,
  BPM.num_instances_ b = N -> BPM.instance_index_ b = i ->
  (n <> O -> BPM.next_page_id_ b = x /\ 0 <= x /\ x mod N = i /\
             x + (Z.of_nat n - 1) * N <= INT_MAX) ->
  exists b', BPM.allocate_many n b = Ok (progression N x n, b').
Proof.
  induction n as [|n IH]; intros b x HbN Hbi Hpre.
  - exists b. reflexivity.
  - destruct Hpre as (Hx & H0 & Hm & Hmax); [discriminate|].
    assert (x <= INT_MAX) by nia.
    cbn [BPM.allocate_many]. unfold bind at 1.
    rewrite (AllocatePage_in_range b x) by (auto; lia).
    destruct (IH (BPM.with_next_page_id (int32_wrap (x + N)) b) (x + N))
      as [b' Hb']; [exact HbN | exact Hbi | |].
    + intros Hn. cbn [BPM.next_page_id_ BPM.with_next_page_id].
      assert (x + N <= INT_MAX) by nia.
      rewrite int32_wrap_id by (unfold INT_MAX in *; lia).
      repeat split; try lia.
      rewrite <- Hm. rewrite <- (Z.mod_add x 1 N) by lia. f_equal. lia.
    + exists b'. unfold bind. rewrite Hb'. unfold ret.
      now rewrite progression_S.
Qed.

Lemma progression_mod x n :
  x mod N = i -> Forall (fun id => id mod N = i) (progression N x n).
Proof.
  intros Hm. unfold progression. apply Forall_fmap, Forall_forall.
  intros k _. cbn. rewrite Z.mod_add by lia. exact Hm.
Qed.

Lemma progression_lower x n : Forall (fun id => x <= id) (progression N x n).
Proof.
  unfold progression. apply Forall_fmap, Forall_forall.
  intros k _. cbn. nia.
Qed.

Lemma progression_increasing n : forall x,
  StronglySorted Z.lt (progression N x n).
Proof.
  induction n as [|n IH]; intros x.
  - constructor.
  - rewrite progression_S. constructor; [apply IH|].
    eapply Forall_impl; [apply (progression_lower (x + N) n)|].
    cbn. intros; lia.
Qed.

Lemma progression_NoDup x n : NoDup (progression N x n).
Proof.
  unfold progression. apply NoDup_fmap_2_strong; [|apply NoDup_seq].
  intros a c _ _ Heq. nia.
Qed.

End Allocation.

(** ** Clock replacer: walking the ring *)

Lemma with_current_same r : with_current (current_ r) r = r.
Proof. now destruct r. Qed.

Lemma with_replacer_same b : BPM.with_replacer (BPM.replacer_ b) b = b.
Proof. now destruct b. Qed.

(** Over pinned nodes the loop of [Victim] only moves the hand. *)
Lemma victim_loop_pinned l : forall r w q,
  chain (heap r) (current_ r) l q ->
  Forall (fun nd => pin_ nd = true) l ->
  exists w', victim_loop (length l) w r = Ok (w', with_current q r) /\
             target w' = target w /\ min_frame w' = min_frame w.
Proof.
  induction l as [|nd l IH]; intros r w q Hc Hp.
  - inversion Hc; subst. exists w. cbn. unfold ret.
    now rewrite with_current_same.
  - inversion Hc as [|a nd' l' q' Ha Hrest Hcur]; subst.
    inversion Hp as [|? ? Hpin Hp']; subst.
    cbn [length victim_loop]. unfold bind at 1, gets at 1.
    rewrite <- Hcur. unfold bind at 1, load at 1. rewrite Ha, Hpin.
    unfold bind at 1, modify at 1.
    edestruct (IH (with_current (next_ nd) r)) as (w' & Hw' & Ht & Hm);
      [exact Hrest | exact Hp' |].
    exists w'. rewrite Hw'. cbn in *. auto.
Qed.

(** On a ring whose entries are all pinned, [Victim] returns false and
    leaves the replacer as it was: the hand makes one full turn. *)
Lemma Victim_all_pinned r l :
  chain (heap r) (current_ r) l (current_ r) ->
  length l = Z.to_nat (clock_size_ r) ->
  Forall (fun nd => pin_ nd = true) l ->
  Victim r = Ok (None, r).
Proof.
  intros Hc Hlen Hp. unfold Victim. unfold bind at 1, gets at 1.
  destruct (head_ r); [|reflexivity].
  unfold bind at 1, gets at 1. unfold bind at 1.
  destruct (victim_loop_pinned l r walk0 _ Hc Hp) as (w' & Hw' & Ht & Hm).
  rewrite <- Hlen, Hw', Ht, Hm. cbn. unfold ret.
  now rewrite with_current_same.
Qed.

(** The search of [Pin] and [Unpin] finds a frame that is on the chain
    from [head_], within the first [n] nodes. *)
Lemma search_loop_found l : forall (r : ClockReplacer) n frame_id p q pre0,
  chain (heap r) p l q ->
  (length l <= n)%nat ->
  Exists (fun nd => frame_id_ nd = frame_id) l ->
  exists a nd pre1,
    search_loop n frame_id p pre0 r = Ok ((Some a, pre1), r) /\
    heap r !! a = Some nd /\ frame_id_ nd = frame_id.
Proof.
  induction l as [|nd l IH]; intros r n frame_id p q pre0 Hc Hn Hex.
  - inversion Hex.
  - inversion Hc as [|a nd' l' q' Ha Hrest]; subst.
    destruct n as [|n]; [cbn in Hn; lia|].
    cbn [search_loop]. unfold bind at 1, load at 1. rewrite Ha.
    destruct (frame_id_ nd =? frame_id) eqn:E.
    + exists a, nd, pre0. unfold ret. repeat split; auto. lia.
    + apply Exists_cons in Hex as [Hhd | Htl]; [lia|].
      eapply IH; eauto. cbn in Hn. lia.
Qed.

(** [Unpin] of a frame the ring knows never faults. *)
Lemma Unpin_known r l q frame_id :
  clock_size_ r <> 0 ->
  chain (heap r) (head_ r) l q ->
  (length l <= Z.to_nat (clock_size_ r))%nat ->
  Exists (fun nd => frame_id_ nd = frame_id) l ->
  exists r', Unpin frame_id r = Ok (tt, r').
Proof.
  intros Hcs Hc Hlen Hex. unfold Unpin. unfold bind at 1, gets at 1.
  destruct (clock_size_ r =? 0) eqn:E; [lia|].
  unfold bind at 1, gets at 1. unfold bind at 1.
  destruct (search_loop_found l r (Z.to_nat (clock_size_ r)) frame_id
              (head_ r) q None Hc Hlen Hex) as (a & nd & pre1 & Hs & Ha & _).
  rewrite Hs. unfold bind at 1, load at 1. rewrite Ha.
  destruct (pin_ nd).
  - unfold bind at 1, store, bind, load. rewrite Ha. unfold modify.
    eauto.
  - unfold ret. eauto.
Qed.

(** [Pin] of a frame the ring knows increments [pin_size_], whether or
    not the frame was pinned before. *)
Lemma Pin_known r l q frame_id :
  clock_size_ r <> 0 ->
  chain (heap r) (head_ r) l q ->
  (length l <= Z.to_nat (clock_size_ r))%nat ->
  Exists (fun nd => frame_id_ nd = frame_id) l ->
  exists r', Pin frame_id r = Ok (tt, r') /\
             pin_size_ r' = size_t_wrap (pin_size_ r + 1) /\
             clock_size_ r' = clock_size_ r.
Proof.
  intros Hcs Hc Hlen Hex. unfold Pin. unfold bind at 1, gets at 1.
  destruct (clock_size_ r =? 0) eqn:E; [lia|].
  unfold bind at 1, gets at 1. unfold bind at 1.
  destruct (search_loop_found l r (Z.to_nat (clock_size_ r)) frame_id
              (head_ r) q None Hc Hlen Hex) as (a & nd & pre1 & Hs & Ha & _).
  rewrite Hs. unfold store, bind, load, modify. rewrite Ha. cbn.
  rewrite lookup_insert_eq. eauto.
Qed.

(** ** Clock replacer: which frame Victim chooses *)

Lemma achain_chain h p al q : achain h p al q -> chain h p al.*2 q.
Proof. induction 1; cbn; econstructor; eauto. Qed.

Lemma achain_lookup h p al q a nd :
  achain h p al q -> (a, nd) ∈ al -> h !! a = Some nd.
Proof.
  induction 1 as [|a' nd' al q Ha Hc IH]; intros Hin.
  - inversion Hin.
  - apply elem_of_cons in Hin as [[= -> ->] | Hin]; auto.
Qed.

Lemma achain_insert_fresh h p al q a x :
  achain h p al q -> a ∉ al.*1 -> achain (<[a := x]> h) p al q.
Proof.
  induction 1 as [|a' nd' al q Ha Hc IH]; intros Hnot.
  - constructor.
  - cbn in Hnot. apply not_elem_of_cons in Hnot as [Hne Hnot].
    constructor; [|auto]. now rewrite lookup_insert_ne.
Qed.

Lemma keeps_frame_ids_insert F r a nd g :
  keeps_frame_ids F r -> heap r !! a = Some nd ->
  frame_id_ (g nd) = frame_id_ nd ->
  keeps_frame_ids F (with_heap (<[a := g nd]> (heap r)) r).
Proof.
  intros HF Ha Hg a'. cbn. destruct (decide (a = a')) as [<-|Hne].
  - rewrite lookup_insert_eq, <- HF, Ha. cbn. now rewrite Hg.
  - rewrite lookup_insert_ne by assumption. apply HF.
Qed.

(** On distinct nodes the loop of [Victim] computes [scan], and changes no
    frame ID. *)
Lemma victim_loop_scan F al : forall r w q,
  achain (heap r) (current_ r) al q ->
  NoDup al.*1 ->
  keeps_frame_ids F r ->
  exists r', victim_loop (length al) w r = Ok (scan al w, r') /\
             keeps_frame_ids F r' /\
             head_ r' = head_ r /\ tail_ r' = tail_ r /\
             clock_size_ r' = clock_size_ r.
Proof.
  induction al as [|[a nd] al IH]; intros r w q Hc Hnd HF.
  - exists r. split; [reflexivity | auto].
  - inversion Hc as [|a' nd' al' q' Ha Hrest Hcur]; subst.
    apply NoDup_cons in Hnd as [Hfresh Hnd].
    cbn [length victim_loop scan]. unfold bind at 1, gets at 1.
    rewrite <- Hcur. unfold bind at 1, load at 1. rewrite Ha.
    destruct (pin_ nd).
    { unfold bind at 1, modify at 1.
      match goal with |- exists _, victim_loop _ ?w1 ?r1 = _ /\ _ =>
        destruct (IH r1 w1 q) as (r' & Hl & HF' & Hh' & Ht' & Hcs');
          [assumption..|]
      end.
      exists r'. split; [exact Hl | auto]. }
    destruct (refer_ nd); cbn [negb].
    2:{ exists r. split; [reflexivity | auto]. }
    unfold bind at 1, store at 1, bind at 1, load at 1. rewrite Ha.
    unfold modify at 1. unfold bind at 1, modify at 1.
    match goal with |- exists _, victim_loop _ ?w1 ?r1 = _ /\ _ =>
      destruct (IH r1 w1 q) as (r' & Hl & HF' & Hh' & Ht' & Hcs')
    end.
    + cbn. now apply achain_insert_fresh.
    + assumption.
    + now apply keeps_frame_ids_insert.
    + exists r'. split; [exact Hl | auto].
Qed.

Lemma keeps_live F r a :
  keeps_frame_ids F r -> is_Some (F a) -> is_Some (heap r !! a).
Proof.
  intros HF [x Hx]. rewrite <- HF in Hx.
  destruct (heap r !! a); [eauto | discriminate].
Qed.

Lemma scan_walk_in A al : forall w,
  al.*1 ⊆ A -> walk_in A w -> walk_in A (scan al w).
Proof.
  induction al as [|[a nd] al IH]; intros w Hsub Hw; [exact Hw|].
  assert (Ha : a ∈ A) by (apply Hsub; cbn; left).
  assert (Hsub' : al.*1 ⊆ A) by (intros x Hx; apply Hsub; cbn; now right).
  destruct Hw as (H1 & H2 & H3 & H4).
  cbn [scan]. destruct (pin_ nd).
  { apply IH; [exact Hsub' | repeat split; cbn; auto]. }
  destruct (negb (refer_ nd)).
  { repeat split; cbn; auto. }
  apply IH; [exact Hsub'|].
  destruct (frame_id_ nd <? min_frame_id w); repeat split; cbn; auto.
Qed.

(** What [scan] finds.  Either the hand meets a first unpinned node with
    [refer_ == false], which becomes [target]; or there is none, [target]
    is left alone and [min_frame] tracks the least frame ID of the unpinned
    nodes below the initial [min_frame_id]. *)
Lemma scan_spec al : forall w,
  (exists l1 a nd l2,
      al = l1 ++ (a, nd) :: l2 /\ candidate nd /\
      Forall (fun nd' => ~ candidate nd') l1.*2 /\
      target (scan al w) = Some a)
  \/
  (Forall (fun nd' => ~ candidate nd') al.*2 /\
   target (scan al w) = target w /\
   (forall a nd, (a, nd) ∈ al -> pin_ nd = false ->
                 min_frame_id (scan al w) <= frame_id_ nd) /\
   ((min_frame (scan al w) = min_frame w /\
     min_frame_id (scan al w) = min_frame_id w) \/
    (exists a nd, min_frame (scan al w) = Some a /\ (a, nd) ∈ al /\
                  pin_ nd = false /\
                  frame_id_ nd = min_frame_id (scan al w) /\
                  min_frame_id (scan al w) < min_frame_id w))).
Proof.
  induction al as [|[a nd] al IH]; intros w.
  { right. cbn. repeat split; auto.
    intros a nd Hin. inversion Hin. }
  cbn [scan]. destruct (pin_ nd) eqn:Epin.
  { (* pinned: skipped *)
    destruct (IH (mkWalk (target w) (Some a) (min_pre w) (min_frame w)
                         (min_frame_id w)))
      as [(l1 & a' & nd' & l2 & -> & Hcand & Hl1 & Ht)
         | (Hnone & Ht & Hle & Hmin)].
    - left. exists ((a, nd) :: l1), a', nd', l2.
      repeat split; auto; try apply Hcand.
      cbn. constructor; [|exact Hl1]. unfold candidate. intros [? _]. congruence.
    - right. cbn in *. repeat split; auto.
      + constructor; [|exact Hnone]. unfold candidate. intros [? _]. congruence.
      + intros a' nd' Hin Hunp.
        apply elem_of_cons in Hin as [[= -> ->] | Hin]; [congruence|eauto].
      + destruct Hmin as [Hsame | (a' & nd' & H1 & H2 & H3 & H4 & H5)];
          [left; exact Hsame | right].
        exists a', nd'. repeat split; auto. now apply elem_of_cons; right. }
  destruct (refer_ nd) eqn:Eref; cbn [negb].
  2:{ (* the first candidate *)
    left. exists [], a, nd, al. repeat split; auto. }
  (* unpinned, referenced: the refer bit is cleared, the minimum updated *)
  set (w' := if frame_id_ nd <? min_frame_id w then _ else w).
  assert (Hw' : target w' = target w /\
                min_frame_id w' = Z.min (frame_id_ nd) (min_frame_id w) /\
                ((min_frame w' = min_frame w /\
                  min_frame_id w <= frame_id_ nd) \/
                 (min_frame w' = Some a /\
                  frame_id_ nd < min_frame_id w))).
  { subst w'. destruct (frame_id_ nd <? min_frame_id w) eqn:E; cbn.
    - repeat split; [lia | right; split; [reflexivity | lia]].
    - repeat split; [lia | left; split; [reflexivity | lia]]. }
  destruct Hw' as (Htw & Hidw & Hfw).
  destruct (IH (mkWalk (target w') (Some a) (min_pre w') (min_frame w')
                       (min_frame_id w')))
    as [(l1 & a' & nd' & l2 & -> & Hcand & Hl1 & Ht)
       | (Hnone & Ht & Hle & Hmin)].
  - left. exists ((a, nd) :: l1), a', nd', l2.
    repeat split; auto; try apply Hcand.
    cbn. constructor; [|exact Hl1]. unfold candidate. intros [_ ?]. congruence.
  - right. cbn in *. repeat split.
    + constructor; [|exact Hnone]. unfold candidate. intros [_ ?]. congruence.
    + congruence.
    + intros a' nd' Hin Hunp.
      apply elem_of_cons in Hin as [[= -> ->] | Hin]; [|eauto].
      destruct Hmin as [[_ Hsame] | (_ & _ & _ & _ & _ & _ & Hlt)]; lia.
    + destruct Hmin as [[Hf Hid] | (a' & nd' & H1 & H2 & H3 & H4 & H5)].
      * destruct Hfw as [[Hf' Hge] | [Hf' Hlt]].
        -- left. split; [congruence | lia].
        -- right. exists a, nd. repeat split; try lia; try congruence.
           apply elem_of_cons; now left.
      * right. exists a', nd'. repeat split; auto; try lia.
        now apply elem_of_cons; right.
Qed.

(** No store of [Victim] changes a frame ID. *)
Section KeepsFrameIds.

Variable F : nat -> option Z.

Lemma keeps_load p : preserves (keeps_frame_ids F) (load p).
Proof.
  intros r nd r' HF. unfold load.
  destruct p as [a|]; [|discriminate].
  destruct (heap r !! a); [|discriminate]. now intros [= _ <-].
Qed.

Lemma keeps_store p g :
  (forall nd, frame_id_ (g nd) = frame_id_ nd) ->
  preserves (keeps_frame_ids F) (store p g).
Proof.
  intros Hg r u r' HF. unfold store, bind, load.
  destruct p as [a|]; [|discriminate].
  destruct (heap r !! a) as [nd|] eqn:Ha; [|discriminate].
  unfold modify. intros Heq. injection Heq as _ <-.
  now apply keeps_frame_ids_insert.
Qed.

Lemma keeps_modify upd :
  (forall r, heap (upd r) = heap r) ->
  preserves (keeps_frame_ids F) (modify upd).
Proof.
  intros Hu. apply preserves_modify. intros r HF a. rewrite Hu. apply HF.
Qed.

Ltac keeps :=
  repeat first
    [ apply preserves_ret | apply preserves_gets | apply preserves_fail
    | apply keeps_load
    | apply keeps_store; reflexivity
    | apply keeps_modify; reflexivity
    | apply preserves_bind; [|intros ?]
    | match goal with
      | |- preserves _ (if ?c then _ else _) => destruct c
      | |- preserves _ (match ?x with _ => _ end) => destruct x
      end ].

(** [victim_unlink] returns the frame ID stored in the node it is given. *)
Lemma victim_unlink_frame_id r a pre0 fid r' :
  keeps_frame_ids F r ->
  victim_unlink (Some a) pre0 r = Ok (fid, r') ->
  F a = Some fid.
Proof.
  intros HF H. unfold victim_unlink in H.
  apply bind_Ok in H as (cs & s1 & H1 & H).
  assert (HF1 : keeps_frame_ids F s1)
    by (eapply (preserves_gets (keeps_frame_ids F)); eauto).
  apply bind_Ok in H as (u2 & s2 & H2 & H).
  assert (HF2 : keeps_frame_ids F s2).
  { revert H2. match goal with |- ?m s1 = _ -> _ =>
      assert (Hm : preserves (keeps_frame_ids F) m) by keeps end.
    intros H2. eapply Hm; eauto. }
  apply bind_Ok in H as (cur & s3 & H3 & H).
  assert (HF3 : keeps_frame_ids F s3)
    by (eapply (preserves_gets (keeps_frame_ids F)); eauto).
  apply bind_Ok in H as (u4 & s4 & H4 & H).
  assert (HF4 : keeps_frame_ids F s4).
  { revert H4. match goal with |- ?m s3 = _ -> _ =>
      assert (Hm : preserves (keeps_frame_ids F) m) by keeps end.
    intros H4. eapply Hm; eauto. }
  apply bind_Ok in H as (t & s5 & H5 & H).
  unfold load in H5. destruct (heap s4 !! a) as [nd|] eqn:Ha; [|discriminate].
  injection H5 as -> <-.
  apply bind_Ok in H as (u6 & s6 & _ & H).
  apply bind_Ok in H as (u7 & s7 & _ & H).
  apply bind_Ok in H as (u8 & s8 & _ & H).
  injection H as <- _.
  now rewrite <- HF4, Ha.
Qed.

Ltac look H :=
  repeat (cbn; first [ rewrite H | rewrite lookup_insert_eq
                     | rewrite lookup_insert; case_decide; subst ]).

(** [victim_unlink] returns when the node it is given, the node [pre]
    points to, and the nodes [head_] and [tail_] point to are live. *)
Lemma victim_unlink_returns r a pre0 :
  keeps_frame_ids F r -> is_Some (F a) ->
  (forall p, pre0 = Some p -> is_Some (F p)) ->
  (exists h, head_ r = Some h /\ is_Some (F h)) ->
  (clock_size_ r <> 1 -> exists t, tail_ r = Some t /\ is_Some (F t)) ->
  exists fid r', victim_unlink (Some a) pre0 r = Ok (fid, r').
Proof.
  intros HF Ha Hpre (h & Hh & Hhl) Htail.
  destruct (keeps_live F r a HF Ha) as [na Hna].
  destruct (keeps_live F r h HF Hhl) as [nh Hnh].
  unfold victim_unlink.
  repeat (unfold bind, gets, modify, ret, load, store, free, ptr_eqb); cbn.
  destruct (clock_size_ r =? 1) eqn:E1; cbn.
  - rewrite bool_decide_eq_false_2 by discriminate.
    look Hna. eauto.
  - destruct Htail as (t & Ht & Htl); [lia|].
    destruct (keeps_live F r t HF Htl) as [nt Hnt].
    rewrite Hh.
    case_bool_decide as Eah; cbn.
    + injection Eah as ->. rewrite Hna. cbn. rewrite Ht, Hnt. cbn.
      case_bool_decide; look Hna; eauto.
    + destruct pre0 as [p|]; cbn.
      * destruct (keeps_live F r p HF (Hpre p eq_refl)) as [np Hnp].
        rewrite Hna. cbn. rewrite Hnp. cbn.
        case_bool_decide; look Hna; eauto.
      * rewrite Hna. cbn. rewrite Hh, Hnh. cbn.
        case_bool_decide; look Hna; eauto.
Qed.

End KeepsFrameIds.

(** On an intact stretch of ring (one turn from the hand over distinct
    nodes), whenever [Victim] returns, its result is the frame the clock
    policy prescribes.  Frame IDs are below [INT_MAX], the initial value of
    [min_frame_id]. *)
Lemma Victim_choice r al q v r' :
  head_ r <> None ->
  achain (heap r) (current_ r) al q ->
  NoDup al.*1 ->
  length al = Z.to_nat (clock_size_ r) ->
  Forall (fun nd => frame_id_ nd < INT_MAX) al.*2 ->
  Victim r = Ok (v, r') ->
  clock_choice al.*2 v.
Proof.
  intros Hhead Hc Hnd Hlen Hmax H.
  unfold Victim in H. apply bind_Ok in H as (h & s0 & H0 & H).
  injection H0 as <- <-.
  destruct (head_ r) as [h|] eqn:Eh; [clear Hhead | congruence].
  apply bind_Ok in H as (cs & s1 & H1 & H). injection H1 as <- <-.
  apply bind_Ok in H as (w & s2 & Hloop & H).
  set (F := fun a => frame_id_ <$> heap r !! a).
  destruct (victim_loop_scan F al r walk0 q Hc Hnd) as (r2 & Hscan & HF2 & _);
    [intros a; reflexivity|].
  rewrite <- Hlen, Hscan in Hloop. injection Hloop as <- <-.
  destruct (scan_spec al walk0)
    as [(l1 & a & nd & l2 & Hal & Hcand & Hl1 & Ht)
       | (Hnone & Ht & Hle & Hmin)].
  - (* a first candidate is met *)
    rewrite Ht in H. cbn in H.
    apply bind_Ok in H as (fid & s3 & Hunlink & H). injection H as <- _.
    apply (victim_unlink_frame_id F) in Hunlink; [|exact HF2].
    left. exists l1.*2, nd, l2.*2. repeat split; auto; try apply Hcand.
    + rewrite Hal, fmap_app. reflexivity.
    + assert (Ha : heap r !! a = Some nd).
      { eapply achain_lookup; [exact Hc|]. rewrite Hal.
        apply elem_of_app. right. now left. }
      unfold F in Hunlink. rewrite Ha in Hunlink. cbn in Hunlink. congruence.
  - (* no candidate: the minimum decides *)
    rewrite Ht in H. cbn [target walk0] in H.
    destruct Hmin as [[Hf Hid] | (a & nd & Hf & Hin & Hunp & Hfid & Hlt)].
    + (* no unpinned node was seen *)
      rewrite Hf in H. cbn in H. injection H as <- _.
      cbn. apply Forall_forall. intros nd Hin.
      apply list_elem_of_fmap in Hin as ([a nd'] & -> & Hin). cbn.
      destruct (pin_ nd') eqn:E; [reflexivity|].
      specialize (Hle a nd' Hin E). rewrite Hid in Hle. cbn in Hle.
      rewrite Forall_forall in Hmax.
      assert (frame_id_ nd' < INT_MAX).
      { apply Hmax. apply list_elem_of_fmap. exists (a, nd'). auto. }
      lia.
    + rewrite Hf in H. cbn in H.
      apply bind_Ok in H as (fid & s3 & Hunlink & H). injection H as <- _.
      apply (victim_unlink_frame_id F) in Hunlink; [|exact HF2].
      assert (Ha : heap r !! a = Some nd) by (eapply achain_lookup; eauto).
      unfold F in Hunlink. rewrite Ha in Hunlink. cbn in Hunlink.
      injection Hunlink as <-.
      right. repeat split; auto.
      * exists nd. repeat split; auto.
        apply list_elem_of_fmap. exists (a, nd). auto.
      * intros nd' Hin' Hunp'.
        apply list_elem_of_fmap in Hin' as ([a' nd''] & -> & Hin'). cbn in *.
        rewrite Hfid. eauto.
Qed.

(** On such a stretch of ring [Victim] does return, provided [head_]
    and, when the ring has more than one node, [tail_] point to live nodes
    (whether or not [tail_] is the last node of the ring). *)
Lemma Victim_returns r al q :
  (exists h, head_ r = Some h /\ is_Some (heap r !! h)) ->
  (clock_size_ r <> 1 -> exists t, tail_ r = Some t /\ is_Some (heap r !! t)) ->
  achain (heap r) (current_ r) al q ->
  NoDup al.*1 ->
  length al = Z.to_nat (clock_size_ r) ->
  exists v r', Victim r = Ok (v, r').
Proof.
  intros (h & Hh & Hhl) Htail Hc Hnd Hlen.
  set (F := fun a => frame_id_ <$> heap r !! a).
  assert (Hlive : forall a, is_Some (heap r !! a) -> is_Some (F a)).
  { intros a [nd Hnd']. unfold F. rewrite Hnd'. eauto. }
  destruct (victim_loop_scan F al r walk0 q Hc Hnd)
    as (r2 & Hscan & HF2 & Hh2 & Ht2 & Hcs2); [intros a; reflexivity|].
  assert (Hw : walk_in al.*1 (scan al walk0)).
  { apply scan_walk_in; [reflexivity | repeat split; exact I]. }
  assert (Hin : forall p a, ptr_in al.*1 p -> p = Some a -> is_Some (F a)).
  { intros p a Hp ->. cbn in Hp.
    apply list_elem_of_fmap in Hp as ([a' nd] & -> & Hin).
    apply Hlive. exists nd. eapply achain_lookup; eauto. }
  destruct Hw as (Hwt & Hwp & Hwmp & Hwmf).
  unfold Victim. unfold bind at 1, gets at 1. rewrite Hh.
  unfold bind at 1, gets at 1. unfold bind at 1.
  rewrite <- Hlen, Hscan.
  assert (Hunlink : forall a pre0,
            ptr_in al.*1 (Some a) -> ptr_in al.*1 pre0 ->
            exists fid r', victim_unlink (Some a) pre0 r2 = Ok (fid, r')).
  { intros a pre0 Ha Hp. apply (victim_unlink_returns F); auto.
    - exact (Hin (Some a) a Ha eq_refl).
    - intros p ->. exact (Hin (Some p) p Hp eq_refl).
    - exists h. rewrite Hh2. auto.
    - rewrite Hcs2, Ht2. intros Hne.
      destruct (Htail Hne) as (t & Ht & Htl). eauto. }
  destruct (target (scan al walk0)) as [a|] eqn:Et.
  - destruct (Hunlink a (pre (scan al walk0))) as (fid & r' & Hu); auto.
    unfold bind. rewrite Hu. eauto.
  - destruct (min_frame (scan al walk0)) as [a|] eqn:Em.
    + destruct (Hunlink a (min_pre (scan al walk0))) as (fid & r' & Hu); auto.
      unfold bind. rewrite Hu. eauto.
    + unfold ret. eauto.
Qed.

(** ** Clock replacer: the frame IDs in the heap *)

Section NodesInRange.

Variable n : Z.

Lemma nodes_load p : preserves (nodes_in_range n) (load p).
Proof.
  intros r nd r' HI. unfold load. destruct p as [a|]; [|discriminate].
  destruct (heap r !! a); [|discriminate]. now intros [= _ <-].
Qed.

Lemma nodes_store p g :
  (forall nd, frame_id_ (g nd) = frame_id_ nd) ->
  preserves (nodes_in_range n) (store p g).
Proof.
  intros Hg r u r' HI. unfold store, bind, load.
  destruct p as [a|]; [|discriminate].
  destruct (heap r !! a) as [nd|] eqn:Ha; [|discriminate].
  unfold modify. intros Heq. injection Heq as _ <-.
  intros a' nd'. cbn. rewrite lookup_insert. case_decide as E.
  - intros [= <-]. rewrite Hg. eauto.
  - apply HI.
Qed.

Lemma nodes_free p : preserves (nodes_in_range n) (free p).
Proof.
  intros r u r' HI. unfold free, bind, load.
  destruct p as [a|]; [|discriminate].
  destruct (heap r !! a) as [nd|] eqn:Ha; [|discriminate].
  unfold modify. intros Heq. injection Heq as _ <-.
  intros a' nd'. cbn. rewrite lookup_delete. case_decide; [discriminate|].
  apply HI.
Qed.

Lemma nodes_modify upd :
  (forall r, heap (upd r) = heap r) ->
  preserves (nodes_in_range n) (modify upd).
Proof.
  intros Hu. apply preserves_modify. intros r HI a nd. rewrite Hu. apply HI.
Qed.

Lemma nodes_Create_node frame_id pin next :
  0 <= frame_id < n ->
  preserves (nodes_in_range n) (Create_node frame_id pin next).
Proof.
  intros Hf r p r' HI. unfold Create_node, bind, gets, modify, ret. cbn.
  intros [= _ <-]. intros a nd. cbn. rewrite lookup_insert. case_decide.
  - now intros [= <-].
  - apply HI.
Qed.

Ltac nodes :=
  repeat first
    [ apply preserves_ret | apply preserves_gets | apply preserves_fail
    | apply nodes_load | apply nodes_free
    | apply nodes_store; reflexivity
    | apply nodes_modify; reflexivity
    | apply nodes_Create_node; assumption
    | apply preserves_bind; [|intros ?]
    | match goal with
      | |- preserves _ (if ?c then _ else _) => destruct c
      | |- preserves _ (match ?x with _ => _ end) => destruct x
      end ].

Lemma nodes_search_loop k : forall frame_id node pre0,
  preserves (nodes_in_range n) (search_loop k frame_id node pre0).
Proof.
  induction k as [|k IH]; intros frame_id node pre0; cbn [search_loop].
  - apply preserves_ret.
  - destruct node; [|apply preserves_ret].
    apply preserves_bind; [apply nodes_load|]. intros nd.
    destruct (frame_id_ nd =? frame_id); [apply preserves_ret | apply IH].
Qed.

Lemma nodes_victim_loop k : forall w,
  preserves (nodes_in_range n) (victim_loop k w).
Proof.
  induction k as [|k IH]; intros w; cbn [victim_loop].
  - apply preserves_ret.
  - apply preserves_bind; [apply preserves_gets|]. intros cur.
    destruct cur; [|apply preserves_ret].
    apply preserves_bind; [apply nodes_load|]. intros nd.
    destruct (pin_ nd); [nodes; apply IH|].
    destruct (negb (refer_ nd)); [apply preserves_ret|].
    nodes; apply IH.
Qed.

Lemma nodes_Pin frame_id : preserves (nodes_in_range n) (Pin frame_id).
Proof. unfold Pin. pose proof nodes_search_loop. nodes; auto. Qed.

Lemma nodes_Unpin frame_id :
  0 <= frame_id < n -> preserves (nodes_in_range n) (Unpin frame_id).
Proof. intros Hf. unfold Unpin. pose proof nodes_search_loop. nodes; auto. Qed.

Lemma nodes_victim_unlink tgt pre0 :
  preserves (nodes_in_range n) (victim_unlink tgt pre0).
Proof. unfold victim_unlink. nodes. Qed.

Lemma nodes_Victim : preserves (nodes_in_range n) Victim.
Proof.
  unfold Victim. pose proof nodes_victim_loop. pose proof nodes_victim_unlink.
  nodes; auto.
Qed.

End NodesInRange.

Lemma keeps_victim_loop F k : forall w,
  preserves (keeps_frame_ids F) (victim_loop k w).
Proof.
  induction k as [|k IH]; intros w; cbn [victim_loop].
  - apply preserves_ret.
  - apply preserves_bind; [apply preserves_gets|]. intros cur.
    destruct cur; [|apply preserves_ret].
    apply preserves_bind; [apply keeps_load|]. intros nd.
    destruct (pin_ nd).
    { apply preserves_bind; [now apply keeps_modify | intros _; apply IH]. }
    destruct (negb (refer_ nd)); [apply preserves_ret|].
    apply preserves_bind; [now apply keeps_store|]. intros _.
    apply preserves_bind; [now apply keeps_modify | intros _; apply IH].
Qed.

(** The frame [Victim] returns is the frame of a node of the heap. *)
Lemma Victim_frame_known r fid r' :
  Victim r = Ok (Some fid, r') ->
  exists a nd, heap r !! a = Some nd /\ frame_id_ nd = fid.
Proof.
  intros H. unfold Victim in H.
  apply bind_Ok in H as (h & s0 & H0 & H). injection H0 as <- <-.
  destruct (head_ r); [|discriminate].
  apply bind_Ok in H as (cs & s1 & H1 & H). injection H1 as <- <-.
  apply bind_Ok in H as (w & s2 & Hloop & H).
  set (F := fun a => frame_id_ <$> heap r !! a).
  assert (HF2 : keeps_frame_ids F s2).
  { eapply (keeps_victim_loop F); [|exact Hloop]. intros a. reflexivity. }
  assert (Hgo : forall a pre0 x,
            bind (victim_unlink (Some a) pre0) (fun fid => ret (Some fid)) s2
              = Ok (Some x, r') ->
            exists a nd, heap r !! a = Some nd /\ frame_id_ nd = x).
  { intros a pre0 x Hb. apply bind_Ok in Hb as (y & s3 & Hu & Hb).
    injection Hb as <- _.
    apply (victim_unlink_frame_id F) in Hu; [|exact HF2].
    unfold F in Hu. destruct (heap r !! a) as [nd|] eqn:Ha; [|discriminate].
    injection Hu as <-. eauto. }
  destruct (target w) as [a|]; [eapply Hgo; exact H|].
  destruct (min_frame w) as [a|]; [eapply Hgo; exact H|].
  discriminate.
Qed.

(** ** Buffer pool manager: single operations *)

Ltac run_monad :=
  unfold bind, gets, modify, ret, fail, on_replacer; cbn.

Lemma page_at_lookup (b : BufferPoolManagerInstance) frame_id page :
  0 <= frame_id -> pages_ b !! Z.to_nat frame_id = Some page ->
  page_at frame_id b = Ok (page, b).
Proof.
  intros H0 Hp. unfold page_at.
  destruct (frame_id <? 0) eqn:E; [lia|]. now rewrite Hp.
Qed.

Lemma update_page_lookup (b : BufferPoolManagerInstance) frame_id page f :
  0 <= frame_id -> pages_ b !! Z.to_nat frame_id = Some page ->
  update_page frame_id f b =
    Ok (tt, with_pages (<[Z.to_nat frame_id := f page]> (pages_ b)) b).
Proof.
  intros H0 Hp. unfold update_page, bind.
  now rewrite (page_at_lookup b frame_id page).
Qed.

Lemma lookup_updated (ps : list Page) n (p q : Page) :
  ps !! n = Some p -> <[n := q]> ps !! n = Some q.
Proof.
  intros Hp. apply list_lookup_insert_eq. now apply lookup_lt_Some in Hp.
Qed.

(** What [UnpinPgImp] does on a resident page: the dirty bit is overwritten
    with the argument; a frame whose pin count is not positive is left at
    that and the call returns false; otherwise the replacer's [Unpin] runs,
    the pin count becomes 0 and the call returns true.  A fault of [Unpin]
    is a fault of the call. *)
Lemma UnpinPgImp_on_resident (b : BufferPoolManagerInstance)
    page_id is_dirty frame_id page :
  page_table_ b !! page_id = Some frame_id ->
  0 <= frame_id ->
  pages_ b !! Z.to_nat frame_id = Some page ->
  UnpinPgImp page_id is_dirty b =
    if 0 <? pin_count_ page then
      match Clock.Unpin frame_id (replacer_ b) with
      | Ok (_, r) =>
        Ok (true,
            with_pages (<[Z.to_nat frame_id :=
                            mkPage (data_ page) (page_id_ page) 0 is_dirty]>
                          (pages_ b))
                       (with_replacer r b))
      | Fault f => Fault f
      end
    else
      Ok (false,
          with_pages (<[Z.to_nat frame_id :=
                          mkPage (data_ page) (page_id_ page)
                                 (pin_count_ page) is_dirty]> (pages_ b)) b).
Proof.
  intros Ht H0 Hp.
  unfold UnpinPgImp. unfold bind at 1, gets at 1. rewrite Ht.
  unfold bind at 1.
  rewrite (update_page_lookup b frame_id page) by assumption.
  set (b1 := with_pages _ b).
  assert (Hp1 : pages_ b1 !! Z.to_nat frame_id = Some (set_is_dirty is_dirty page))
    by (subst b1; cbn; eapply lookup_updated; eassumption).
  unfold bind at 1. rewrite (page_at_lookup b1 _ _ H0 Hp1).
  cbn [pin_count_ set_is_dirty].
  destruct (0 <? pin_count_ page); [|reflexivity].
  unfold bind at 1, on_replacer at 1.
  replace (replacer_ b1) with (replacer_ b) by reflexivity.
  destruct (Clock.Unpin frame_id (replacer_ b)) as [[[] r]|f]; [|reflexivity].
  unfold bind at 1.
  rewrite (update_page_lookup _ frame_id (set_is_dirty is_dirty page))
    by (assumption || exact Hp1).
  unfold ret. subst b1. cbn.
  now rewrite list_insert_insert_eq.
Qed.

(** What [FlushPgImp] does: nothing for [INVALID_PAGE_ID] and for a page
    that is not resident; a resident page is written only if it is dirty,
    and its dirty flag is clear afterwards. *)
Lemma FlushPgImp_not_resident (b : BufferPoolManagerInstance) page_id :
  page_id = INVALID_PAGE_ID \/ page_table_ b !! page_id = None ->
  FlushPgImp page_id b = Ok (false, b).
Proof.
  intros [-> | Hnone]; [reflexivity|].
  unfold FlushPgImp. destruct (page_id =? INVALID_PAGE_ID); [reflexivity|].
  run_monad. now rewrite Hnone.
Qed.

Lemma FlushPgImp_on_resident (b : BufferPoolManagerInstance)
    page_id frame_id page :
  page_id <> INVALID_PAGE_ID ->
  page_table_ b !! page_id = Some frame_id ->
  0 <= frame_id ->
  pages_ b !! Z.to_nat frame_id = Some page ->
  FlushPgImp page_id b =
    Ok (false,
        if is_dirty_ page then
          with_pages (<[Z.to_nat frame_id := set_is_dirty false page]> (pages_ b))
            (with_disk_manager
               (disk_write page_id (data_ page) (disk_manager_ b)) b)
        else b).
Proof.
  intros Hid Ht H0 Hp.
  unfold FlushPgImp. destruct (page_id =? INVALID_PAGE_ID) eqn:E; [lia|].
  unfold bind at 1, gets at 1. rewrite Ht.
  unfold bind at 1. unfold bind at 1.
  rewrite (page_at_lookup b frame_id page) by assumption.
  destruct (is_dirty_ page); [|reflexivity].
  unfold bind at 1, WritePage, modify.
  rewrite (update_page_lookup _ frame_id page) by assumption.
  reflexivity.
Qed.

(** [FetchPgImp] on a resident page only calls the replacer's [Pin]. *)
Lemma FetchPgImp_on_resident (b : BufferPoolManagerInstance) page_id frame_id :
  page_table_ b !! page_id = Some frame_id ->
  FetchPgImp page_id b =
    match Clock.Pin frame_id (replacer_ b) with
    | Ok (_, r) => Ok (Some frame_id, with_replacer r b)
    | Fault f => Fault f
    end.
Proof.
  intros Ht. unfold FetchPgImp. unfold bind at 1, gets at 1. rewrite Ht.
  unfold bind, on_replacer, ret.
  now destruct (Clock.Pin frame_id (replacer_ b)) as [[[] r]|f].
Qed.

(** [DeletePgImp] returns true on every resident page, whatever its pin
    count, and changes nothing; on a valid page ID that is not resident it
    dereferences the end iterator. *)
Lemma DeletePgImp_on_resident (b : BufferPoolManagerInstance) page_id frame_id :
  page_table_ b !! page_id = Some frame_id ->
  DeletePgImp page_id b = Ok (true, b).
Proof.
  intros Ht. unfold DeletePgImp.
  destruct (page_id =? INVALID_PAGE_ID); [reflexivity|].
  run_monad. now rewrite Ht.
Qed.

Lemma DeletePgImp_not_resident (b : BufferPoolManagerInstance) page_id :
  page_id <> INVALID_PAGE_ID ->
  page_table_ b !! page_id = None ->
  DeletePgImp page_id b = Fault UndefinedBehaviour.
Proof.
  intros Hid Ht. unfold DeletePgImp.
  destruct (page_id =? INVALID_PAGE_ID) eqn:E; [lia|].
  run_monad. now rewrite Ht.
Qed.

Lemma DeletePgImp_frame (b b' : BufferPoolManagerInstance) page_id v :
  DeletePgImp page_id b = Ok (v, b') -> b' = b.
Proof.
  unfold DeletePgImp.
  destruct (page_id =? INVALID_PAGE_ID); [unfold ret; congruence|].
  run_monad. destruct (page_table_ b !! page_id); congruence.
Qed.

(** ** Buffer pool manager: what every call keeps *)

Section FrameInvariant.

(** A property [P] of single frames that the setters used by the code
    respect holds of every frame after every call. *)
Variable P : Page -> Prop.
Hypothesis P_data : forall d p, P p -> P (set_data d p).
Hypothesis P_page_id : forall i p, P p -> P (set_page_id i p).
Hypothesis P_dirty : forall d p, P p -> P (set_is_dirty d p).
Hypothesis P_pin0 : forall p, P p -> P (set_pin_count 0 p).
Hypothesis P_pin1 : forall p, P p -> P (set_pin_count 1 p).

Lemma all_frames_page_at f : preserves (all_frames P) (page_at f).
Proof.
  intros b p b' Hb. unfold page_at.
  destruct (f <? 0); [discriminate|].
  destruct (pages_ b !! Z.to_nat f); [|discriminate].
  now intros [= _ <-].
Qed.

Lemma all_frames_update_page f g :
  (forall p, P p -> P (g p)) -> preserves (all_frames P) (update_page f g).
Proof.
  intros Hg b u b' Hb. unfold update_page, bind, page_at.
  destruct (f <? 0); [discriminate|].
  destruct (pages_ b !! Z.to_nat f) as [p|] eqn:E; [|discriminate].
  intros Heq. injection Heq as _ <-. unfold all_frames. cbn.
  apply Forall_insert; [exact Hb|].
  apply Hg. eapply Forall_lookup_1; eauto.
Qed.

Lemma all_frames_on_replacer {A} (m : M ClockReplacer A) :
  preserves (all_frames P) (on_replacer m).
Proof.
  intros b a b' Hb. unfold on_replacer.
  destruct (m (replacer_ b)) as [[a' r]|f]; [|discriminate].
  now intros [= _ <-].
Qed.

Create HintDb frames.
Hint Resolve all_frames_page_at all_frames_on_replacer : frames.
Hint Resolve P_data P_page_id P_dirty P_pin0 P_pin1 : frames.

Ltac frames :=
  repeat first
    [ apply preserves_ret | apply preserves_gets | apply preserves_fail
    | apply all_frames_page_at | apply all_frames_on_replacer
    | apply all_frames_update_page; solve [auto with frames]
    | apply preserves_modify; intros ? Hkept; exact Hkept
    | apply preserves_bind; [|intros ?]
    | match goal with
      | |- preserves _ (match ?x with _ => _ end) => destruct x
      end ].

Lemma all_frames_WritePage i d : preserves (all_frames P) (WritePage i d).
Proof. unfold WritePage. frames. Qed.

Lemma all_frames_ReadPage i f : preserves (all_frames P) (ReadPage i f).
Proof. unfold ReadPage. frames. Qed.

Lemma all_frames_AllocatePage : preserves (all_frames P) AllocatePage.
Proof. unfold AllocatePage, ValidatePageId. frames. Qed.

Lemma all_frames_NewPgImp : preserves (all_frames P) NewPgImp.
Proof.
  unfold NewPgImp.
  pose proof all_frames_WritePage. pose proof all_frames_ReadPage.
  pose proof all_frames_AllocatePage.
  frames; auto.
Qed.

Lemma all_frames_FetchPgImp i : preserves (all_frames P) (FetchPgImp i).
Proof.
  unfold FetchPgImp.
  pose proof all_frames_WritePage. pose proof all_frames_ReadPage.
  frames; auto.
Qed.

Lemma all_frames_UnpinPgImp i d : preserves (all_frames P) (UnpinPgImp i d).
Proof. unfold UnpinPgImp. frames. Qed.

Lemma all_frames_FlushPgImp i : preserves (all_frames P) (FlushPgImp i).
Proof.
  unfold FlushPgImp. pose proof all_frames_WritePage. frames; auto.
Qed.

Lemma all_frames_DeletePgImp i : preserves (all_frames P) (DeletePgImp i).
Proof. unfold DeletePgImp. frames. Qed.

Lemma all_frames_run_calls cs : preserves (all_frames P) (run_calls cs).
Proof.
  induction cs as [|c cs IH]; cbn [run_calls]; [apply preserves_ret|].
  apply preserves_bind; [|intros _; exact IH].
  destruct c; cbn [run_call];
    (apply preserves_bind; [|intros ?; apply preserves_ret]).
  - apply all_frames_NewPgImp.
  - apply all_frames_FetchPgImp.
  - apply all_frames_UnpinPgImp.
  - apply all_frames_FlushPgImp.
  - apply all_frames_DeletePgImp.
Qed.

End FrameInvariant.

Lemma pin_counts_after_calls pool_size num_instances instance_index disk cs b b' u :
  BPM.new pool_size num_instances instance_index disk = Ok b ->
  run_calls cs b = Ok (u, b') ->
  Forall pin_count_0_or_1 (pages_ b').
Proof.
  intros Hnew Hrun.
  eapply (all_frames_run_calls pin_count_0_or_1); try exact Hrun;
    try (unfold pin_count_0_or_1; cbn; intros; tauto).
  unfold BPM.new in Hnew.
  destruct (negb (0 <? num_instances)); [discriminate|].
  destruct (negb (instance_index <? num_instances)); [discriminate|].
  injection Hnew as <-. unfold all_frames. cbn.
  apply Forall_replicate. now left.
Qed.

(** ** Buffer pool manager: the frame NewPgImp hands out *)

Lemma page_at_Ok (b b' : BufferPoolManagerInstance) frame_id page :
  page_at frame_id b = Ok (page, b') ->
  0 <= frame_id /\ pages_ b !! Z.to_nat frame_id = Some page /\ b' = b.
Proof.
  unfold page_at. destruct (frame_id <? 0) eqn:E; [discriminate|].
  destruct (pages_ b !! Z.to_nat frame_id); [|discriminate].
  intros [= -> ->]. repeat split. lia.
Qed.

Lemma update_page_Ok (b b' : BufferPoolManagerInstance) frame_id f u :
  update_page frame_id f b = Ok (u, b') ->
  exists page,
    0 <= frame_id /\ pages_ b !! Z.to_nat frame_id = Some page /\
    b' = with_pages (<[Z.to_nat frame_id := f page]> (pages_ b)) b.
Proof.
  unfold update_page. intros H.
  apply bind_Ok in H as (page & b1 & Hat & H).
  apply page_at_Ok in Hat as (H0 & Hp & ->).
  injection H as _ <-. eauto.
Qed.

Lemma ReadPage_Ok (b b' : BufferPoolManagerInstance) page_id frame_id u :
  ReadPage page_id frame_id b = Ok (u, b') ->
  exists page,
    0 <= frame_id /\ pages_ b !! Z.to_nat frame_id = Some page /\
    pages_ b' =
      <[Z.to_nat frame_id :=
          set_data (default zero_data (blocks (disk_manager_ b) !! page_id))
                   page]> (pages_ b) /\
    blocks (disk_manager_ b') = blocks (disk_manager_ b) /\
    journal (disk_manager_ b') =
      journal (disk_manager_ b) ++ [DiskRead page_id].
Proof.
  unfold ReadPage. intros H.
  apply bind_Ok in H as (d & b1 & Hd & H). injection Hd as <- <-.
  cbn [disk_read] in H.
  apply bind_Ok in H as (u1 & b2 & Hm & H). injection Hm as _ <-.
  apply update_page_Ok in H as (page & H0 & Hp & ->).
  exists page. cbn in *. auto.
Qed.

Lemma on_replacer_Ok {A} (m : M ClockReplacer A)
    (b b' : BufferPoolManagerInstance) a :
  on_replacer m b = Ok (a, b') -> exists r, b' = with_replacer r b.
Proof.
  unfold on_replacer. destruct (m (replacer_ b)) as [[a' r]|f]; [|discriminate].
  intros [= _ <-]. eauto.
Qed.

(** Whenever [NewPgImp] returns a frame, the frame carries the new page
    ID, pin count 1 and a clear dirty flag, and its buffer holds what the
    disk manager's [ReadPage] delivered for the new page ID, the last call
    the disk manager received. *)
Lemma NewPgImp_frame (b b' : BufferPoolManagerInstance) page_id frame_id :
  NewPgImp b = Ok ((page_id, Some frame_id), b') ->
  page_id = next_page_id_ b /\
  exists page,
    pages_ b' !! Z.to_nat frame_id = Some page /\
    page_id_ page = page_id /\
    pin_count_ page = 1 /\
    is_dirty_ page = false /\
    data_ page = default zero_data (blocks (disk_manager_ b') !! page_id) /\
    last (journal (disk_manager_ b')) = Some (DiskRead page_id).
Proof.
  unfold NewPgImp. intros H.
  apply bind_Ok in H as (pid & b1 & Halloc & H).
  assert (Hpid : pid = next_page_id_ b).
  { unfold AllocatePage in Halloc.
    apply bind_Ok in Halloc as (x & b0 & Hx & Halloc). injection Hx as <- <-.
    apply bind_Ok in Halloc as (? & ? & _ & Halloc).
    apply bind_Ok in Halloc as (? & ? & _ & Halloc).
    now injection Halloc as <- _. }
  apply bind_Ok in H as (fl & b2 & Hfl & H). injection Hfl as <- <-.
  apply bind_Ok in H as (page & b3 & _ & H).
  destruct page as [f|]; [|discriminate].
  apply bind_Ok in H as (u4 & b4 & Hread & H).
  apply ReadPage_Ok in Hread as (p0 & H0 & Hp0 & Hps4 & Hbl4 & Hj4).
  assert (Hp4 : pages_ b4 !! Z.to_nat f = Some (set_data
            (default zero_data (blocks (disk_manager_ b3) !! pid)) p0))
    by (rewrite Hps4; eapply lookup_updated; eauto).
  apply bind_Ok in H as (u5 & b5 & Hu5 & H).
  apply update_page_Ok in Hu5 as (p5 & _ & Hp5 & ->).
  rewrite Hp4 in Hp5. injection Hp5 as <-.
  apply bind_Ok in H as (u6 & b6 & Hu6 & H).
  apply update_page_Ok in Hu6 as (p6 & _ & Hp6 & ->).
  cbn [pages_ with_pages] in Hp6.
  rewrite (lookup_updated _ _ _ _ Hp4) in Hp6. injection Hp6 as <-.
  apply bind_Ok in H as (u7 & b7 & Hu7 & H).
  apply update_page_Ok in Hu7 as (p7 & _ & Hp7 & ->).
  cbn [pages_ with_pages] in Hp7.
  erewrite lookup_updated in Hp7
    by (eapply lookup_updated; exact Hp4).
  injection Hp7 as <-.
  apply bind_Ok in H as (u8 & b8 & Hu8 & H).
  apply on_replacer_Ok in Hu8 as (r8 & ->).
  apply bind_Ok in H as (u9 & b9 & Hu9 & H).
  apply on_replacer_Ok in Hu9 as (r9 & ->).
  apply bind_Ok in H as (u10 & b10 & Hu10 & H). injection Hu10 as _ <-.
  injection H as <- <- <-.
  split; [exact Hpid|].
  eexists. cbn. split.
  { eapply lookup_updated, lookup_updated, lookup_updated. exact Hp4. }
  cbn. rewrite Hbl4, Hj4, last_snoc. auto.
Qed.

(** ** Buffer pool manager: frame IDs stay in range *)

Section FramesInRange.

Variable n : Z.

Ltac split4 := split; [|split; [|split]].

Lemma range_on_replacer {A} (m : M ClockReplacer A) :
  preserves (nodes_in_range n) m ->
  preserves (frames_in_range n) (on_replacer m).
Proof.
  intros Hm b a b' (Hlen & Ht & Hfl & Hr). unfold on_replacer.
  destruct (m (replacer_ b)) as [[a' r]|f] eqn:E; [|discriminate].
  intros [= _ <-]. split4; auto. cbn. eapply Hm; eauto.
Qed.

Lemma range_Victim :
  establishes (frames_in_range n) (on_replacer Victim)
              (fun v => forall f, v = Some f -> 0 <= f < n).
Proof.
  intros b v b' HI H. split.
  - eapply (range_on_replacer Victim); eauto. apply nodes_Victim.
  - intros f ->. unfold on_replacer in H.
    destruct (Victim (replacer_ b)) as [[v r]|] eqn:E; [|discriminate].
    injection H as -> _.
    apply Victim_frame_known in E as (a & nd & Ha & <-).
    destruct HI as (_ & _ & _ & Hr). eauto.
Qed.

Lemma range_page_at f : preserves (frames_in_range n) (page_at f).
Proof.
  intros b p b' HI H. unfold page_at in H.
  destruct (f <? 0); [discriminate|].
  destruct (pages_ b !! Z.to_nat f); [|discriminate].
  now injection H as _ <-.
Qed.

Lemma range_update_page f g : preserves (frames_in_range n) (update_page f g).
Proof.
  intros b u b' (Hlen & Ht & Hfl & Hr) H.
  apply update_page_Ok in H as (p & _ & _ & ->).
  split4; auto. cbn. now rewrite length_insert.
Qed.

Lemma range_modify upd :
  (forall b, frames_in_range n b -> frames_in_range n (upd b)) ->
  preserves (frames_in_range n) (modify upd).
Proof. apply preserves_modify. Qed.

Lemma range_disk d (b : BufferPoolManagerInstance) :
  frames_in_range n b -> frames_in_range n (with_disk_manager d b).
Proof. intros H. exact H. Qed.

Lemma range_next_page_id x (b : BufferPoolManagerInstance) :
  frames_in_range n b -> frames_in_range n (with_next_page_id x b).
Proof. intros H. exact H. Qed.

Lemma range_table_delete page_id (b : BufferPoolManagerInstance) :
  frames_in_range n b ->
  frames_in_range n (with_page_table (delete page_id (page_table_ b)) b).
Proof.
  intros (Hlen & Ht & Hfl & Hr). split4; auto. cbn.
  intros p f Hl. apply lookup_delete_Some in Hl as [_ Hl]. eauto.
Qed.

Lemma range_table_insert page_id frame_id (b : BufferPoolManagerInstance) :
  0 <= frame_id < n ->
  frames_in_range n b ->
  frames_in_range n
    (with_page_table (table_insert page_id frame_id (page_table_ b)) b).
Proof.
  intros Hf (Hlen & Ht & Hfl & Hr). split4; auto. cbn.
  intros p f. unfold table_insert.
  destruct (page_table_ b !! page_id) eqn:E; [apply Ht|].
  rewrite lookup_insert. case_decide; [intros [= <-]; lia | apply Ht].
Qed.

Ltac range :=
  repeat first
    [ apply preserves_ret | apply preserves_gets | apply preserves_fail
    | apply range_page_at | apply range_update_page
    | apply range_on_replacer; first [ apply nodes_Pin | apply nodes_Unpin; assumption ]
    | apply range_modify; intros ? ?;
        first [ apply range_disk; assumption
              | apply range_next_page_id; assumption
              | apply range_table_delete; assumption
              | apply range_table_insert; assumption ]
    | apply preserves_bind; [|intros ?]
    | match goal with
      | |- preserves _ (if ?c then _ else _) => destruct c
      | |- preserves _ (let (_, _) := ?x in _) => destruct x
      end ].

Lemma range_WritePage i d : preserves (frames_in_range n) (WritePage i d).
Proof. unfold WritePage. range. Qed.

Lemma range_ReadPage i f : preserves (frames_in_range n) (ReadPage i f).
Proof. unfold ReadPage. range. Qed.

Lemma range_AllocatePage : preserves (frames_in_range n) AllocatePage.
Proof. unfold AllocatePage, ValidatePageId. range. Qed.

(** Taking a frame: from the free list, or a victim. *)
Lemma range_free_list :
  establishes (frames_in_range n) (gets free_list_)
              (Forall (fun f => 0 <= f < n)).
Proof. apply establishes_gets. intros b (_ & _ & H & _). exact H. Qed.

Lemma range_page_table :
  establishes (frames_in_range n) (gets page_table_)
              (fun t => forall p f, t !! p = Some f -> 0 <= f < n).
Proof. apply establishes_gets. intros b (_ & H & _ & _). exact H. Qed.

Lemma range_pop_free_list rest (b : BufferPoolManagerInstance) :
  Forall (fun f => 0 <= f < n) rest ->
  frames_in_range n b -> frames_in_range n (with_free_list rest b).
Proof. intros Hrest (Hlen & Ht & Hfl & Hr). split4; auto. Qed.

Lemma range_NewPgImp : preserves (frames_in_range n) NewPgImp.
Proof.
  unfold NewPgImp.
  apply preserves_bind; [apply range_AllocatePage | intros page_id].
  apply (establishes_bind _ _ _ _ range_free_list). intros fl Hfl.
  apply (establishes_bind _ (fun page => forall f, page = Some f -> 0 <= f < n)).
  - intros b page b' HI H. destruct fl as [|f rest].
    + apply bind_Ok in H as (v & b1 & Hv & H).
      destruct (range_Victim _ _ _ HI Hv) as [HI1 Hv1].
      destruct v as [f|].
      * split; [| intros f' Hf'].
        -- revert H. generalize HI1. generalize b1 page b'.
           pose proof range_WritePage. range; auto.
        -- apply bind_Ok in H as (? & ? & _ & H).
           apply bind_Ok in H as (? & ? & _ & H).
           apply bind_Ok in H as (? & ? & _ & H).
           injection H as <- _. injection Hf' as <-. auto.
      * injection H as <- <-. split; [exact HI1 | discriminate].
    + apply Forall_cons in Hfl as [Hf Hrest].
      apply bind_Ok in H as (? & b1 & Hm & H). injection Hm as _ <-.
      injection H as <- <-. split.
      * now apply range_pop_free_list.
      * now intros f' [= <-].
  - intros [f|] Hpage; [|apply preserves_ret].
    specialize (Hpage f eq_refl).
    pose proof range_ReadPage. range; auto.
Qed.

Lemma range_take_frame fl :
  Forall (fun f => 0 <= f < n) fl ->
  establishes (frames_in_range n)
    (match fl with
     | frame_id :: rest => modify (with_free_list rest) ;; ret (Some frame_id)
     | [] => on_replacer Victim
     end)
    (fun page => forall f, page = Some f -> 0 <= f < n).
Proof.
  intros Hfl. destruct fl as [|f rest]; [apply range_Victim|].
  apply Forall_cons in Hfl as [Hf Hrest].
  intros b page b' HI H.
  apply bind_Ok in H as (? & b1 & Hm & H). injection Hm as _ <-.
  injection H as <- <-. split.
  - now apply range_pop_free_list.
  - now intros f' [= <-].
Qed.

Lemma range_FetchPgImp i : preserves (frames_in_range n) (FetchPgImp i).
Proof.
  unfold FetchPgImp.
  apply (establishes_bind _ _ _ _ range_page_table). intros t Ht.
  destruct (t !! i) as [f|] eqn:E.
  { range. }
  apply (establishes_bind _ _ _ _ range_free_list). intros fl Hfl.
  apply (establishes_bind _ _ _ _ (range_take_frame fl Hfl)).
  intros [f|] Hpage; [|apply preserves_ret].
  specialize (Hpage f eq_refl).
  pose proof range_ReadPage. pose proof range_WritePage. range; auto.
Qed.

Lemma range_UnpinPgImp i d : preserves (frames_in_range n) (UnpinPgImp i d).
Proof.
  unfold UnpinPgImp.
  apply (establishes_bind _ _ _ _ range_page_table). intros t Ht.
  destruct (t !! i) as [f|] eqn:E; [|apply preserves_ret].
  specialize (Ht i f E). range.
Qed.

Lemma range_FlushPgImp i : preserves (frames_in_range n) (FlushPgImp i).
Proof.
  unfold FlushPgImp. pose proof range_WritePage.
  destruct (i =? INVALID_PAGE_ID); [apply preserves_ret|].
  apply preserves_bind; [apply preserves_gets|]. intros t.
  apply preserves_bind; [|intros _; apply preserves_ret].
  destruct (t !! i); range; auto.
Qed.

Lemma range_DeletePgImp i : preserves (frames_in_range n) (DeletePgImp i).
Proof.
  unfold DeletePgImp.
  destruct (i =? INVALID_PAGE_ID); [apply preserves_ret|].
  apply preserves_bind; [apply preserves_gets|]. intros t.
  destruct (t !! i); range.
Qed.

Lemma range_run_calls cs : preserves (frames_in_range n) (run_calls cs).
Proof.
  induction cs as [|c cs IH]; cbn [run_calls]; [apply preserves_ret|].
  apply preserves_bind; [|intros _; exact IH].
  destruct c; cbn [run_call];
    (apply preserves_bind; [|intros ?; apply preserves_ret]).
  - apply range_NewPgImp.
  - apply range_FetchPgImp.
  - apply range_UnpinPgImp.
  - apply range_FlushPgImp.
  - apply range_DeletePgImp.
Qed.

End FramesInRange.

(** The free list of the constructor, when every frame ID fits an [int]. *)
Lemma free_list_new (n : nat) :
  Z.of_nat n <= INT_MAX + 1 ->
  (fun i => int32_wrap (Z.of_nat i)) <$> seq 0 n = Z.of_nat <$> seq 0 n.
Proof.
  intros Hn. apply list_fmap_ext. intros j k Hk.
  apply lookup_seq in Hk as [Hk Hj].
  apply int32_wrap_id. unfold INT_MAX in *. lia.
Qed.

Lemma frames_in_range_new pool_size num_instances instance_index disk b :
  pool_size <= INT_MAX ->
  BPM.new pool_size num_instances instance_index disk = Ok b ->
  frames_in_range (Z.of_nat (Z.to_nat pool_size)) b.
Proof.
  intros Hsize. unfold BPM.new.
  destruct (negb (0 <? num_instances)); [discriminate|].
  destruct (negb (instance_index <? num_instances)); [discriminate|].
  intros [= <-]. split; [|split; [|split]];
    cbn [pages_ page_table_ free_list_ replacer_].
  - now rewrite length_replicate.
  - intros p f H. discriminate.
  - rewrite free_list_new by (unfold INT_MAX in *; lia).
    apply Forall_fmap, Forall_forall. intros k Hk.
    apply elem_of_seq in Hk. cbn. lia.
  - intros a nd H. discriminate.
Qed.

(** In every state the calls can reach on a pool whose frame IDs fit an
    [int], the page table points into the frame array. *)
Lemma table_in_range_after_calls
    pool_size num_instances instance_index disk cs b b' u :
  pool_size <= INT_MAX ->
  BPM.new pool_size num_instances instance_index disk = Ok b ->
  run_calls cs b = Ok (u, b') ->
  table_in_range b'.
Proof.
  intros Hsize Hnew Hrun.
  assert (HI : frames_in_range (Z.of_nat (Z.to_nat pool_size)) b').
  { eapply range_run_calls; [|exact Hrun].
    eapply frames_in_range_new; eauto. }
  destruct HI as (Hlen & Ht & _ & _).
  intros p f Hpf. specialize (Ht p f Hpf). split; [lia|].
  apply lookup_lt_is_Some. lia.
Qed.

(** ** Buffer pool manager: only NewPgImp moves the page ID counter *)

Section Counter.

Variable x : Z.

Lemma counter_page_at f : preserves (counter_is x) (page_at f).
Proof.
  intros b p b' HI H. apply page_at_Ok in H as (_ & _ & ->). exact HI.
Qed.

Lemma counter_update_page f g : preserves (counter_is x) (update_page f g).
Proof.
  intros b u b' HI H. apply update_page_Ok in H as (p & _ & _ & ->). exact HI.
Qed.

Lemma counter_on_replacer {A} (m : M ClockReplacer A) :
  preserves (counter_is x) (on_replacer m).
Proof.
  intros b a b' HI H. apply on_replacer_Ok in H as (r & ->). exact HI.
Qed.

Ltac counter :=
  repeat first
    [ apply preserves_ret | apply preserves_gets | apply preserves_fail
    | apply counter_page_at | apply counter_update_page
    | apply counter_on_replacer
    | apply preserves_modify; intros ? Hkept; exact Hkept
    | apply preserves_bind; [|intros ?]
    | match goal with
      | |- preserves _ (match ?c with _ => _ end) => destruct c
      end ].

Lemma counter_FetchPgImp i : preserves (counter_is x) (FetchPgImp i).
Proof. unfold FetchPgImp, ReadPage, WritePage. counter. Qed.

Lemma counter_UnpinPgImp i d : preserves (counter_is x) (UnpinPgImp i d).
Proof. unfold UnpinPgImp. counter. Qed.

Lemma counter_FlushPgImp i : preserves (counter_is x) (FlushPgImp i).
Proof. unfold FlushPgImp, WritePage. counter. Qed.

Lemma counter_DeletePgImp i : preserves (counter_is x) (DeletePgImp i).
Proof. unfold DeletePgImp. counter. Qed.

Lemma counter_NewPgImp (b b' : BufferPoolManagerInstance) v :
  int32_wrap (next_page_id_ b + num_instances_ b) = x ->
  NewPgImp b = Ok (v, b') ->
  next_page_id_ b' = x.
Proof.
  intros Hx H. unfold NewPgImp in H.
  apply bind_Ok in H as (page_id & b1 & Halloc & H).
  assert (H1 : counter_is x b1).
  { unfold AllocatePage in Halloc.
    apply bind_Ok in Halloc as (? & b0 & Hg & Halloc). injection Hg as _ <-.
    apply bind_Ok in Halloc as (? & b2 & Hm & Halloc). injection Hm as _ <-.
    apply bind_Ok in Halloc as (? & b3 & Hv & Halloc). injection Halloc as _ <-.
    unfold ValidatePageId in Hv.
    revert Hv. match goal with |- ?m _ = _ -> _ =>
      assert (Hm : preserves (counter_is x) m) by counter end.
    intros Hv. eapply Hm; [|exact Hv]. exact Hx. }
  revert H. match goal with |- ?m b1 = _ -> _ =>
    assert (Hm : preserves (counter_is x) m)
      by (unfold ReadPage, WritePage; counter) end.
  intros H. exact (Hm b1 v b' H1 H).
Qed.

End Counter.

(** [NewPgImp] moves the counter by [num_instances_], whether or not it
    finds a frame. *)
Lemma NewPgImp_advances_counter (b b' : BufferPoolManagerInstance) v :
  NewPgImp b = Ok (v, b') ->
  next_page_id_ b' = int32_wrap (next_page_id_ b + num_instances_ b).
Proof. intros H. eapply counter_NewPgImp; [reflexivity | exact H]. Qed.

(** Every call other than [NewPgImp] leaves [next_page_id_] alone. *)
Lemma counter_kept c (b b' : BufferPoolManagerInstance) u :
  c <> CallNew ->
  run_call c b = Ok (u, b') ->
  next_page_id_ b' = next_page_id_ b.
Proof.
  intros Hc H.
  assert (Hp : preserves (counter_is (next_page_id_ b)) (run_call c)).
  { destruct c; cbn [run_call]; [congruence|..];
      (apply preserves_bind; [|intros ?; apply preserves_ret]).
    - apply counter_FetchPgImp.
    - apply counter_UnpinPgImp.
    - apply counter_FlushPgImp.
    - apply counter_DeletePgImp. }
  exact (Hp b u b' eq_refl H).
Qed.

(** ** Buffer pool manager: a failed NewPgImp *)

Lemma AllocatePage_checked (b : BufferPoolManagerInstance) :
  num_instances_ b <> 0 ->
  uint32_wrap (next_page_id_ b) mod num_instances_ b = instance_index_ b ->
  AllocatePage b =
    Ok (next_page_id_ b,
        with_next_page_id (int32_wrap (next_page_id_ b + num_instances_ b)) b).
Proof.
  intros HN Hv. unfold AllocatePage, ValidatePageId. run_monad.
  destruct (num_instances_ b =? 0) eqn:E; [lia|].
  now rewrite Hv, Z.eqb_refl.
Qed.

(** With an empty free list and no victim, [NewPgImp] returns [nullptr]
    after [AllocatePage] has advanced [next_page_id_]; besides that, the
    instance is changed only by what the failed [Victim] did to the
    replacer. *)
Lemma NewPgImp_exhausted (b : BufferPoolManagerInstance) r :
  free_list_ b = [] ->
  num_instances_ b <> 0 ->
  uint32_wrap (next_page_id_ b) mod num_instances_ b = instance_index_ b ->
  Victim (replacer_ b) = Ok (None, r) ->
  NewPgImp b =
    Ok ((next_page_id_ b, None),
        with_replacer r
          (with_next_page_id
             (int32_wrap (next_page_id_ b + num_instances_ b)) b)).
Proof.
  intros Hfl HN Hv Hvic.
  unfold NewPgImp. unfold bind at 1.
  rewrite AllocatePage_checked by assumption.
  unfold bind at 1, gets at 1. cbn [free_list_ with_next_page_id].
  rewrite Hfl. unfold bind at 1. unfold bind at 1, on_replacer at 1.
  cbn [replacer_ with_next_page_id]. now rewrite Hvic.
Qed.

(** When the ring is intact and every entry is pinned, the replacer is
    not changed either. *)
Lemma NewPgImp_exhausted_intact (b : BufferPoolManagerInstance) l :
  free_list_ b = [] ->
  num_instances_ b <> 0 ->
  uint32_wrap (next_page_id_ b) mod num_instances_ b = instance_index_ b ->
  chain (heap (replacer_ b)) (current_ (replacer_ b)) l
        (current_ (replacer_ b)) ->
  length l = Z.to_nat (clock_size_ (replacer_ b)) ->
  Forall (fun nd => pin_ nd = true) l ->
  NewPgImp b =
    Ok ((next_page_id_ b, None),
        with_next_page_id (int32_wrap (next_page_id_ b + num_instances_ b)) b).
Proof.
  intros Hfl HN Hv Hc Hlen Hp.
  rewrite (NewPgImp_exhausted b (replacer_ b) Hfl HN Hv).
  - now destruct b.
  - eapply Victim_all_pinned; eauto.
Qed.

(** * The replacer on concrete call sequences *)

(** C1. Victim chooses the frame the clock policy prescribes, but does not
    always remove just the chosen descriptor: with the ring 1, 2, 4, the
    hand on 4 and 4 unpinned with refer == false, Victim returns 4 and
    decrements clock_size to 2, yet the ring is left with the single
    descriptor 1; the descriptor of frame 2 was unlinked together with the
    victim (it is still allocated, but no longer on the ring). *)
Theorem Victim_unlinks_a_bystander :
  eval (run_ops hand_on_third_node ;;
        let* before := gets ring_entries in
        let* under_hand := gets hand in
        let* size_before := gets clock_size_ in
        let* victim := Victim in
        let* after := gets ring_entries in
        let* size_after := gets clock_size_ in
        let* allocated := gets allocated_entries in
        ret (before, under_hand, size_before, victim, after, size_after,
             allocated))
       (Clock.new 5)
  = Ok ([(1, true, true); (2, true, true); (4, false, false)],
        Some (4, false, false), 3,
        Some 4,
        [(1, true, true)], 2,
        [(2, true, true); (1, true, true)]).
Proof. vm_compute. reflexivity. Qed.

(** On the same input the general result applies: the ring is intact
    before the call, so whatever [Victim] returns there is the policy's
    choice, frame 4; only the unlinking goes wrong. *)
Example Victim_choice_with_hand_on_third_node r v r' :
  exec (run_ops hand_on_third_node) (Clock.new 5) = Ok r ->
  Victim r = Ok (v, r') ->
  v = Some 4.
Proof.
  intros Hr Hv. vm_compute in Hr. injection Hr as <-.
  eapply (Victim_choice _
            [(4%nat, mkListNode false false 4 (Some 1%nat));
             (1%nat, mkListNode true true 1 (Some 2%nat));
             (2%nat, mkListNode true true 2 (Some 4%nat))]) in Hv.
  - destruct v as [f|]; cbn in Hv.
    + destruct Hv as [(l1 & nd & l2 & Hl & Hc & Hl1 & <-) | (Hnone & _)].
      * destruct l1 as [|nd1 l1]; [now injection Hl as <- _|].
        injection Hl as <- Hl. inversion Hl1 as [|? ? Hn _]; subst.
        exfalso. apply Hn. split; reflexivity.
      * inversion Hnone as [|? ? Hn _]; subst.
        exfalso. apply Hn. split; reflexivity.
    + inversion Hv as [|? ? Hp _]; subst. discriminate.
  - discriminate.
  - repeat (econstructor; [reflexivity|]). constructor.
  - apply (bool_decide_unpack _). vm_compute. exact I.
  - reflexivity.
  - repeat constructor; cbn; unfold INT_MAX; lia.
Qed.

(** The other defect of the unlinking: [tail_] is not moved when the last
    node is evicted, and the next eviction of the head writes through the
    dangling pointer. *)
Lemma Victim_writes_through_stale_tail :
  eval (run_ops [OpUnpin 0; OpUnpin 1; OpUnpin 2; OpPin 0; OpPin 1;
                 OpVictim; OpUnpin 0] ;;
        let* ring_now := gets ring_entries in
        let* tail_node := gets (fun r => heap r !! default 0%nat (tail_ r)) in
        ret (ring_now, tail_node))
       (Clock.new 3)
  = Ok ([(0, false, true); (1, true, true)], None)
  /\
  eval (run_ops [OpUnpin 0; OpUnpin 1; OpUnpin 2; OpPin 0; OpPin 1;
                 OpVictim; OpUnpin 0] ;; Victim)
       (Clock.new 3)
  = Fault UndefinedBehaviour.
Proof. split; vm_compute; reflexivity. Qed.

(** C8. Size is clock_size - pin_size, but pin_size is not the number of
    pinned entries: Pin increments it again for a frame that is already
    pinned.  After Unpin(0), Pin(0), Pin(0) the ring holds one pinned
    entry, pin_size is 2 and Size reports 2^64 - 1 while no entry is
    unpinned. *)
Theorem Pin_of_pinned_frame_miscounts :
  eval (run_ops [OpUnpin 0; OpPin 0; OpPin 0] ;;
        let* entries := gets ring_entries in
        let* clock_size := gets clock_size_ in
        let* pin_size := gets pin_size_ in
        let* pinned := gets pinned_count in
        let* unpinned := gets unpinned_count in
        let* size := gets Size in
        ret (entries, clock_size, pin_size, pinned, unpinned, size))
       (Clock.new 1)
  = Ok ([(0, true, true)], 1, 2, 1, 0, 2 ^ 64 - 1).
Proof. vm_compute. reflexivity. Qed.

(** C9. The overflow branch of Unpin is reachable with frame IDs in range:
    on a replacer of capacity 4, the script runs without a fault up to its
    last call, where the ring (from which Victim has dropped descriptors
    that clock_size still counts) does not know frame 0 while clock_size
    equals the capacity, and Unpin(0) throws. *)
Theorem Unpin_overflow_is_reachable :
  Forall (in_range 4) overflowing_script /\
  eval (run_ops (removelast overflowing_script) ;;
        let* entries := gets ring_entries in
        let* clock_size := gets clock_size_ in
        let* capacity := gets capacity_ in
        ret (entries, clock_size, capacity))
       (Clock.new 4)
  = Ok ([(1, true, true); (3, false, true)], 4, 4) /\
  run_ops overflowing_script (Clock.new 4) = Fault Thrown.
Proof.
  split; [|split].
  - repeat constructor; cbn; lia.
  - vm_compute. reflexivity.
  - vm_compute. reflexivity.
Qed.

(** * The buffer pool manager: the operations one by one *)

Lemma one_page_pool_reached :
  match BPM.new 1 1 0 blank_disk with
  | Ok b => exec NewPgImp b
  | Fault f => Fault f
  end = Ok one_page_pool.
Proof. vm_compute. reflexivity. Qed.

(** C2. UnpinPage loses a dirty page.  Page 0 is resident and was unpinned
    as dirty; UnpinPage(0, false) then leaves it clean, where the claim
    asks for the OR of the old bit and the argument (the call returns
    false, the pin count being 0, as the claim says).  The NewPage that
    follows evicts page 0, and the disk manager sees no WritePage: all it
    has served are the two reads of the two NewPage calls. *)
Theorem UnpinPgImp_drops_dirty_bit :
  session 1 1 0 blank_disk
    (run_calls [CallNew; CallUnpin 0 true] ;;
     let* resident := gets (fun b => page_table_ b !! 0) in
     let* before := gets (frame_meta 0) in
     let* result := UnpinPgImp 0 false in
     let* after := gets (frame_meta 0) in
     let as_claimed :=
       bool_decide (snd <$> after = (fun m => snd m || false) <$> before) in
     let* evicting := NewPgImp in
     let* table := gets page_table_ in
     let* d := gets disk_manager_ in
     ret (resident, before, result, after, as_claimed,
          evicting, table !! 0, journal d))
  = Ok (Some 0, Some (0, 0, true), false, Some (0, 0, false), false,
        (1, Some 0), None, [DiskRead 0; DiskRead 1]).
Proof. vm_compute. reflexivity. Qed.

(** The rest of the claim, which the code keeps.  For a resident page
    whose pin count is 0 or 1 (no call stores another value,
    [pin_counts_after_calls]), UnpinPgImp overwrites the dirty bit with its
    argument; with pin count 0 it returns false and does not call the
    replacer; with pin count 1 it calls the replacer's Unpin on the frame
    and, when that returns, decrements the pin count by one and returns
    true; a fault of Unpin is a fault of the call. *)
Theorem UnpinPgImp_resident (b : BufferPoolManagerInstance)
    page_id is_dirty frame_id page :
  page_table_ b !! page_id = Some frame_id ->
  0 <= frame_id ->
  pages_ b !! Z.to_nat frame_id = Some page ->
  pin_count_0_or_1 page ->
  UnpinPgImp page_id is_dirty b =
    if pin_count_ page =? 0 then
      Ok (false,
          with_pages (<[Z.to_nat frame_id := set_is_dirty is_dirty page]>
                        (pages_ b)) b)
    else
      match Unpin frame_id (replacer_ b) with
      | Ok (_, r) =>
        Ok (true,
            with_pages (<[Z.to_nat frame_id :=
                            mkPage (data_ page) (page_id_ page)
                                   (pin_count_ page - 1) is_dirty]>
                          (pages_ b))
                       (with_replacer r b))
      | Fault f => Fault f
      end.
Proof.
  intros Ht H0 Hp [Hz | Hone];
    rewrite (UnpinPgImp_on_resident b page_id is_dirty frame_id page)
      by assumption.
  - rewrite Hz. cbn. now destruct page; cbn in *; subst.
  - now rewrite Hone.
Qed.

Lemma UnpinPgImp_resident_witness :
  page_table_ one_page_pool !! 0 = Some 0 /\
  pages_ one_page_pool !! Z.to_nat 0 = Some (mkPage zero_data 0 1 false) /\
  eval (UnpinPgImp 0 true) one_page_pool = Ok true /\
  match exec (UnpinPgImp 0 true) one_page_pool with
  | Ok b => frame_meta 0 b = Some (0, 0, true)
  | Fault _ => False
  end.
Proof.
  assert (Ht : page_table_ one_page_pool !! 0 = Some 0) by reflexivity.
  assert (Hp : pages_ one_page_pool !! Z.to_nat 0
               = Some (mkPage zero_data 0 1 false)) by reflexivity.
  split; [exact Ht | split; [exact Hp |]].
  unfold eval, exec.
  rewrite (UnpinPgImp_resident one_page_pool 0 true 0
             (mkPage zero_data 0 1 false) Ht ltac:(lia) Hp
             (or_intror eq_refl)).
  split; reflexivity.
Defined.

(** C3. FetchPage of a resident page does not touch the frame's pin count:
    page 0, unpinned down to pin count 0, is fetched again, the same frame
    is returned, and its pin count is still 0; the UnpinPage that matches
    this fetch then returns false. *)
Theorem FetchPgImp_hit_leaves_pin_count :
  session 1 1 0 blank_disk
    (run_calls [CallNew; CallUnpin 0 false] ;;
     let* before := gets (frame_meta 0) in
     let* page := FetchPgImp 0 in
     let* after := gets (frame_meta 0) in
     let* pinned := gets (fun b => ring_entries (replacer_ b)) in
     let* unpin := UnpinPgImp 0 false in
     ret (before, page, after, pinned, unpin))
  = Ok (Some (0, 0, false), Some 0, Some (0, 0, false),
        [(0, true, true)], false).
Proof. vm_compute. reflexivity. Qed.

(** C4. DeletePage of a resident page with pin count 1 returns true, not
    false, and of a resident page with pin count 0 returns true without
    doing anything: the page stays in the page table and the free list
    stays empty.  On a page that is not resident the call dereferences the
    end iterator. *)
Theorem DeletePgImp_returns_true_on_resident :
  session 1 1 0 blank_disk
    (run_calls [CallNew] ;;
     let* before := gets (frame_meta 0) in
     let* result := DeletePgImp 0 in
     let* entry := gets (fun b => page_table_ b !! 0) in
     ret (before, result, entry))
  = Ok (Some (0, 1, false), true, Some 0)
  /\
  session 1 1 0 blank_disk
    (run_calls [CallNew; CallUnpin 0 false] ;;
     let* before := gets (frame_meta 0) in
     let* result := DeletePgImp 0 in
     let* entry := gets (fun b => page_table_ b !! 0) in
     let* after := gets (frame_meta 0) in
     let* free := gets free_list_ in
     let* calls := gets (fun b => journal (disk_manager_ b)) in
     ret (before, result, entry, after, free, calls))
  = Ok (Some (0, 0, false), true, Some 0, Some (0, 0, false), [],
        [DiskRead 0])
  /\
  session 1 1 0 blank_disk (DeletePgImp 7) = Fault UndefinedBehaviour.
Proof. repeat split; vm_compute; reflexivity. Qed.

(** C5, as the claim states it, fails: page 0 is resident and clean, and
    FlushPage(0) sends nothing to the disk and returns false, where the
    claim asks for a write regardless of the dirty flag and for true. *)
Lemma FlushPgImp_skips_clean_page :
  session 1 1 0 blank_disk
    (run_calls [CallNew] ;;
     let* resident := gets (fun b => page_table_ b !! 0) in
     let* before := gets (frame_meta 0) in
     let* buffer := gets (fun b => default [] (data_ <$> pages_ b !! 0%nat)) in
     let* calls_before := gets (fun b => journal (disk_manager_ b)) in
     let* result := FlushPgImp 0 in
     let* calls_after := gets (fun b => journal (disk_manager_ b)) in
     let written_as_claimed :=
       bool_decide (length calls_after = S (length calls_before)) in
     let returned_as_claimed := bool_decide (result = true) in
     ret (resident, before, calls_before, result, calls_after,
          written_as_claimed, returned_as_claimed))
  = Ok (Some 0, Some (0, 1, false), [DiskRead 0], false, [DiskRead 0],
        false, false).
Proof. vm_compute. reflexivity. Qed.

(** C5 (amended). FlushPgImp always returns.  For INVALID_PAGE_ID and for
    a page that is not resident it returns false and changes nothing.  For
    a resident page it writes the frame's contents to disk exactly when the
    frame is dirty, and the frame's dirty flag is clear afterwards; the
    page table is not changed. *)
Theorem FlushPgImp_writes_dirty_pages (b : BufferPoolManagerInstance) page_id :
  table_in_range b ->
  exists result b',
    FlushPgImp page_id b = Ok (result, b') /\
    match (if page_id =? INVALID_PAGE_ID then None
           else page_table_ b !! page_id) with
    | None => result = false /\ b' = b
    | Some frame_id =>
      exists page,
        pages_ b !! Z.to_nat frame_id = Some page /\
        pages_ b' !! Z.to_nat frame_id = Some (set_is_dirty false page) /\
        journal (disk_manager_ b') =
          journal (disk_manager_ b) ++
          (if is_dirty_ page then [DiskWrite page_id (data_ page)] else []) /\
        page_table_ b' = page_table_ b
    end.
Proof.
  intros Hrange.
  destruct (page_id =? INVALID_PAGE_ID) eqn:E.
  { exists false, b. split; [|auto].
    apply FlushPgImp_not_resident. lia. }
  destruct (page_table_ b !! page_id) as [frame_id|] eqn:Ht.
  2:{ exists false, b. split; [|auto].
      apply FlushPgImp_not_resident. auto. }
  destruct (Hrange _ _ Ht) as [H0 [page Hp]].
  eexists _, _. split.
  { apply (FlushPgImp_on_resident b page_id frame_id page); auto; lia. }
  exists page. split; [exact Hp|].
  destruct (is_dirty_ page) eqn:Ed; cbn.
  - split; [eapply lookup_updated; eauto|]. auto.
  - rewrite app_nil_r. repeat split; auto.
    rewrite Hp. f_equal. destruct page; cbn in *; now subst.
Qed.

Lemma FlushPgImp_writes_dirty_pages_witness :
  table_in_range one_page_pool /\
  exists result b',
    FlushPgImp 0 one_page_pool = Ok (result, b') /\
    exists page,
      pages_ one_page_pool !! Z.to_nat 0 = Some page /\
      pages_ b' !! Z.to_nat 0 = Some (set_is_dirty false page) /\
      journal (disk_manager_ b') =
        journal (disk_manager_ one_page_pool) ++
        (if is_dirty_ page then [DiskWrite 0 (data_ page)] else []) /\
      page_table_ b' = page_table_ one_page_pool.
Proof.
  assert (Hrange : table_in_range one_page_pool).
  { intros page_id frame_id. unfold one_page_pool. cbn [page_table_ pages_].
    intros H. apply lookup_singleton_Some in H as [_ <-].
    split; [lia | eexists; reflexivity]. }
  split; [exact Hrange|].
  exact (FlushPgImp_writes_dirty_pages one_page_pool 0 Hrange).
Defined.

(** C6. NewPage sets page_id, pin_count = 1 and is_dirty = false, but it
    does not zero the buffer: it calls ReadPage for the new page ID and
    hands out what the disk holds there.  On a database file whose block 0
    is filled with 0xab, the first NewPage returns page 0 in frame 0 with
    the buffer full of 0xab. *)
Theorem NewPgImp_reads_the_disk :
  session 1 1 0 used_disk
    (let* new_page := NewPgImp in
     let* meta := gets (frame_meta 0) in
     let* buffer := gets (fun b => data_ <$> pages_ b !! 0%nat) in
     let* calls := gets (fun b => journal (disk_manager_ b)) in
     ret (new_page, meta, buffer, calls))
  = Ok ((0, Some 0), Some (0, 1, false),
        Some (replicate BUSTUB_PAGE_SIZE Byte.xab), [DiskRead 0])
  /\ replicate BUSTUB_PAGE_SIZE Byte.xab <> zero_data.
Proof. split; [vm_compute; reflexivity | discriminate]. Qed.

(** C7, as the claim states it, fails: with num_instances = 2^31 and
    instance_index = 0 the 32-bit counter wraps; the IDs returned are not
    the progression 0, 2^31, 2^32, the second ID is smaller than the first
    and the third ID is 0 again. *)
Lemma AllocatePage_wraps_around :
  session 1 2147483648 0 blank_disk (allocate_many 3)
    = Ok [0; -2147483648; 0] /\
  progression 2147483648 0 3 = [0; 2147483648; 4294967296] /\
  ~ StronglySorted Z.lt [0; -2147483648; 0] /\
  ~ NoDup [0; -2147483648; 0].
Proof.
  split; [vm_compute; reflexivity|].
  split; [reflexivity|].
  split.
  - intros H. inversion H as [|? ? _ Hlt]; subst.
    inversion Hlt as [|? ? Hneg _]; subst. lia.
  - intros H. apply NoDup_cons in H as [Hnot _].
    apply Hnot. right. left.
Qed.

(** C7 (amended). As long as the IDs fit into the 32-bit signed page_id_t,
    that is for the first n calls when i + (n-1)*N <= INT_MAX, the IDs
    returned by successive AllocatePage calls of an instance constructed
    with (num_instances = N, instance_index = i) are i, i+N, i+2N, ...:
    every call passes the validity assertion, every ID is congruent to i
    modulo N, the sequence is strictly increasing and has no duplicate.
    DeletePgImp, like every call other than NewPgImp, does not touch the
    counter. *)
Theorem AllocatePage_progression pool_size N i disk (n : nat) :
  0 < N < 2 ^ 32 ->
  0 <= i < N ->
  i + (Z.of_nat n - 1) * N <= INT_MAX ->
  exists b ids b',
    BPM.new pool_size N i disk = Ok b /\
    allocate_many n b = Ok (ids, b') /\
    ids = progression N i n /\
    Forall (fun id => id mod N = i) ids /\
    StronglySorted Z.lt ids /\
    NoDup ids /\
    (forall c s s' u,
        c <> CallNew -> run_call c s = Ok (u, s') ->
        next_page_id_ s' = next_page_id_ s).
Proof.
  intros HN Hi Hmax.
  assert (Hnew : exists b, BPM.new pool_size N i disk = Ok b /\
                   num_instances_ b = N /\ instance_index_ b = i /\
                   next_page_id_ b = int32_wrap i).
  { unfold BPM.new.
    destruct (0 <? N) eqn:E1; [|lia].
    destruct (i <? N) eqn:E2; [|lia].
    cbn. eexists. split; [reflexivity|]. auto. }
  destruct Hnew as (b & Hb & HbN & Hbi & Hnext).
  destruct (allocate_many_in_range N i HN Hi n b i HbN Hbi) as [b' Hb'].
  { intros Hn. assert (i <= INT_MAX) by nia.
    rewrite Hnext, int32_wrap_id by (unfold INT_MAX in *; lia).
    repeat split; try lia. apply Z.mod_small. lia. }
  exists b, (progression N i n), b'.
  repeat split; auto.
  - apply progression_mod; [lia|]. apply Z.mod_small. lia.
  - apply progression_increasing. lia.
  - apply progression_NoDup. lia.
  - intros c s s' u Hc H. exact (counter_kept c s s' u Hc H).
Qed.

Lemma AllocatePage_progression_witness :
  exists b ids b',
    BPM.new 3 4 2 blank_disk = Ok b /\
    allocate_many 4 b = Ok (ids, b') /\
    ids = [2; 6; 10; 14].
Proof.
  destruct (AllocatePage_progression 3 4 2 blank_disk 4)
    as (b & ids & b' & Hb & Hids & Heq & _);
    [lia | lia | unfold INT_MAX; lia |].
  exists b, ids, b'. repeat split; assumption.
Defined.

(** * The buffer pool manager on a concrete call sequence *)

(** C10. When NewPage returns null, next_page_id has been advanced by
    num_instances and the page table, the free list and the frame array
    are unchanged; but the replacer is not always unchanged.  After the
    calls above the ring has lost descriptors to Victim's unlinking, a
    turn of clock_size steps no longer ends where it began, and the failed
    NewPage moves the hand from the descriptor of frame 0 to that of
    frame 4. *)
Theorem NewPgImp_null_moves_the_hand :
  session 5 1 0 blank_disk
    (run_calls all_pinned_after_bad_unlink ;;
     let* before := gets (fun b => b) in
     let* new_page := NewPgImp in
     let* after := gets (fun b => b) in
     ret (free_list_ before, new_page,
          next_page_id_ before, next_page_id_ after,
          bool_decide (page_table_ after = page_table_ before),
          free_list_ after,
          bool_decide (frame_metas after = frame_metas before),
          hand (replacer_ before), hand (replacer_ after),
          bool_decide (current_ (replacer_ after)
                       = current_ (replacer_ before))))
  = Ok ([], (8, None), 8, 9, true, [], true,
        Some (0, true, true), Some (4, true, true), false).
Proof. vm_compute. reflexivity. Qed.

(** In the same state the overflow branch of the replacer's [Unpin] is
    reached through the buffer pool manager: page 5 sits pinned in frame 0,
    whose descriptor the ring has lost, and unpinning it throws. *)
Lemma UnpinPgImp_throws_after_bad_unlink :
  session 5 1 0 blank_disk
    (run_calls all_pinned_after_bad_unlink ;;
     let* frames := gets frame_metas in
     let* ring_now := gets (fun b => ring_entries (replacer_ b)) in
     let* sizes := gets (fun b => (clock_size_ (replacer_ b),
                                   capacity_ (replacer_ b))) in
     ret (frames, ring_now, sizes))
  = Ok ([(5, 1, false); (1, 0, false); (2, 0, false);
         (6, 1, false); (7, 1, false)],
        [(1, true, true); (4, true, true)], (5, 5))
  /\
  session 5 1 0 blank_disk
    (run_calls all_pinned_after_bad_unlink ;; UnpinPgImp 5 false)
  = Fault Thrown.
Proof. split; vm_compute; reflexivity. Qed.

(** * The clock replacer: what Pin, Unpin and Victim do to a ring *)

(** ** The search of Pin and Unpin *)

Lemma last_ptr_cons x al pre0 :
  last_ptr (x :: al) pre0 = last_ptr al (Some x.1).
Proof.
  unfold last_ptr. destruct al as [|y al]; [reflexivity|].
  change (last (x :: y :: al)) with (last (y :: al)).
  destruct (last (y :: al)) eqn:E; [reflexivity|].
  now apply last_None in E.
Qed.

(** The search fails on nodes that do not carry the frame, and leaves
    [pre] on the last of them. *)
Lemma search_loop_unknown al : forall (r : ClockReplacer) n f p q pre0,
  achain (heap r) p al q ->
  (length al = n \/ (q = None /\ (length al <= n)%nat)) ->
  unknown_frame f al ->
  search_loop n f p pre0 r = Ok ((None, last_ptr al pre0), r).
Proof.
  induction al as [|[a nd] al IH]; intros r n f p q pre0 Hc Hn Hun.
  - inversion Hc; subst. destruct Hn as [<- | [-> _]]; [reflexivity|].
    now destruct n.
  - inversion Hc as [|a' nd' al' q' Ha Hrest]; subst.
    apply Forall_cons in Hun as [Hne Hun]. cbn in Hne.
    destruct n as [|n]; [cbn in Hn; destruct Hn as [? | [_ ?]]; lia|].
    cbn [search_loop]. unfold bind at 1, load at 1. rewrite Ha.
    destruct (frame_id_ nd =? f) eqn:E; [lia|].
    rewrite last_ptr_cons. cbn. eapply IH; eauto.
    cbn in Hn. destruct Hn as [? | [? ?]]; [left | right; split]; auto; lia.
Qed.

(** The search stops at the first node that carries the frame. *)
Lemma search_loop_first al : forall (r : ClockReplacer) n f p q pre0 a nd l1 l2,
  achain (heap r) p al q ->
  al = l1 ++ (a, nd) :: l2 ->
  unknown_frame f l1 -> frame_id_ nd = f ->
  (length l1 < n)%nat ->
  search_loop n f p pre0 r = Ok ((Some a, last_ptr l1 pre0), r).
Proof.
  induction al as [|[a0 nd0] al IH];
    intros r n f p q pre0 a nd l1 l2 Hc Hal Hun Hf Hn.
  - now destruct l1.
  - inversion Hc as [|a' nd' al' q' Ha Hrest]; subst al' a' nd' q'.
    destruct n as [|n]; [lia|].
    cbn [search_loop]. subst p. unfold bind at 1, load at 1. rewrite Ha.
    destruct l1 as [|[a1 nd1] l1]; cbn in Hal; injection Hal as -> -> ->.
    + rewrite Hf, Z.eqb_refl. reflexivity.
    + apply Forall_cons in Hun as [Hne Hun]. cbn in Hne.
      destruct (frame_id_ nd1 =? f) eqn:E; [lia|].
      rewrite last_ptr_cons. cbn. eapply IH; eauto. cbn in Hn. lia.
Qed.

Lemma achain_middle h p l1 a nd l2 q :
  achain h p (l1 ++ (a, nd) :: l2) q -> h !! a = Some nd.
Proof.
  intros Hc. eapply achain_lookup; [exact Hc|].
  apply elem_of_app. right. now left.
Qed.

Lemma achain_app h p l1 q l2 s :
  achain h p l1 q -> achain h q l2 s -> achain h p (l1 ++ l2) s.
Proof. induction 1; cbn; [auto|]. intros. constructor; auto. Qed.

Lemma achain_app_inv h l1 : forall p l2 s,
  achain h p (l1 ++ l2) s -> exists q, achain h p l1 q /\ achain h q l2 s.
Proof.
  induction l1 as [|[a nd] l1 IH]; intros p l2 s Hc; cbn in Hc.
  - exists p. split; [constructor | exact Hc].
  - inversion Hc as [|a' nd' al' q' Ha Hrest]; subst.
    destruct (IH _ _ _ Hrest) as (q & H1 & H2).
    exists q. split; [constructor|]; auto.
Qed.

Lemma achain_live h p al q a :
  achain h p al q -> a ∈ al.*1 -> is_Some (h !! a).
Proof.
  intros Hc Hin. apply list_elem_of_fmap in Hin as ([a' nd] & -> & Hin).
  exists nd. eapply achain_lookup; eauto.
Qed.

Lemma size_t_wrap_id z : 0 <= z < 2 ^ 64 -> size_t_wrap z = z.
Proof. intros Hz. unfold size_t_wrap. now apply Z.mod_small. Qed.

(** ** Pin and Unpin after the search *)

(** [Pin], once the search has found the node [a]. *)
Lemma Pin_found r f a nd pre1 :
  clock_size_ r <> 0 ->
  search_loop (Z.to_nat (clock_size_ r)) f (head_ r) None r
    = Ok ((Some a, pre1), r) ->
  heap r !! a = Some nd ->
  Pin f r =
    Ok (tt, with_pin_size (size_t_wrap (pin_size_ r + 1))
              (with_heap (<[a := mkListNode true true (frame_id_ nd) (next_ nd)]>
                            (heap r)) r)).
Proof.
  intros Hcs Hs Ha. unfold Pin. unfold bind at 1, gets at 1.
  destruct (clock_size_ r =? 0) eqn:E; [lia|].
  unfold bind at 1, gets at 1. unfold bind at 1. rewrite Hs.
  unfold store, bind, load, modify. rewrite Ha. cbn.
  rewrite lookup_insert_eq. cbn. now rewrite insert_insert_eq.
Qed.

(** [Unpin], once the search has failed with [pre] on the node [a], when
    there is room. *)
Lemma Unpin_not_found r f a nd :
  clock_size_ r <> 0 ->
  search_loop (Z.to_nat (clock_size_ r)) f (head_ r) None r
    = Ok ((None, Some a), r) ->
  heap r !! a = Some nd -> a <> brk r ->
  clock_size_ r < capacity_ r ->
  Unpin f r =
    Ok (tt, mkClockReplacer
              (<[a := set_next (Some (brk r)) nd]>
                 (<[brk r := mkListNode false true f (head_ r)]> (heap r)))
              (S (brk r)) (capacity_ r) (size_t_wrap (clock_size_ r + 1))
              (pin_size_ r) (head_ r) (Some (brk r)) (current_ r)).
Proof.
  intros Hcs Hs Ha Hab Hroom. unfold Unpin. unfold bind at 1, gets at 1.
  destruct (clock_size_ r =? 0) eqn:E; [lia|].
  unfold bind at 1, gets at 1. unfold bind at 1. rewrite Hs.
  unfold bind at 1, gets at 1. unfold bind at 1, gets at 1.
  destruct (clock_size_ r <? capacity_ r) eqn:E2; [|lia].
  repeat (unfold bind, gets, Create_node, modify, ret, store, load); cbn.
  rewrite lookup_insert_ne by congruence. rewrite Ha. reflexivity.
Qed.

(** [Unpin] on an empty replacer makes a ring of one node, without
    looking at the capacity. *)
Lemma Unpin_on_empty r f :
  clock_size_ r = 0 ->
  Unpin f r =
    Ok (tt, mkClockReplacer
              (<[brk r := mkListNode false true f (Some (brk r))]> (heap r))
              (S (brk r)) (capacity_ r) 1 (pin_size_ r)
              (Some (brk r)) (tail_ r) (Some (brk r))).
Proof.
  intros Hcs. unfold Unpin. unfold bind at 1, gets at 1. rewrite Hcs. cbn.
  repeat (unfold bind, gets, modify, ret, load, store, Create_node); cbn.
  rewrite lookup_insert_eq. cbn. rewrite Hcs, insert_insert_eq. reflexivity.
Qed.

Lemma sample_ring_reached :
  exec (run_ops [OpUnpin 0; OpUnpin 1; OpUnpin 2; OpPin 0]) (Clock.new 4)
  = Ok sample_ring.
Proof. vm_compute. reflexivity. Qed.

Lemma sample_ring_intact :
  achain (heap sample_ring) (Some 0%nat) sample_nodes (Some 0%nat).
Proof.
  unfold sample_nodes.
  repeat (constructor; [vm_compute; reflexivity|]). constructor.
Qed.

Lemma sample_nodes_distinct : NoDup sample_nodes.*1.
Proof. apply (bool_decide_unpack _). vm_compute. exact I. Qed.

(** X1. Pin of a frame that is not in the ring changes nothing: when the
    clock_size nodes the search visits from head do not carry the frame
    (in particular when the replacer is empty), Pin returns and the
    replacer is as before. *)
Theorem Pin_unknown_frame_is_noop r al q f :
  achain (heap r) (head_ r) al q ->
  length al = Z.to_nat (clock_size_ r) ->
  unknown_frame f al ->
  Pin f r = Ok (tt, r).
Proof.
  intros Hc Hlen Hun. unfold Pin. unfold bind at 1, gets at 1.
  destruct (clock_size_ r =? 0); [reflexivity|].
  unfold bind at 1, gets at 1. unfold bind at 1.
  rewrite (search_loop_unknown al r _ f (head_ r) q None Hc); auto.
Qed.

Lemma Pin_unknown_frame_is_noop_witness :
  unknown_frame 7 sample_nodes /\ Pin 7 sample_ring = Ok (tt, sample_ring).
Proof.
  assert (Hun : unknown_frame 7 sample_nodes).
  { unfold unknown_frame, sample_nodes.
    repeat (apply Forall_cons; split; [cbn; lia|]). constructor. }
  split; [exact Hun|].
  apply (Pin_unknown_frame_is_noop sample_ring sample_nodes (Some 0%nat) 7).
  - exact sample_ring_intact.
  - reflexivity.
  - exact Hun.
Defined.

(** X2. Pin of a frame that is in the ring sets the pin flag and the refer
    flag of the first node that carries it, and increments pin_size,
    whether or not the node was pinned before; nothing else changes. *)
Theorem Pin_known_frame r al q f a nd :
  achain (heap r) (head_ r) al q ->
  (length al <= Z.to_nat (clock_size_ r))%nat ->
  first_with_frame f al a nd ->
  Pin f r =
    Ok (tt, with_pin_size (size_t_wrap (pin_size_ r + 1))
              (with_heap (<[a := mkListNode true true (frame_id_ nd) (next_ nd)]>
                            (heap r)) r)).
Proof.
  intros Hc Hlen (l1 & l2 & Hal & Hun & Hf).
  assert (Hl1 : (length l1 < Z.to_nat (clock_size_ r))%nat).
  { subst al. rewrite length_app in Hlen. cbn in Hlen. lia. }
  apply (Pin_found r f a nd (last_ptr l1 None)).
  - lia.
  - eapply search_loop_first; eauto.
  - subst al. eapply achain_middle; eauto.
Qed.

Lemma Pin_known_frame_witness :
  first_with_frame 1 sample_nodes 1%nat (mkListNode false true 1 (Some 2%nat)) /\
  Pin 1 sample_ring =
    Ok (tt, with_pin_size 2
              (with_heap (<[1%nat := mkListNode true true 1 (Some 2%nat)]>
                            (heap sample_ring)) sample_ring)).
Proof.
  assert (Hfirst : first_with_frame 1 sample_nodes 1%nat
                     (mkListNode false true 1 (Some 2%nat))).
  { exists [(0%nat, mkListNode true true 0 (Some 1%nat))],
           [(2%nat, mkListNode false true 2 (Some 0%nat))].
    split; [reflexivity|]. split; [|reflexivity].
    apply Forall_cons. split; [cbn; lia | constructor]. }
  split; [exact Hfirst|].
  apply (Pin_known_frame sample_ring sample_nodes (Some 0%nat) 1 1%nat
           (mkListNode false true 1 (Some 2%nat))).
  - exact sample_ring_intact.
  - cbn. lia.
  - exact Hfirst.
Defined.

(** X3. Unpin of a frame that is in the ring clears the pin flag of the
    first node that carries it and decrements pin_size if that node is
    pinned, and changes nothing at all if it is not; the refer flag is not
    touched. *)
Theorem Unpin_known_frame r al q f a nd :
  achain (heap r) (head_ r) al q ->
  (length al <= Z.to_nat (clock_size_ r))%nat ->
  first_with_frame f al a nd ->
  Unpin f r =
    Ok (tt, if pin_ nd
            then with_pin_size (size_t_wrap (pin_size_ r - 1))
                   (with_heap (<[a := set_pin false nd]> (heap r)) r)
            else r).
Proof.
  intros Hc Hlen (l1 & l2 & Hal & Hun & Hf).
  assert (Hl1 : (length l1 < Z.to_nat (clock_size_ r))%nat).
  { subst al. rewrite length_app in Hlen. cbn in Hlen. lia. }
  unfold Unpin. unfold bind at 1, gets at 1.
  destruct (clock_size_ r =? 0) eqn:E; [lia|].
  unfold bind at 1, gets at 1. unfold bind at 1.
  rewrite (search_loop_first al r _ f (head_ r) q None a nd l1 l2); auto.
  assert (Ha : heap r !! a = Some nd) by (subst al; eapply achain_middle; eauto).
  unfold bind at 1, load at 1. rewrite Ha.
  destruct (pin_ nd); [|reflexivity].
  unfold store, bind, load, modify. now rewrite Ha.
Qed.

Lemma Unpin_known_frame_witness :
  first_with_frame 0 sample_nodes 0%nat (mkListNode true true 0 (Some 1%nat)) /\
  Unpin 0 sample_ring =
    Ok (tt, with_pin_size 0
              (with_heap (<[0%nat := mkListNode false true 0 (Some 1%nat)]>
                            (heap sample_ring)) sample_ring)).
Proof.
  assert (Hfirst : first_with_frame 0 sample_nodes 0%nat
                     (mkListNode true true 0 (Some 1%nat))).
  { exists [], [(1%nat, mkListNode false true 1 (Some 2%nat));
                (2%nat, mkListNode false true 2 (Some 0%nat))].
    split; [reflexivity|]. split; [constructor | reflexivity]. }
  split; [exact Hfirst|].
  apply (Unpin_known_frame sample_ring sample_nodes (Some 0%nat) 0 0%nat
           (mkListNode true true 0 (Some 1%nat))).
  - exact sample_ring_intact.
  - cbn. lia.
  - exact Hfirst.
Defined.

(** X4. Unpin of a frame that is not in the ring, when there is room
    (clock_size < capacity), appends a descriptor for it behind the last
    node of the ring: unpinned, with the refer flag set, linked back to
    head; tail points to it and clock_size is incremented.  The ring stays
    a ring of distinct nodes, and the hand is not moved. *)
Theorem Unpin_unknown_frame_appends r al a nd f :
  achain (heap r) (head_ r) (al ++ [(a, nd)]) (head_ r) ->
  NoDup ((al ++ [(a, nd)]).*1) ->
  length (al ++ [(a, nd)]) = Z.to_nat (clock_size_ r) ->
  unknown_frame f (al ++ [(a, nd)]) ->
  clock_size_ r < capacity_ r ->
  heap r !! brk r = None ->
  let new_node := mkListNode false true f (head_ r) in
  let last_node := set_next (Some (brk r)) nd in
  let r' := mkClockReplacer
              (<[a := last_node]> (<[brk r := new_node]> (heap r)))
              (S (brk r)) (capacity_ r) (size_t_wrap (clock_size_ r + 1))
              (pin_size_ r) (head_ r) (Some (brk r)) (current_ r) in
  Unpin f r = Ok (tt, r') /\
  achain (heap r') (head_ r')
         (al ++ [(a, last_node); (brk r, new_node)]) (head_ r') /\
  NoDup ((al ++ [(a, last_node); (brk r, new_node)]).*1).
Proof.
  intros Hc Hnd Hlen Hun Hroom Hfresh new_node last_node r'.
  assert (Hcs : clock_size_ r <> 0).
  { rewrite length_app in Hlen. cbn in Hlen. lia. }
  destruct (achain_app_inv _ _ _ _ _ Hc) as (q & Hc1 & Hc2).
  inversion Hc2 as [|a' nd' al' q' Ha Hnil]; subst. inversion Hnil; subst.
  assert (Hab : a <> brk r) by congruence.
  rewrite fmap_app in Hnd. cbn in Hnd.
  apply NoDup_app in Hnd as (Hnd1 & Hnd2 & _).
  assert (Ha1 : a ∉ al.*1).
  { intros Hin. apply (Hnd2 a Hin). now left. }
  assert (Hb1 : brk r ∉ al.*1).
  { intros Hin. destruct (achain_live _ _ _ _ _ Hc1 Hin) as [x Hx]. congruence. }
  split; [|split].
  - apply Unpin_not_found; auto.
    rewrite (search_loop_unknown _ r _ f (head_ r) (head_ r) None Hc); auto.
    unfold last_ptr. now rewrite last_snoc.
  - cbn. eapply achain_app.
    + apply achain_insert_fresh; [|exact Ha1].
      apply achain_insert_fresh; [exact Hc1 | exact Hb1].
    + constructor; [apply lookup_insert_eq|]. cbn.
      constructor; [|cbn; constructor].
      rewrite lookup_insert_ne by congruence. apply lookup_insert_eq.
  - rewrite fmap_app. cbn. apply NoDup_app. split; [exact Hnd1|]. split.
    + intros x Hx Hin. apply elem_of_cons in Hin as [-> | Hin]; [auto|].
      apply list_elem_of_singleton in Hin as ->. auto.
    + apply NoDup_cons. split; [|apply NoDup_singleton].
      intros Hin. apply list_elem_of_singleton in Hin. congruence.
Qed.

Lemma Unpin_unknown_frame_appends_witness :
  unknown_frame 3 sample_nodes /\
  Unpin 3 sample_ring =
    Ok (tt, mkClockReplacer
              {[0%nat := mkListNode true true 0 (Some 1%nat);
                1%nat := mkListNode false true 1 (Some 2%nat);
                2%nat := mkListNode false true 2 (Some 3%nat);
                3%nat := mkListNode false true 3 (Some 0%nat)]}
              4 4 4 1 (Some 0%nat) (Some 3%nat) (Some 0%nat)).
Proof.
  assert (Hun : unknown_frame 3 sample_nodes).
  { unfold unknown_frame, sample_nodes.
    repeat (apply Forall_cons; split; [cbn; lia|]). constructor. }
  split; [exact Hun|].
  destruct (Unpin_unknown_frame_appends sample_ring
              [(0%nat, mkListNode true true 0 (Some 1%nat));
               (1%nat, mkListNode false true 1 (Some 2%nat))]
              2%nat (mkListNode false true 2 (Some 0%nat)) 3)
    as [Hrun _].
  - exact sample_ring_intact.
  - exact sample_nodes_distinct.
  - reflexivity.
  - exact Hun.
  - cbn. lia.
  - reflexivity.
  - rewrite Hrun. vm_compute. reflexivity.
Defined.

(** X5. Unpin of a frame that is not in the ring throws when the replacer
    is full (clock_size >= capacity) and not empty: no descriptor is
    evacuated to make room.  (An empty replacer takes the clock_size == 0
    branch, which adds the node without looking at the capacity.) *)
Theorem Unpin_unknown_frame_full_throws r al q f :
  clock_size_ r <> 0 ->
  achain (heap r) (head_ r) al q ->
  length al = Z.to_nat (clock_size_ r) ->
  unknown_frame f al ->
  capacity_ r <= clock_size_ r ->
  Unpin f r = Fault Thrown.
Proof.
  intros Hcs Hc Hlen Hun Hcap. unfold Unpin. unfold bind at 1, gets at 1.
  destruct (clock_size_ r =? 0) eqn:E; [lia|].
  unfold bind at 1, gets at 1. unfold bind at 1.
  rewrite (search_loop_unknown al r _ f (head_ r) q None Hc); auto.
  unfold bind, gets. destruct (clock_size_ r <? capacity_ r) eqn:E2; [lia|].
  reflexivity.
Qed.

Lemma Unpin_unknown_frame_full_throws_witness :
  capacity_ (replacer_ one_page_pool) <= clock_size_ (replacer_ one_page_pool) /\
  Unpin 1 (replacer_ one_page_pool) = Fault Thrown.
Proof.
  split; [cbn; lia|].
  apply (Unpin_unknown_frame_full_throws (replacer_ one_page_pool)
           [(0%nat, mkListNode true true 0 (Some 0%nat))] (Some 0%nat) 1).
  - cbn. lia.
  - constructor; [vm_compute; reflexivity | constructor].
  - reflexivity.
  - apply Forall_cons. split; [cbn; lia | constructor].
  - cbn. lia.
Defined.

(** ** Victim on the smallest rings *)

(** Unlinking the last node of the ring. *)
Lemma victim_unlink_last h a nd pre0 b cap ps hd t cur :
  h !! a = Some nd ->
  victim_unlink (Some a) pre0 (mkClockReplacer h b cap 1 ps hd t cur) =
    Ok (frame_id_ nd, mkClockReplacer (delete a h) b cap 0 ps None None None).
Proof.
  intros Ha. unfold victim_unlink.
  repeat (unfold bind, gets, modify, ret, load, store, free, ptr_eqb); cbn.
  rewrite bool_decide_eq_false_2 by discriminate.
  repeat (cbn; first [rewrite Ha | rewrite lookup_insert_eq]).
  cbn. now rewrite delete_insert_eq.
Qed.

(** [Victim] on a ring of one unpinned node. *)
Lemma Victim_single_node h a b cap ps t f refer :
  f < INT_MAX ->
  Victim (mkClockReplacer (<[a := mkListNode false refer f (Some a)]> h)
                          b cap 1 ps (Some a) t (Some a)) =
    Ok (Some f, mkClockReplacer (delete a h) b cap 0 ps None None None).
Proof.
  intros Hf. apply Z.ltb_lt in Hf.
  unfold Victim. unfold bind at 1, gets at 1. cbn [head_].
  unfold bind at 1, gets at 1. cbn [clock_size_].
  change (Z.to_nat 1) with 1%nat. unfold bind at 1. cbn [victim_loop].
  unfold bind at 1, gets at 1. cbn [current_].
  unfold bind at 1, load at 1. cbn [heap]. rewrite lookup_insert_eq.
  cbn [pin_ refer_ frame_id_ next_]. destruct refer; cbn [negb].
  - unfold bind at 1, store at 1, bind at 1, load at 1. cbn [heap].
    rewrite lookup_insert_eq. unfold modify at 1.
    unfold bind at 1, modify at 1. unfold ret at 1.
    cbn [min_frame_id walk0]. rewrite Hf. unfold bind.
    cbn [target min_frame min_pre pre walk0].
    unfold with_current, with_heap.
    cbn [heap brk capacity_ clock_size_ pin_size_ head_ tail_ current_].
    erewrite victim_unlink_last by apply lookup_insert_eq.
    unfold ret. cbn [frame_id_ set_refer].
    now rewrite !insert_insert_eq, delete_insert_eq.
  - unfold ret at 1. unfold bind.
    cbn [target min_frame min_pre pre walk0].
    erewrite victim_unlink_last by apply lookup_insert_eq.
    unfold ret. cbn [frame_id_]. now rewrite delete_insert_eq.
Qed.

(** X6. A frame that enters an empty replacer is its next victim: Unpin
    creates the one-node ring without looking at the capacity, and Victim
    returns the frame and leaves the replacer empty again, with head, tail
    and the hand null.  (Frame IDs are below INT_MAX, the initial value of
    the minimum Victim searches for.) *)
Theorem Unpin_then_Victim_on_empty r f :
  clock_size_ r = 0 ->
  f < INT_MAX ->
  (Unpin f ;; Victim) r =
    Ok (Some f,
        mkClockReplacer (delete (brk r) (heap r)) (S (brk r)) (capacity_ r) 0
                        (pin_size_ r) None None None).
Proof.
  intros Hcs Hf. unfold bind. rewrite (Unpin_on_empty r f Hcs).
  now apply Victim_single_node.
Qed.

Lemma Unpin_then_Victim_on_empty_witness :
  (Unpin 2 ;; Victim) (Clock.new 3) =
    Ok (Some 2, mkClockReplacer ∅ 1 3 0 0 None None None).
Proof.
  rewrite (Unpin_then_Victim_on_empty (Clock.new 3) 2);
    [reflexivity | reflexivity | unfold INT_MAX; lia].
Defined.

(** ** Victim never touches frame IDs and pin flags *)

Section KeepsIdentities.

Variable G : nat -> option (Z * bool).
Variables cs ps cap : Z.

Lemma identities_load p : preserves (keeps_identities G cs ps cap) (load p).
Proof.
  intros r nd r' HJ. unfold load. destruct p as [a|]; [|discriminate].
  destruct (heap r !! a); [|discriminate]. now intros [= _ <-].
Qed.

Lemma identities_store p g :
  (forall nd, identity (g nd) = identity nd) ->
  preserves (keeps_identities G cs ps cap) (store p g).
Proof.
  intros Hg r u r' (HG & H1 & H2 & H3). unfold store, bind, load.
  destruct p as [a|]; [|discriminate].
  destruct (heap r !! a) as [nd|] eqn:Ha; [|discriminate].
  unfold modify. intros Heq. injection Heq as _ <-.
  split; [|now cbn]. intros a'. cbn. rewrite lookup_insert. case_decide as E.
  - subst a'. cbn. rewrite Hg, <- HG, Ha. reflexivity.
  - apply HG.
Qed.

Lemma identities_modify upd :
  (forall r, heap (upd r) = heap r /\ clock_size_ (upd r) = clock_size_ r /\
             pin_size_ (upd r) = pin_size_ r /\
             capacity_ (upd r) = capacity_ r) ->
  preserves (keeps_identities G cs ps cap) (modify upd).
Proof.
  intros Hu. apply preserves_modify. intros r (HG & H1 & H2 & H3).
  destruct (Hu r) as (E0 & E1 & E2 & E3).
  split; [intros a; rewrite E0; apply HG | split; [|split]; congruence].
Qed.

Ltac identities :=
  repeat first
    [ apply preserves_ret | apply preserves_gets | apply preserves_fail
    | apply identities_load
    | apply identities_store; reflexivity
    | apply identities_modify; intros ?; repeat split; reflexivity
    | apply preserves_bind; [|intros ?]
    | match goal with
      | |- preserves _ (if ?c then _ else _) => destruct c
      | |- preserves _ (match ?x with _ => _ end) => destruct x
      end ].

(** The pointers the loop of [Victim] selects point to unpinned nodes. *)
Lemma identities_victim_loop k : forall w r w' r',
  keeps_identities G cs ps cap r ->
  unpinned_in G (target w) -> unpinned_in G (min_frame w) ->
  victim_loop k w r = Ok (w', r') ->
  keeps_identities G cs ps cap r' /\
  unpinned_in G (target w') /\ unpinned_in G (min_frame w').
Proof.
  induction k as [|k IH]; intros w r w' r' HJ Ht Hm H; cbn [victim_loop] in H.
  { injection H as <- <-. auto. }
  apply bind_Ok in H as (cur & s0 & H0 & H). injection H0 as <- <-.
  destruct (current_ r) as [a|] eqn:Ecur; [|injection H as <- <-; auto].
  apply bind_Ok in H as (nd & s1 & H1 & H).
  unfold load in H1. destruct (heap r !! a) as [nd'|] eqn:Ha; [|discriminate].
  injection H1 as -> <-.
  assert (Hid : G a = Some (frame_id_ nd, pin_ nd)).
  { destruct HJ as [HG _]. rewrite <- HG, Ha. reflexivity. }
  destruct (pin_ nd) eqn:Epin.
  { apply bind_Ok in H as (u & s2 & H2 & H).
    eapply IH; [| | |exact H]; auto.
    assert (Hp : preserves (keeps_identities G cs ps cap)
                   (modify (with_current (next_ nd)))) by identities.
    eapply Hp; eauto. }
  destruct (refer_ nd) eqn:Eref; cbn [negb] in H.
  2:{ injection H as <- <-. cbn. eauto. }
  apply bind_Ok in H as (u & s2 & H2 & H).
  apply bind_Ok in H as (u' & s3 & H3 & H).
  assert (HJ3 : keeps_identities G cs ps cap s3).
  { assert (Hp : preserves (keeps_identities G cs ps cap)
                   (modify (with_current (next_ nd)))) by identities.
    eapply Hp; [|exact H3].
    assert (Hq : preserves (keeps_identities G cs ps cap)
                   (store (Some a) (set_refer false))) by identities.
    eapply Hq; eauto. }
  eapply IH; [exact HJ3 | | | exact H];
    destruct (frame_id_ nd <? min_frame_id w); cbn; eauto.
Qed.

(** [victim_unlink] frees the node it is given, returns the frame ID stored
    in it and decrements [clock_size_]; the other nodes keep their
    identities. *)
Lemma identities_victim_unlink r a pre0 fid r' :
  keeps_identities G cs ps cap r ->
  victim_unlink (Some a) pre0 r = Ok (fid, r') ->
  (exists pin, G a = Some (fid, pin)) /\
  heap r' !! a = None /\
  (forall a', a' <> a -> identity <$> heap r' !! a' = G a') /\
  clock_size_ r' = size_t_wrap (cs - 1) /\ pin_size_ r' = ps /\
  capacity_ r' = cap.
Proof.
  intros HJ H. unfold victim_unlink in H.
  apply bind_Ok in H as (cs0 & s1 & H1 & H). injection H1 as <- <-.
  apply bind_Ok in H as (u2 & s2 & H2 & H).
  assert (HJ2 : keeps_identities G cs ps cap s2).
  { revert H2. match goal with |- ?m r = _ -> _ =>
      assert (Hm : preserves (keeps_identities G cs ps cap) m)
        by identities end.
    intros H2. eapply Hm; eauto. }
  apply bind_Ok in H as (cur & s3 & H3 & H). injection H3 as <- <-.
  apply bind_Ok in H as (u4 & s4 & H4 & H).
  assert (HJ4 : keeps_identities G cs ps cap s4).
  { revert H4. match goal with |- ?m s2 = _ -> _ =>
      assert (Hm : preserves (keeps_identities G cs ps cap) m)
        by identities end.
    intros H4. eapply Hm; eauto. }
  apply bind_Ok in H as (t & s5 & H5 & H).
  unfold load in H5. destruct (heap s4 !! a) as [nd|] eqn:Ha; [|discriminate].
  injection H5 as -> <-.
  apply bind_Ok in H as (u6 & s6 & H6 & H).
  assert (HJ6 : keeps_identities G cs ps cap s6).
  { assert (Hm : preserves (keeps_identities G cs ps cap)
                   (store (Some a) (set_next None))) by identities.
    eapply Hm; eauto. }
  apply bind_Ok in H as (u7 & s7 & H7 & H).
  apply bind_Ok in H as (u8 & s8 & H8 & H).
  injection H as <- <-. injection H8 as _ <-.
  unfold free, bind, load in H7.
  destruct (heap s6 !! a) as [nd6|] eqn:Ha6; [|discriminate].
  injection H7 as _ <-.
  destruct HJ4 as (HG4 & _). destruct HJ6 as (HG6 & E1 & E2 & E3).
  cbn. split; [|split; [|split]].
  - exists (pin_ t). rewrite <- HG4, Ha. reflexivity.
  - apply lookup_delete_eq.
  - intros a' Hne. rewrite lookup_delete_ne by congruence. apply HG6.
  - rewrite E1. auto.
Qed.

End KeepsIdentities.

(** X7. Victim never evicts a pinned frame, in any state of the replacer:
    whenever it returns true, the frame it reports is the frame of a node
    that was unpinned, that node is freed, clock_size is decremented, and
    every other node keeps its frame ID and its pin flag; whenever it
    returns false, no node is freed and clock_size is unchanged.  pin_size
    and capacity are never changed. *)
Theorem Victim_removes_one_unpinned_node r v r' :
  Victim r = Ok (v, r') ->
  pin_size_ r' = pin_size_ r /\ capacity_ r' = capacity_ r /\
  match v with
  | Some f =>
    exists a nd,
      heap r !! a = Some nd /\ frame_id_ nd = f /\ pin_ nd = false /\
      heap r' !! a = None /\
      (forall a', a' <> a ->
         identity <$> heap r' !! a' = identity <$> heap r !! a') /\
      clock_size_ r' = size_t_wrap (clock_size_ r - 1)
  | None =>
    (forall a, identity <$> heap r' !! a = identity <$> heap r !! a) /\
    clock_size_ r' = clock_size_ r
  end.
Proof.
  intros H. unfold Victim in H.
  apply bind_Ok in H as (h & s0 & H0 & H). injection H0 as <- <-.
  destruct (head_ r); [|injection H as <- <-; repeat split; reflexivity].
  apply bind_Ok in H as (cs & s1 & H1 & H). injection H1 as <- <-.
  apply bind_Ok in H as (w & s2 & Hloop & H).
  set (G := fun a => identity <$> heap r !! a).
  assert (HJ : keeps_identities G (clock_size_ r) (pin_size_ r) (capacity_ r) r)
    by (repeat split).
  destruct (identities_victim_loop G _ _ _ _ walk0 r w s2 HJ I I Hloop)
    as (HJ2 & Ht & Hm).
  assert (Hgo : forall a pre0,
            unpinned_in G (Some a) ->
            bind (victim_unlink (Some a) pre0) (fun fid => ret (Some fid)) s2
              = Ok (v, r') ->
            pin_size_ r' = pin_size_ r /\ capacity_ r' = capacity_ r /\
            match v with
            | Some f =>
              exists a nd,
                heap r !! a = Some nd /\ frame_id_ nd = f /\ pin_ nd = false /\
                heap r' !! a = None /\
                (forall a', a' <> a ->
                   identity <$> heap r' !! a' = identity <$> heap r !! a') /\
                clock_size_ r' = size_t_wrap (clock_size_ r - 1)
            | None =>
              (forall a, identity <$> heap r' !! a = identity <$> heap r !! a) /\
              clock_size_ r' = clock_size_ r
            end).
  { intros a pre0 [f Hf] Hb. apply bind_Ok in Hb as (y & s3 & Hu & Hb).
    injection Hb as <- <-.
    destruct (identities_victim_unlink G _ _ _ s2 a pre0 y s3 HJ2 Hu)
      as ([pin Hy] & Hgone & Hrest & E1 & E2 & E3).
    split; [exact E2 | split; [exact E3|]].
    unfold G in Hf, Hy. destruct (heap r !! a) as [nd|] eqn:Ha; [|discriminate].
    cbn in Hf, Hy. injection Hf as Hf1 Hf2. injection Hy as Hy1 Hy2.
    exists a, nd. repeat split; auto. }
  destruct (target w) as [a|] eqn:Etw.
  { destruct (min_frame w); cbn in H; exact (Hgo a _ Ht H). }
  destruct (min_frame w) as [a|] eqn:Emw; cbn in H; [exact (Hgo a _ Hm H)|].
  injection H as <- <-. destruct HJ2 as (HG2 & E1 & E2 & E3). auto.
Qed.

Lemma Victim_removes_one_unpinned_node_witness :
  Victim sample_ring = Ok (Some 1, sample_ring_without_1) /\
  exists a nd,
    heap sample_ring !! a = Some nd /\ frame_id_ nd = 1 /\ pin_ nd = false /\
    heap sample_ring_without_1 !! a = None /\
    (forall a', a' <> a ->
       identity <$> heap sample_ring_without_1 !! a'
       = identity <$> heap sample_ring !! a') /\
    clock_size_ sample_ring_without_1
    = size_t_wrap (clock_size_ sample_ring - 1).
Proof.
  assert (H : Victim sample_ring = Ok (Some 1, sample_ring_without_1))
    by (vm_compute; reflexivity).
  split; [exact H|].
  exact (proj2 (proj2 (Victim_removes_one_unpinned_node
                         sample_ring (Some 1) sample_ring_without_1 H))).
Defined.

(** X8. On an intact ring (one turn from the hand over clock_size distinct
    nodes, back to the hand) whose head and, when it has more than one
    node, tail point to live nodes, Victim returns, and its result is the
    frame the clock policy prescribes: the first unpinned node with
    refer == false, else an unpinned node with the least frame ID, else
    none; when every node is pinned it returns false and leaves the
    replacer exactly as it was. *)
Theorem Victim_on_intact_ring r al :
  (exists h, head_ r = Some h /\ is_Some (heap r !! h)) ->
  (clock_size_ r <> 1 -> exists t, tail_ r = Some t /\ is_Some (heap r !! t)) ->
  achain (heap r) (current_ r) al (current_ r) ->
  NoDup al.*1 ->
  length al = Z.to_nat (clock_size_ r) ->
  Forall (fun nd => frame_id_ nd < INT_MAX) al.*2 ->
  exists v r',
    Victim r = Ok (v, r') /\
    clock_choice al.*2 v /\
    (v = None -> r' = r).
Proof.
  intros Hhead Htail Hc Hnd Hlen Hmax.
  destruct (Victim_returns r al (current_ r) Hhead Htail Hc Hnd Hlen)
    as (v & r' & Hv).
  assert (Hchoice : clock_choice al.*2 v).
  { eapply Victim_choice; eauto.
    destruct Hhead as (h & Hh & _). congruence. }
  exists v, r'. split; [exact Hv|]. split; [exact Hchoice|].
  intros ->. cbn in Hchoice.
  rewrite (Victim_all_pinned r al.*2) in Hv.
  - congruence.
  - now apply achain_chain.
  - now rewrite length_fmap.
  - exact Hchoice.
Qed.

Lemma Victim_on_intact_ring_witness :
  achain (heap sample_ring) (current_ sample_ring) sample_nodes
         (current_ sample_ring) /\
  exists v r',
    Victim sample_ring = Ok (v, r') /\
    clock_choice sample_nodes.*2 v /\
    (v = None -> r' = sample_ring).
Proof.
  split; [exact sample_ring_intact|].
  apply (Victim_on_intact_ring sample_ring sample_nodes).
  - exists 0%nat. split; [reflexivity | eexists; vm_compute; reflexivity].
  - intros _. exists 2%nat.
    split; [reflexivity | eexists; vm_compute; reflexivity].
  - exact sample_ring_intact.
  - exact sample_nodes_distinct.
  - reflexivity.
  - unfold sample_nodes, INT_MAX.
    repeat (apply Forall_cons; split; [cbn; lia|]). constructor.
Defined.

(** ** Where Victim leaves the ring in order *)

Lemma same_but_refer_refl h : same_but_refer h h.
Proof. intros a. reflexivity. Qed.

Lemma achain_alike h h' p al q :
  same_but_refer h h' -> achain h p al q ->
  exists al', achain h' p al' q /\ alike al al'.
Proof.
  intros Hs. induction 1 as [|a nd al q Ha Hc (al' & Hc' & Hal)].
  - exists []. split; constructor.
  - pose proof (Hs a) as Hsa. rewrite Ha in Hsa. cbn in Hsa.
    destruct (h' !! a) as [nd'|] eqn:Ha'; [|discriminate].
    cbn in Hsa. injection Hsa as Hf Hp Hn.
    exists ((a, nd') :: al'). split.
    + constructor; [exact Ha'|]. now rewrite Hn.
    + constructor; [|exact Hal]. cbn. unfold links.
      split; [reflexivity|]. congruence.
Qed.

(** The loop of [Victim] on distinct nodes: it computes [scan] and changes
    refer flags only. *)
Lemma victim_loop_links al : forall r w q,
  achain (heap r) (current_ r) al q ->
  NoDup al.*1 ->
  exists r', victim_loop (length al) w r = Ok (scan al w, r') /\
             same_but_refer (heap r) (heap r') /\
             brk r' = brk r /\ capacity_ r' = capacity_ r /\
             clock_size_ r' = clock_size_ r /\ pin_size_ r' = pin_size_ r /\
             head_ r' = head_ r /\ tail_ r' = tail_ r.
Proof.
  induction al as [|[a nd] al IH]; intros r w q Hc Hnd.
  - exists r. split; [reflexivity|]. split; [apply same_but_refer_refl|].
    repeat split.
  - inversion Hc as [|a' nd' al' q' Ha Hrest Hcur]; subst.
    apply NoDup_cons in Hnd as [Hfresh Hnd].
    cbn [length victim_loop scan]. unfold bind at 1, gets at 1.
    rewrite <- Hcur. unfold bind at 1, load at 1. rewrite Ha.
    destruct (pin_ nd).
    { unfold bind at 1, modify at 1.
      match goal with |- exists _, victim_loop _ ?w1 ?r1 = _ /\ _ =>
        destruct (IH r1 w1 q) as (r' & Hl & Hs & H1 & H2 & H3 & H4 & H5 & H6);
          [assumption..|]
      end.
      exists r'. split; [exact Hl|]. split; [exact Hs|]. repeat split; auto. }
    destruct (refer_ nd); cbn [negb].
    2:{ exists r. split; [reflexivity|]. split; [apply same_but_refer_refl|].
        repeat split. }
    unfold bind at 1, store at 1, bind at 1, load at 1. rewrite Ha.
    unfold modify at 1. unfold bind at 1, modify at 1.
    match goal with |- exists _, victim_loop _ ?w1 ?r1 = _ /\ _ =>
      destruct (IH r1 w1 q) as (r' & Hl & Hs & H1 & H2 & H3 & H4 & H5 & H6)
    end.
    + cbn. now apply achain_insert_fresh.
    + assumption.
    + exists r'. split; [exact Hl|]. split; [|repeat split; auto].
      intros a'. rewrite Hs. cbn.
      destruct (decide (a = a')) as [<-|Hne].
      * now rewrite lookup_insert_eq, Ha.
      * now rewrite lookup_insert_ne.
Qed.

(** Where [scan] finds its two candidates, and what it leaves in [pre] and
    [min_pre]: the predecessor on the walk. *)
Lemma scan_positions al : forall w,
  (target (scan al w) = target w \/
   exists l1 a nd l2,
     al = l1 ++ (a, nd) :: l2 /\ pin_ nd = false /\
     target (scan al w) = Some a /\
     pre (scan al w) = last_ptr l1 (pre w)) /\
  ((min_frame (scan al w) = min_frame w /\ min_pre (scan al w) = min_pre w) \/
   exists l1 a nd l2,
     al = l1 ++ (a, nd) :: l2 /\ pin_ nd = false /\
     min_frame (scan al w) = Some a /\
     min_pre (scan al w) = last_ptr l1 (pre w)).
Proof.
  induction al as [|[a nd] al IH]; intros w; [cbn; auto|].
  cbn [scan]. destruct (pin_ nd) eqn:Epin.
  { destruct (IH (mkWalk (target w) (Some a) (min_pre w) (min_frame w)
                         (min_frame_id w))) as [Ht Hm].
    cbn [target pre min_pre min_frame] in *. split.
    - destruct Ht as [Ht | (l1 & a' & nd' & l2 & -> & Hu & Ht & Hp)];
        [now left|].
      right. exists ((a, nd) :: l1), a', nd', l2.
      split; [reflexivity|]. split; [exact Hu|]. split; [exact Ht|].
      now rewrite last_ptr_cons.
    - destruct Hm as [Hm | (l1 & a' & nd' & l2 & -> & Hu & Hm & Hp)];
        [now left|].
      right. exists ((a, nd) :: l1), a', nd', l2.
      split; [reflexivity|]. split; [exact Hu|]. split; [exact Hm|].
      now rewrite last_ptr_cons. }
  destruct (refer_ nd); cbn [negb].
  2:{ cbn. split; [|now left]. right. exists [], a, nd, al. auto. }
  set (w' := if frame_id_ nd <? min_frame_id w then _ else w).
  destruct (IH (mkWalk (target w') (Some a) (min_pre w') (min_frame w')
                       (min_frame_id w'))) as [Ht Hm].
  cbn [target pre min_pre min_frame] in *.
  assert (Htw : target w' = target w)
    by (subst w'; now destruct (frame_id_ nd <? min_frame_id w)).
  split.
  - destruct Ht as [Ht | (l1 & a' & nd' & l2 & -> & Hu & Ht & Hp)];
      [left; congruence|].
    right. exists ((a, nd) :: l1), a', nd', l2.
    split; [reflexivity|]. split; [exact Hu|]. split; [exact Ht|].
    now rewrite last_ptr_cons.
  - destruct Hm as [[Hm Hmp] | (l1 & a' & nd' & l2 & -> & Hu & Hm & Hp)].
    + subst w'. destruct (frame_id_ nd <? min_frame_id w);
        cbn [min_frame min_pre] in *; [|now left].
      right. exists [], a, nd, al. auto.
    + right. exists ((a, nd) :: l1), a', nd', l2.
      split; [reflexivity|]. split; [exact Hu|]. split; [exact Hm|].
      now rewrite last_ptr_cons.
Qed.

(** The node [Victim] goes on to unlink, and the predecessor it has
    recorded for it: the node before it on the walk, null for the first. *)
Lemma scan_unlinks al a pre0 :
  (match target (scan al walk0), min_frame (scan al walk0) with
   | None, Some _ => (min_frame (scan al walk0), min_pre (scan al walk0))
   | _, _ => (target (scan al walk0), pre (scan al walk0))
   end) = (Some a, pre0) ->
  exists l1 nd l2,
    al = l1 ++ (a, nd) :: l2 /\ pin_ nd = false /\ pre0 = last_ptr l1 None.
Proof.
  destruct (scan_positions al walk0) as [Ht Hm]. cbn [target pre walk0] in *.
  cbn [min_frame min_pre] in Hm.
  destruct (target (scan al walk0)) as [t|] eqn:Et.
  - intros [= -> <-].
    destruct Ht as [Ht | (l1 & a' & nd & l2 & -> & Hu & [= ->] & Hp)];
      [discriminate|].
    now exists l1, nd, l2.
  - destruct (min_frame (scan al walk0)) as [m|] eqn:Em; [|discriminate].
    intros [= -> <-].
    destruct Hm as [[Hm _] | (l1 & a' & nd & l2 & -> & Hu & [= ->] & Hp)];
      [discriminate|].
    now exists l1, nd, l2.
Qed.

Lemma alike_fst al al' : alike al al' -> al'.*1 = al.*1.
Proof. induction 1 as [|x y l l' [H1 _]]; cbn; congruence. Qed.

Lemma alike_identity al al' :
  alike al al' -> identity <$> al'.*2 = identity <$> al.*2.
Proof.
  induction 1 as [|x y l l' [_ H2] _ IH]; cbn; [reflexivity|].
  unfold links in H2. injection H2 as Hf Hp _.
  unfold identity at 1 3. congruence.
Qed.

Lemma achain_delete h p al q a :
  achain h p al q -> a ∉ al.*1 -> achain (delete a h) p al q.
Proof.
  induction 1 as [|a' nd' al q Ha Hc IH]; intros Hnot.
  - constructor.
  - cbn in Hnot. apply not_elem_of_cons in Hnot as [Hne Hnot].
    constructor; [|auto]. now rewrite lookup_delete_ne.
Qed.

(** Redirecting the last node of a run. *)
Lemma achain_set_last h p l x nx q q' :
  achain h p (l ++ [(x, nx)]) q -> x ∉ l.*1 ->
  achain (<[x := set_next q' nx]> h) p (l ++ [(x, set_next q' nx)]) q'.
Proof.
  intros Hc Hx. apply achain_app_inv in Hc as (s & H1 & H2).
  inversion H2 as [|a' nd' al' q0 Ha Hrest]; subst.
  eapply achain_app; [apply achain_insert_fresh; eassumption|].
  constructor; [apply lookup_insert_eq|]. cbn. constructor.
Qed.

(** Unlinking the head of a ring of several nodes. *)
Lemma victim_unlink_head h a nd tl ntl pre0 b cap cs ps cur :
  cs <> 1 -> h !! a = Some nd -> h !! tl = Some ntl -> tl <> a ->
  victim_unlink (Some a) pre0
      (mkClockReplacer h b cap cs ps (Some a) (Some tl) cur) =
    Ok (frame_id_ nd,
        mkClockReplacer (delete a (<[tl := set_next (next_ nd) ntl]> h))
          b cap (size_t_wrap (cs - 1)) ps (next_ nd) (Some tl)
          (if bool_decide (cur = Some a) then next_ nd else cur)).
Proof.
  intros Hcs Ha Htl Hne. apply Z.eqb_neq in Hcs. unfold victim_unlink.
  unfold bind at 1, gets at 1. cbn [clock_size_]. rewrite Hcs.
  repeat (unfold bind, gets, modify, ret, load, store, free, ptr_eqb); cbn.
  rewrite bool_decide_eq_true_2 by reflexivity. cbn. rewrite Ha. cbn.
  rewrite Htl. cbn.
  destruct (bool_decide (cur = Some a));
    repeat (cbn; first [ rewrite lookup_insert_eq
                       | rewrite lookup_insert_ne by congruence
                       | rewrite Ha ]);
    cbn; now rewrite delete_insert_eq.
Qed.

(** Unlinking a node that has a predecessor on the walk. *)
Lemma victim_unlink_inner h a nd p np hd b cap cs ps t cur :
  cs <> 1 -> hd <> a -> h !! a = Some nd -> h !! p = Some np -> p <> a ->
  victim_unlink (Some a) (Some p)
      (mkClockReplacer h b cap cs ps (Some hd) t cur) =
    Ok (frame_id_ nd,
        mkClockReplacer (delete a (<[p := set_next (next_ nd) np]> h))
          b cap (size_t_wrap (cs - 1)) ps (Some hd) t
          (if bool_decide (cur = Some a) then next_ nd else cur)).
Proof.
  intros Hcs Hhd Ha Hp Hne. apply Z.eqb_neq in Hcs. unfold victim_unlink.
  unfold bind at 1, gets at 1. cbn [clock_size_]. rewrite Hcs.
  repeat (unfold bind, gets, modify, ret, load, store, free, ptr_eqb); cbn.
  rewrite bool_decide_eq_false_2 by congruence. cbn. rewrite Ha. cbn.
  rewrite Hp. cbn.
  destruct (bool_decide (cur = Some a));
    repeat (cbn; first [ rewrite lookup_insert_eq
                       | rewrite lookup_insert_ne by congruence
                       | rewrite Ha ]);
    cbn; now rewrite delete_insert_eq.
Qed.

Lemma alike_app_cons al l1 a nd l2 :
  alike (l1 ++ (a, nd) :: l2) al ->
  exists l1' nd' l2',
    al = l1' ++ (a, nd') :: l2' /\ alike l1 l1' /\ alike l2 l2' /\
    links nd' = links nd.
Proof.
  intros Hal. apply Forall2_app_inv_l in Hal as (l1' & rest & Hal1 & Hal2 & ->).
  apply Forall2_cons_inv_l in Hal2 as ([a' nd'] & l2' & [Ea Hl] & Hal2 & ->).
  cbn in Ea, Hl. subst a'. now exists l1', nd', l2'.
Qed.

Lemma alike_last_ptr al al' : alike al al' ->
  forall p, last_ptr al' p = last_ptr al p.
Proof.
  induction 1 as [|x y l l' [H1 _] _ IH]; intros p; [reflexivity|].
  rewrite !last_ptr_cons, H1. apply IH.
Qed.

Lemma last_ptr_snoc al x p : last_ptr (al ++ [x]) p = Some x.1.
Proof. unfold last_ptr. now rewrite last_snoc. Qed.

Lemma list_snoc_cases {A} (l : list A) :
  l = [] \/ exists l' x, l = l' ++ [x].
Proof. induction l using rev_ind; [now left | right; eauto]. Qed.

(** Unlinking the node [a] of an intact ring listed from its head, with
    the predecessor the walk from the head records, leaves an intact ring
    of the other nodes. *)
Lemma victim_unlink_ring r l1 a nd l2 f r' :
  achain (heap r) (head_ r) (l1 ++ (a, nd) :: l2) (head_ r) ->
  NoDup (l1 ++ (a, nd) :: l2).*1 ->
  length (l1 ++ (a, nd) :: l2) = Z.to_nat (clock_size_ r) ->
  (clock_size_ r <> 1 -> tail_ r = last_ptr (l1 ++ (a, nd) :: l2) None) ->
  clock_size_ r < 2 ^ 64 ->
  victim_unlink (Some a) (last_ptr l1 None) r = Ok (f, r') ->
  f = frame_id_ nd /\
  (exists al',
     achain (heap r') (head_ r') al' (head_ r') /\
     al'.*1 = (l1 ++ l2).*1 /\
     identity <$> al'.*2 = identity <$> (l1 ++ l2).*2 /\
     length al' = Z.to_nat (clock_size_ r')) /\
  clock_size_ r' = clock_size_ r - 1 /\
  brk r' = brk r /\ capacity_ r' = capacity_ r /\
  pin_size_ r' = pin_size_ r /\
  (forall x, heap r !! x = None -> heap r' !! x = None).
Proof.
  intros Hc Hnd Hlen Htail Hmax HV.
  pose proof (achain_middle _ _ _ _ _ _ _ Hc) as Ha.
  destruct r as [h b cap cs ps hd t cur].
  cbn [heap head_ tail_ clock_size_] in *.
  destruct (decide (cs = 1)) as [->|Hcs].
  { (* the last node *)
    rewrite length_app in Hlen. cbn in Hlen.
    destruct l1; [|cbn in Hlen; lia]. destruct l2; [|cbn in Hlen; lia].
    rewrite (victim_unlink_last _ _ _ _ _ _ _ _ _ _ Ha) in HV.
    injection HV as <- <-. split; [reflexivity|]. split.
    2:{ cbn [heap brk capacity_ clock_size_ pin_size_].
        split; [reflexivity|]. split; [reflexivity|]. split; [reflexivity|].
        split; [reflexivity|]. intros x Hx.
        destruct (decide (x = a)) as [->|Hxa]; [apply lookup_delete_eq|].
        rewrite lookup_delete_ne by congruence.
        rewrite ?lookup_insert_ne by congruence. exact Hx. }
    exists []. cbn. repeat split. constructor. }
  specialize (Htail Hcs).
  assert (Hwrap : size_t_wrap (cs - 1) = cs - 1).
  { apply size_t_wrap_id. rewrite length_app in Hlen. cbn in Hlen. lia. }
  destruct (list_snoc_cases l1) as [-> | (l1a & [p np] & ->)].
  - (* the head *)
    cbn [app] in *.
    destruct (list_snoc_cases l2) as [-> | (l2a & [tl ntl] & ->)].
    { cbn in Hlen. lia. }
    rewrite app_comm_cons, last_ptr_snoc in Htail. cbn in Htail. subst t.
    inversion Hc as [|a' nd' al' q' _ Hrest]; subst.
    rewrite fmap_cons, fmap_app in Hnd. cbn in Hnd.
    apply NoDup_cons in Hnd as [Hfresh Hnd].
    apply NoDup_app in Hnd as (_ & Hdis & _).
    assert (Htl : h !! tl = Some ntl).
    { eapply achain_lookup; [exact Hrest|]. apply elem_of_app. right. now left. }
    assert (Hne : tl <> a)
      by (intros ->; apply Hfresh, elem_of_app; right; now left).
    unfold last_ptr in HV. cbn [last] in HV.
    rewrite (victim_unlink_head _ _ _ _ _ _ _ _ _ _ _ Hcs Ha Htl Hne) in HV.
    injection HV as <- <-. split; [reflexivity|]. split.
    2:{ cbn [heap brk capacity_ clock_size_ pin_size_].
        split; [exact Hwrap|]. split; [reflexivity|]. split; [reflexivity|].
        split; [reflexivity|]. intros x Hx.
        destruct (decide (x = a)) as [->|Hxa]; [apply lookup_delete_eq|].
        rewrite lookup_delete_ne by congruence.
        rewrite ?lookup_insert_ne by congruence. exact Hx. }
    exists (l2a ++ [(tl, set_next (next_ nd) ntl)]).
    cbn [heap head_ clock_size_]. split; [|split; [|split]].
    + apply achain_delete.
      * eapply achain_set_last; [exact Hrest|].
        intros Hin. now apply (Hdis tl Hin); left.
      * rewrite fmap_app. cbn. exact Hfresh.
    + now rewrite !fmap_app.
    + now rewrite !fmap_app.
    + rewrite Hwrap. cbn [length] in Hlen. rewrite !length_app in *.
      cbn [length] in *. lia.
  - (* a node with a predecessor *)
    rewrite last_ptr_snoc in HV. cbn [fst] in HV.
    assert (Hhd : exists hd', hd = Some hd' /\ hd' ∈ (l1a ++ [(p, np)]).*1).
    { rewrite <- !app_assoc in Hc. destruct l1a as [|x l1a];
        inversion Hc; subst; eexists; (split; [reflexivity|]); cbn; now left. }
    destruct Hhd as (hd' & -> & Hhd).
    rewrite !fmap_app in Hnd. cbn in Hnd.
    apply NoDup_app in Hnd as (Hnd1 & Hdis & Hnd2).
    apply NoDup_app in Hnd1 as (_ & Hdis1 & _).
    apply NoDup_cons in Hnd2 as [Hfresh _].
    assert (Hhda : hd' <> a).
    { intros ->. rewrite fmap_app in Hhd. apply (Hdis a Hhd). now left. }
    assert (Hpa : p <> a).
    { intros ->. apply (Hdis a); [|now left].
      apply elem_of_app. right. now left. }
    apply achain_app_inv in Hc as (s & Hc1 & Hc2).
    inversion Hc2 as [|a' nd' al' q' _ Hrest]; subst.
    assert (Hp : h !! p = Some np).
    { eapply achain_lookup; [exact Hc1|]. apply elem_of_app. right. now left. }
    rewrite (victim_unlink_inner _ _ _ _ _ _ _ _ _ _ _ _ Hcs Hhda Ha Hp Hpa)
      in HV.
    injection HV as <- <-. split; [reflexivity|]. split.
    2:{ cbn [heap brk capacity_ clock_size_ pin_size_].
        split; [exact Hwrap|]. split; [reflexivity|]. split; [reflexivity|].
        split; [reflexivity|]. intros x Hx.
        destruct (decide (x = a)) as [->|Hxa]; [apply lookup_delete_eq|].
        rewrite lookup_delete_ne by congruence.
        rewrite ?lookup_insert_ne by congruence. exact Hx. }
    exists ((l1a ++ [(p, set_next (next_ nd) np)]) ++ l2).
    cbn [heap head_ clock_size_]. split; [|split; [|split]].
    + apply achain_delete.
      * eapply achain_app.
        -- eapply achain_set_last; [exact Hc1|].
           intros Hin. now apply (Hdis1 p Hin); left.
        -- apply achain_insert_fresh; [exact Hrest|].
           intros Hin. apply (Hdis p); [|now right].
           apply elem_of_app. right. now left.
      * rewrite !fmap_app. cbn. intros Hin.
        apply elem_of_app in Hin as [Hin | Hin]; [|contradiction].
        apply (Hdis a); [exact Hin | now left].
    + now rewrite !fmap_app.
    + now rewrite !fmap_app.
    + rewrite Hwrap. cbn [length] in Hlen. rewrite !length_app in *.
      cbn [length] in *. lia.
Qed.

(** [Victim] on an intact ring listed from its head, with the hand on the
    head and [tail_] on the last node: what it leaves. *)
Lemma Victim_at_head_inv r al f r' :
  achain (heap r) (head_ r) al (head_ r) ->
  NoDup al.*1 ->
  length al = Z.to_nat (clock_size_ r) ->
  current_ r = head_ r ->
  (clock_size_ r <> 1 -> tail_ r = last_ptr al None) ->
  clock_size_ r < 2 ^ 64 ->
  Victim r = Ok (Some f, r') ->
  exists l1 a nd l2,
    al = l1 ++ (a, nd) :: l2 /\ frame_id_ nd = f /\ pin_ nd = false /\
    (exists al',
       achain (heap r') (head_ r') al' (head_ r') /\
       al'.*1 = (l1 ++ l2).*1 /\
       identity <$> al'.*2 = identity <$> (l1 ++ l2).*2 /\
       length al' = Z.to_nat (clock_size_ r')) /\
    clock_size_ r' = clock_size_ r - 1 /\
    brk r' = brk r /\ capacity_ r' = capacity_ r /\
    pin_size_ r' = pin_size_ r /\
    (forall x, heap r !! x = None -> heap r' !! x = None).
Proof.
  intros Hc Hnd Hlen Hcur Htail Hmax HV.
  destruct (victim_loop_links al r walk0 (head_ r))
    as (s2 & Hloop & Hs & Hb & Hcap & Hcs & Hps & Hh & Ht);
    [rewrite Hcur; exact Hc | exact Hnd |].
  unfold Victim in HV. unfold bind at 1, gets at 1 in HV.
  destruct (head_ r) as [hd|] eqn:Ehd; [|discriminate].
  unfold bind at 1, gets at 1 in HV. unfold bind at 1 in HV.
  rewrite <- Hlen, Hloop in HV.
  match type of HV with context [let '(_, _) := ?e in _] =>
    destruct e as [tgt pre0] eqn:Esel end.
  destruct tgt as [a|]; [|discriminate].
  apply scan_unlinks in Esel as (l1 & nd & l2 & -> & Hpin & ->).
  destruct (achain_alike _ _ _ _ _ Hs Hc) as (al2 & Hc2 & Hal).
  pose proof Hal as Hal0.
  apply alike_app_cons in Hal as (l1' & nd' & l2' & -> & Hal1 & Hal2 & Hl).
  apply bind_Ok in HV as (fid & s3 & HU & HV). injection HV as <- <-.
  rewrite <- (alike_last_ptr _ _ Hal1) in HU.
  destruct (victim_unlink_ring s2 l1' a nd' l2' fid s3)
    as (-> & (al' & Hring & Hfst & Hid & Hlen') & E1 & E2 & E3 & E4 & Hdom);
    [..|exact HU|].
  - now rewrite Hh.
  - now rewrite (alike_fst _ _ Hal0).
  - rewrite Hcs, <- Hlen. apply Forall2_length in Hal0. congruence.
  - rewrite Hcs, Ht, (alike_last_ptr _ _ Hal0). exact Htail.
  - now rewrite Hcs.
  - unfold links in Hl. injection Hl as Hf Hp _.
    exists l1, a, nd, l2.
    split; [reflexivity|]. split; [now rewrite Hf|]. split; [exact Hpin|].
    split; [|repeat split; try congruence].
    + exists al'. split; [exact Hring|]. split; [|split; [|exact Hlen']].
      * rewrite Hfst, !fmap_app.
        now rewrite (alike_fst _ _ Hal1), (alike_fst _ _ Hal2).
      * rewrite Hid, !fmap_app.
        now rewrite (alike_identity _ _ Hal1), (alike_identity _ _ Hal2).
    + intros x Hx. apply Hdom. pose proof (Hs x) as Hsx. rewrite Hx in Hsx.
      now destruct (heap s2 !! x).
Qed.

(** [Unpin] and then [Pin] of a frame that is not in an intact ring: a
    pinned node for it is linked in behind the last node. *)
Lemma Unpin_Pin_appends r al f :
  achain (heap r) (head_ r) al (head_ r) ->
  NoDup al.*1 ->
  length al = Z.to_nat (clock_size_ r) ->
  unknown_frame f al ->
  0 <= clock_size_ r < capacity_ r -> capacity_ r < 2 ^ 64 ->
  heap r !! brk r = None ->
  exists r2 al2,
    (Unpin f ;; Pin f) r = Ok (tt, r2) /\
    achain (heap r2) (head_ r2)
           (al2 ++ [(brk r, mkListNode true true f (head_ r2))]) (head_ r2) /\
    al2.*1 = al.*1 /\
    identity <$> al2.*2 = identity <$> al.*2 /\
    clock_size_ r2 = clock_size_ r + 1 /\
    pin_size_ r2 = size_t_wrap (pin_size_ r + 1) /\
    capacity_ r2 = capacity_ r /\
    (clock_size_ r2 <> 1 -> tail_ r2 = Some (brk r)).
Proof.
  intros Hc Hnd Hlen Hun Hroom Hcap Hfresh.
  destruct (list_snoc_cases al) as [-> | (init & [a nd] & ->)].
  - (* the ring is empty *)
    assert (Hcs : clock_size_ r = 0) by (cbn in Hlen; lia).
    eexists. exists []. split.
    { unfold bind. rewrite (Unpin_on_empty r f Hcs).
      erewrite (Pin_found _ _ (brk r) _ None).
      - reflexivity.
      - cbn. lia.
      - cbn [clock_size_ head_]. change (Z.to_nat 1) with 1%nat.
        cbn [search_loop]. unfold bind, load. cbn [heap].
        rewrite lookup_insert_eq. cbn [frame_id_]. now rewrite Z.eqb_refl.
      - apply lookup_insert_eq. }
    cbn [brk clock_size_ head_ tail_ heap capacity_ pin_size_ with_pin_size
         with_heap frame_id_ next_ app].
    split; [|repeat split; [lia | congruence]].
    constructor; [apply lookup_insert_eq | constructor].
  - (* behind the last node *)
    assert (Hcs : clock_size_ r <> 0).
    { rewrite length_app in Hlen. cbn in Hlen. lia. }
    destruct (achain_app_inv _ _ _ _ _ Hc) as (q & Hc1 & Hc2).
    inversion Hc2 as [|a' nd' al' q' Ha Hnil]; subst. inversion Hnil; subst.
    assert (Hab : a <> brk r) by congruence.
    rewrite fmap_app in Hnd. cbn in Hnd.
    apply NoDup_app in Hnd as (Hnd1 & Hnd2 & _).
    assert (Ha1 : a ∉ init.*1).
    { intros Hin. apply (Hnd2 a Hin). now left. }
    assert (Hb1 : brk r ∉ init.*1).
    { intros Hin. destruct (achain_live _ _ _ _ _ Hc1 Hin) as [x Hx].
      congruence. }
    apply Forall_app in Hun as [Hun1 Hun2].
    apply Forall_cons in Hun2 as [Hfa _]. cbn in Hfa.
    set (new_node := mkListNode false true f (head_ r)).
    set (last_node := set_next (Some (brk r)) nd).
    set (h1 := <[a := last_node]> (<[brk r := new_node]> (heap r))).
    assert (Hunpin : Unpin f r =
              Ok (tt, mkClockReplacer h1 (S (brk r)) (capacity_ r)
                        (size_t_wrap (clock_size_ r + 1))
                        (pin_size_ r) (head_ r) (Some (brk r)) (current_ r))).
    { apply Unpin_not_found; auto; [|lia].
      rewrite (search_loop_unknown _ r _ f (head_ r) (head_ r) None Hc); auto.
      - unfold last_ptr. now rewrite last_snoc.
      - apply Forall_app. split; [exact Hun1|]. now constructor. }
    assert (Hwrap : size_t_wrap (clock_size_ r + 1) = clock_size_ r + 1)
      by (apply size_t_wrap_id; lia).
    assert (Hnew : h1 !! brk r = Some new_node).
    { subst h1. rewrite lookup_insert_ne by congruence.
      apply lookup_insert_eq. }
    assert (Hc1' : achain h1 (head_ r) (init ++ [(a, last_node)])
                          (Some (brk r))).
    { eapply achain_app.
      - apply achain_insert_fresh; [|exact Ha1].
        apply achain_insert_fresh; [exact Hc1 | exact Hb1].
      - constructor; [apply lookup_insert_eq | constructor]. }
    eexists. exists (init ++ [(a, last_node)]). split.
    { unfold bind. rewrite Hunpin.
      erewrite (Pin_found _ _ (brk r) _
                  (last_ptr (init ++ [(a, last_node)]) None)).
      - reflexivity.
      - cbn [clock_size_]. lia.
      - cbn [clock_size_ head_ heap].
        eapply (search_loop_first
                  ((init ++ [(a, last_node)]) ++ [(brk r, new_node)])
                  _ _ _ _ (head_ r)).
        + cbn [heap]. eapply achain_app; [exact Hc1'|].
          constructor; [exact Hnew | constructor].
        + reflexivity.
        + apply Forall_app. split; [exact Hun1|]. now constructor.
        + reflexivity.
        + rewrite Hwrap. rewrite length_app in Hlen |- *.
          cbn [length] in Hlen |- *. lia.
      - exact Hnew. }
    cbn [brk clock_size_ head_ tail_ heap capacity_ pin_size_ with_pin_size
         with_heap frame_id_ next_ new_node].
    split; [|split; [|split; [|repeat split; auto]]].
    + eapply achain_app.
      * apply achain_insert_fresh; [exact Hc1'|].
        rewrite fmap_app. cbn. intros Hin.
        apply elem_of_app in Hin as [Hin | Hin]; [now apply Hb1|].
        apply list_elem_of_singleton in Hin. congruence.
      * constructor; [apply lookup_insert_eq | constructor].
    + now rewrite !fmap_app.
    + now rewrite !fmap_app.
Qed.

Lemma unknown_frame_identity (al al' : list (nat * ListNode)) f :
  identity <$> al'.*2 = identity <$> al.*2 ->
  f ∉ frame_id_ <$> al.*2 ->
  unknown_frame f al'.
Proof.
  intros Hid Hf. apply Forall_forall. intros x Hx Hfx. apply Hf.
  assert (E : forall l : list ListNode, frame_id_ <$> l = fst <$> (identity <$> l))
    by (intros l; now rewrite <- list_fmap_compose).
  rewrite E, <- Hid, <- E, <- Hfx.
  apply list_elem_of_fmap. exists x.2. split; [reflexivity|].
  apply list_elem_of_fmap. now exists x.
Qed.

(** X23. Where the eviction is sound.  On an intact ring listed from the
    head (clock_size distinct nodes, the last linked back to head), with
    the hand on the head and, when the ring has more than one node, tail on
    the last node, a Victim that returns true has unlinked exactly the node
    it reports: that node was unpinned, and what is left is again an
    intact ring from head, made of the other nodes in their old order with
    their frame IDs and pin flags, clock_size nodes long. *)
Theorem Victim_at_head_keeps_the_ring r al f r' :
  achain (heap r) (head_ r) al (head_ r) ->
  NoDup al.*1 ->
  length al = Z.to_nat (clock_size_ r) ->
  current_ r = head_ r ->
  (clock_size_ r <> 1 -> tail_ r = last_ptr al None) ->
  clock_size_ r < 2 ^ 64 ->
  Victim r = Ok (Some f, r') ->
  exists l1 a nd l2 al',
    al = l1 ++ (a, nd) :: l2 /\ frame_id_ nd = f /\ pin_ nd = false /\
    achain (heap r') (head_ r') al' (head_ r') /\
    NoDup al'.*1 /\
    al'.*1 = (l1 ++ l2).*1 /\
    identity <$> al'.*2 = identity <$> (l1 ++ l2).*2 /\
    length al' = Z.to_nat (clock_size_ r').
Proof.
  intros Hc Hnd Hlen Hcur Htail Hmax HV.
  destruct (Victim_at_head_inv r al f r' Hc Hnd Hlen Hcur Htail Hmax HV)
    as (l1 & a & nd & l2 & -> & Hf & Hpin &
        (al' & Hring & Hfst & Hid & Hlen') & _).
  exists l1, a, nd, l2, al'.
  split; [reflexivity|]. split; [exact Hf|]. split; [exact Hpin|].
  split; [exact Hring|]. split; [|auto].
  rewrite Hfst. rewrite !fmap_app in *. cbn in Hnd.
  apply NoDup_app in Hnd as (Hnd1 & Hdis & Hnd2).
  apply NoDup_cons in Hnd2 as [_ Hnd2].
  apply NoDup_app. split; [exact Hnd1|]. split; [|exact Hnd2].
  intros x Hx Hin. apply (Hdis x Hx). now right.
Qed.

Lemma Victim_at_head_keeps_the_ring_witness :
  exists l1 a nd l2 al',
    sample_nodes = l1 ++ (a, nd) :: l2 /\ frame_id_ nd = 1 /\
    pin_ nd = false /\
    achain (heap sample_ring_without_1) (head_ sample_ring_without_1) al'
           (head_ sample_ring_without_1) /\
    NoDup al'.*1 /\
    al'.*1 = (l1 ++ l2).*1 /\
    identity <$> al'.*2 = identity <$> (l1 ++ l2).*2 /\
    length al' = Z.to_nat (clock_size_ sample_ring_without_1).
Proof.
  apply (Victim_at_head_keeps_the_ring sample_ring sample_nodes 1
           sample_ring_without_1).
  - exact sample_ring_intact.
  - exact sample_nodes_distinct.
  - reflexivity.
  - reflexivity.
  - intros _. reflexivity.
  - reflexivity.
  - vm_compute. reflexivity.
Defined.

(** A whole replacement on the replacer: [Victim], then [Unpin] and [Pin]
    of the frame it returned. *)
Lemma replacement_on_ring r al f r1 :
  achain (heap r) (head_ r) al (head_ r) ->
  NoDup al.*1 ->
  NoDup (frame_id_ <$> al.*2) ->
  length al = Z.to_nat (clock_size_ r) ->
  current_ r = head_ r ->
  (clock_size_ r <> 1 -> tail_ r = last_ptr al None) ->
  clock_size_ r <= capacity_ r -> capacity_ r < 2 ^ 64 ->
  heap r !! brk r = None ->
  Victim r = Ok (Some f, r1) ->
  exists l1 a nd l2 al' r2,
    al = l1 ++ (a, nd) :: l2 /\ frame_id_ nd = f /\
    (Unpin f ;; Pin f) r1 = Ok (tt, r2) /\
    achain (heap r2) (head_ r2)
           (al' ++ [(brk r, mkListNode true true f (head_ r2))]) (head_ r2) /\
    al'.*1 = (l1 ++ l2).*1 /\
    identity <$> al'.*2 = identity <$> (l1 ++ l2).*2 /\
    clock_size_ r2 = clock_size_ r /\
    pin_size_ r2 = size_t_wrap (pin_size_ r + 1) /\
    (clock_size_ r2 <> 1 -> tail_ r2 = Some (brk r)).
Proof.
  intros Hc Hnd Hfr Hlen Hcur Htail Hroom Hcap Hfresh HV.
  destruct (Victim_at_head_inv r al f r1 Hc Hnd Hlen Hcur Htail) as
    (l1 & a & nd & l2 & -> & Hf & Hpin & (al' & Hring & Hfst & Hid & Hlen') &
     Hcs & Hbrk & Hcap1 & Hps & Hdom); [lia | exact HV |].
  assert (Hpos : 0 < clock_size_ r).
  { rewrite length_app in Hlen. cbn in Hlen. lia. }
  assert (Hun : unknown_frame f al').
  { apply (unknown_frame_identity (l1 ++ l2)); [exact Hid|].
    rewrite !fmap_app in *. cbn in Hfr. rewrite Hf in Hfr.
    apply NoDup_app in Hfr as (_ & Hdis & Hfr).
    apply NoDup_cons in Hfr as [Hf2 _].
    intros Hin. apply elem_of_app in Hin as [Hin | Hin]; [|contradiction].
    apply (Hdis f Hin). now left. }
  assert (Hnd' : NoDup al'.*1).
  { rewrite Hfst. rewrite !fmap_app in *. cbn in Hnd.
    apply NoDup_app in Hnd as (Hnd1 & Hdis & Hnd2).
    apply NoDup_cons in Hnd2 as [_ Hnd2].
    apply NoDup_app. split; [exact Hnd1|]. split; [|exact Hnd2].
    intros x Hx Hin. apply (Hdis x Hx). now right. }
  destruct (Unpin_Pin_appends r1 al' f Hring Hnd' Hlen' Hun)
    as (r2 & al2 & Hrun & Hring2 & Hfst2 & Hid2 & Hcs2 & Hps2 & _ & Htl2).
  - lia.
  - lia.
  - rewrite Hbrk. now apply Hdom.
  - rewrite Hbrk in *. exists l1, a, nd, l2, al2, r2.
    split; [reflexivity|]. split; [exact Hf|]. split; [exact Hrun|].
    split; [exact Hring2|]. split; [congruence|]. split; [congruence|].
    split; [lia|]. split; [congruence | exact Htl2].
Qed.

(** X24. A whole replacement, as NewPgImp and FetchPgImp perform it on the
    replacer: Victim, then Unpin and Pin of the frame it returned.  On an
    intact ring listed from the head, with the hand on the head, tail on
    the last node, distinct frame IDs and room for its nodes
    (clock_size <= capacity), the three calls return and leave an intact
    ring of the same length: the other nodes in their old order, followed
    by a new node for the evicted frame, pinned and with the refer flag
    set; pin_size has grown by one, and tail points to the new node
    unless it is the only node of the ring.  (The allocator hands out the
    fresh address brk.) *)
Theorem Victim_then_Unpin_Pin_restores_the_ring r al f r1 :
  ring_at_head r al ->
  Victim r = Ok (Some f, r1) ->
  exists l1 a nd l2 al' r2,
    al = l1 ++ (a, nd) :: l2 /\ frame_id_ nd = f /\
    (Unpin f ;; Pin f) r1 = Ok (tt, r2) /\
    achain (heap r2) (head_ r2)
           (al' ++ [(brk r, mkListNode true true f (head_ r2))]) (head_ r2) /\
    NoDup (al' ++ [(brk r, mkListNode true true f (head_ r2))]).*1 /\
    al'.*1 = (l1 ++ l2).*1 /\
    identity <$> al'.*2 = identity <$> (l1 ++ l2).*2 /\
    length (al' ++ [(brk r, mkListNode true true f (head_ r2))])
      = Z.to_nat (clock_size_ r2) /\
    clock_size_ r2 = clock_size_ r /\
    pin_size_ r2 = size_t_wrap (pin_size_ r + 1) /\
    (clock_size_ r2 <> 1 -> tail_ r2 = Some (brk r)).
Proof.
  intros (Hc & Hnd & Hfr & Hlen & Hcur & Htail & Hroom & Hcap & Hfresh) HV.
  destruct (replacement_on_ring r al f r1 Hc Hnd Hfr Hlen Hcur Htail Hroom
              Hcap Hfresh HV)
    as (l1 & a & nd & l2 & al' & r2 & -> & Hf & Hrun & Hring & Hfst & Hid &
        Hcs & Hps & Htl).
  exists l1, a, nd, l2, al', r2.
  split; [reflexivity|]. split; [exact Hf|]. split; [exact Hrun|].
  split; [exact Hring|].
  assert (Hlen' : length al' = length (l1 ++ l2)).
  { rewrite <- (length_fmap fst al'), Hfst. apply length_fmap. }
  split; [|split; [exact Hfst|]; split; [exact Hid|]; split; [|auto]].
  - rewrite fmap_app, Hfst. cbn. rewrite fmap_app in *. cbn in Hnd.
    apply NoDup_app in Hnd as (Hnd1 & Hdis & Hnd2).
    apply NoDup_cons in Hnd2 as [_ Hnd2].
    apply NoDup_app. split; [|split; [|apply NoDup_singleton]].
    + apply NoDup_app. split; [exact Hnd1|]. split; [|exact Hnd2].
      intros x Hx Hin. apply (Hdis x Hx). now right.
    + intros x Hx Hin. apply list_elem_of_singleton in Hin as ->.
      assert (Hlive : is_Some (heap r !! brk r)); [|rewrite Hfresh in Hlive;
                                                     now destruct Hlive].
      apply (achain_live _ _ _ _ _ Hc). rewrite !fmap_app. cbn.
      apply elem_of_app in Hx as [Hx | Hx]; apply elem_of_app;
        [now left | right; now right].
  - rewrite length_app, Hlen', Hcs, <- Hlen, !length_app. cbn. lia.
Qed.

Lemma sample_ring_at_head : ring_at_head sample_ring sample_nodes.
Proof.
  split; [exact sample_ring_intact|]. split; [exact sample_nodes_distinct|].
  split; [apply (bool_decide_unpack _); vm_compute; exact I|].
  split; [reflexivity|]. split; [reflexivity|]. split; [reflexivity|].
  split; [cbn; lia|]. split; reflexivity.
Qed.

Lemma Victim_then_Unpin_Pin_restores_the_ring_witness :
  ring_at_head sample_ring sample_nodes /\
  exists l1 a nd l2 al' r2,
    sample_nodes = l1 ++ (a, nd) :: l2 /\ frame_id_ nd = 1 /\
    (Unpin 1 ;; Pin 1) sample_ring_without_1 = Ok (tt, r2) /\
    achain (heap r2) (head_ r2)
           (al' ++ [(brk sample_ring, mkListNode true true 1 (head_ r2))])
           (head_ r2) /\
    NoDup (al' ++ [(brk sample_ring, mkListNode true true 1 (head_ r2))]).*1 /\
    al'.*1 = (l1 ++ l2).*1 /\
    identity <$> al'.*2 = identity <$> (l1 ++ l2).*2 /\
    length (al' ++ [(brk sample_ring, mkListNode true true 1 (head_ r2))])
      = Z.to_nat (clock_size_ r2) /\
    clock_size_ r2 = clock_size_ sample_ring /\
    pin_size_ r2 = size_t_wrap (pin_size_ sample_ring + 1) /\
    (clock_size_ r2 <> 1 -> tail_ r2 = Some (brk sample_ring)).
Proof.
  split; [exact sample_ring_at_head|].
  apply (Victim_then_Unpin_Pin_restores_the_ring sample_ring sample_nodes 1
           sample_ring_without_1).
  - exact sample_ring_at_head.
  - vm_compute. reflexivity.
Defined.

(** * The buffer pool manager: how a page gets its frame *)

(** Projections of updated instances, without unfolding member functions. *)
Ltac fields :=
  cbn [pool_size_ num_instances_ instance_index_ next_page_id_ pages_
       replacer_ free_list_ page_table_ disk_manager_
       with_next_page_id with_pages with_replacer with_free_list
       with_page_table with_disk_manager fst snd] in *.

Lemma on_replacer_inv {A} (m : M ClockReplacer A)
    (b b' : BufferPoolManagerInstance) a :
  on_replacer m b = Ok (a, b') ->
  exists r, m (replacer_ b) = Ok (a, r) /\ b' = with_replacer r b.
Proof.
  unfold on_replacer. destruct (m (replacer_ b)) as [[a' r]|f]; [|discriminate].
  intros [= <- <-]. eauto.
Qed.

Lemma AllocatePage_Ok (b b' : BufferPoolManagerInstance) page_id :
  AllocatePage b = Ok (page_id, b') ->
  page_id = next_page_id_ b /\
  b' = with_next_page_id (int32_wrap (next_page_id_ b + num_instances_ b)) b.
Proof.
  unfold AllocatePage. intros H.
  apply bind_Ok in H as (x & b0 & Hx & H). injection Hx as <- <-.
  apply bind_Ok in H as (u1 & b1 & H1 & H). injection H1 as _ <-.
  apply bind_Ok in H as (u2 & b2 & H2 & H). injection H as <- <-.
  unfold ValidatePageId in H2.
  apply bind_Ok in H2 as (n & b3 & Hn & H2). injection Hn as <- <-.
  apply bind_Ok in H2 as (i & b4 & Hi & H2). injection Hi as <- <-.
  cbn in H2.
  destruct (num_instances_ b =? 0); [discriminate|].
  destruct (_ =? _); [|discriminate].
  injection H2 as <-. auto.
Qed.

Lemma ReadPage_inv (b b' : BufferPoolManagerInstance) page_id frame_id u :
  ReadPage page_id frame_id b = Ok (u, b') ->
  exists old,
    0 <= frame_id /\ pages_ b !! Z.to_nat frame_id = Some old /\
    b' = with_pages (<[Z.to_nat frame_id :=
                         set_data (disk_read page_id (disk_manager_ b)).1 old]>
                       (pages_ b))
           (with_disk_manager (disk_read page_id (disk_manager_ b)).2 b).
Proof.
  unfold ReadPage. intros H.
  apply bind_Ok in H as (d & b1 & Hd & H). injection Hd as <- <-.
  cbn [disk_read] in H.
  apply bind_Ok in H as (u1 & b2 & Hm & H). injection Hm as _ <-.
  apply update_page_Ok in H as (page & H0 & Hp & ->).
  exists page. cbn in *. auto.
Qed.

Lemma ReadPage_lookup (b : BufferPoolManagerInstance) page_id frame_id old :
  0 <= frame_id -> pages_ b !! Z.to_nat frame_id = Some old ->
  ReadPage page_id frame_id b =
    Ok (tt, with_pages
              (<[Z.to_nat frame_id :=
                   set_data (disk_read page_id (disk_manager_ b)).1 old]>
                 (pages_ b))
              (with_disk_manager (disk_read page_id (disk_manager_ b)).2 b)).
Proof.
  intros H0 Hold. unfold ReadPage. unfold bind at 1, gets at 1.
  cbn [disk_read]. unfold bind at 1, modify at 1.
  now rewrite (update_page_lookup _ frame_id old) by assumption.
Qed.

(** The part [NewPgImp] and [FetchPgImp] share: the page is read into the
    frame and the three metadata fields are set. *)
Lemma fill_frame_Ok {A} page_id frame_id g1 g2 g3
    (k : M BufferPoolManagerInstance A) (b b' : BufferPoolManagerInstance) a :
  (ReadPage page_id frame_id ;;
   update_page frame_id g1 ;;
   update_page frame_id g2 ;;
   update_page frame_id g3 ;;
   k) b = Ok (a, b') ->
  exists old,
    0 <= frame_id /\ pages_ b !! Z.to_nat frame_id = Some old /\
    k (with_pages
         (<[Z.to_nat frame_id :=
              g3 (g2 (g1 (set_data (disk_read page_id (disk_manager_ b)).1
                                   old)))]> (pages_ b))
         (with_disk_manager (disk_read page_id (disk_manager_ b)).2 b))
      = Ok (a, b').
Proof.
  intros H.
  apply bind_Ok in H as (u0 & b0 & Hread & H).
  apply ReadPage_inv in Hread as (old & H0 & Hold & ->).
  exists old. split; [exact H0 | split; [exact Hold|]].
  set (p0 := set_data _ old) in *.
  assert (Hlen : (Z.to_nat frame_id < length (pages_ b))%nat)
    by (eapply lookup_lt_Some; eauto).
  apply bind_Ok in H as (u1 & b1 & Hu1 & H).
  apply update_page_Ok in Hu1 as (p1 & _ & Hp1 & ->).
  cbn [pages_ with_pages with_disk_manager] in Hp1.
  rewrite list_lookup_insert_eq in Hp1 by exact Hlen. injection Hp1 as <-.
  apply bind_Ok in H as (u2 & b2 & Hu2 & H).
  apply update_page_Ok in Hu2 as (p2 & _ & Hp2 & ->).
  cbn [pages_ with_pages with_disk_manager] in Hp2.
  rewrite list_lookup_insert_eq in Hp2
    by (rewrite ?length_insert; exact Hlen).
  injection Hp2 as <-.
  apply bind_Ok in H as (u3 & b3 & Hu3 & H).
  apply update_page_Ok in Hu3 as (p3 & _ & Hp3 & ->).
  cbn [pages_ with_pages with_disk_manager] in Hp3.
  rewrite list_lookup_insert_eq in Hp3
    by (rewrite ?length_insert; exact Hlen).
  injection Hp3 as <-.
  cbn [pages_ with_pages with_disk_manager] in H.
  rewrite !list_insert_insert_eq in H. exact H.
Qed.

(** The frame enters the replacer and is pinned there. *)
Lemma pin_frame_Ok {A} frame_id (k : M BufferPoolManagerInstance A)
    (b b' : BufferPoolManagerInstance) a :
  (on_replacer (Unpin frame_id) ;; on_replacer (Pin frame_id) ;; k) b
    = Ok (a, b') ->
  exists r1 r2,
    Unpin frame_id (replacer_ b) = Ok (tt, r1) /\
    Pin frame_id r1 = Ok (tt, r2) /\
    k (with_replacer r2 b) = Ok (a, b').
Proof.
  intros H.
  apply bind_Ok in H as ([] & b1 & H1 & H).
  apply on_replacer_inv in H1 as (r1 & Hr1 & ->).
  apply bind_Ok in H as ([] & b2 & H2 & H).
  apply on_replacer_inv in H2 as (r2 & Hr2 & ->).
  exists r1, r2. fields. auto.
Qed.

(** The write-back of the page that is replaced. *)
Lemma write_back_Ok (b b' : BufferPoolManagerInstance) frame_id old u :
  pages_ b !! Z.to_nat frame_id = Some old ->
  (if is_dirty_ old then
     update_page frame_id (set_is_dirty false) ;;
     WritePage (page_id_ old) (data_ old)
   else ret tt) b = Ok (u, b') ->
  pages_ b' !! Z.to_nat frame_id =
    Some (if is_dirty_ old then set_is_dirty false old else old) /\
  pages_ b' = (if is_dirty_ old
               then <[Z.to_nat frame_id := set_is_dirty false old]> (pages_ b)
               else pages_ b) /\
  b' = with_pages (pages_ b')
         (with_disk_manager (written_back old (disk_manager_ b)) b).
Proof.
  intros Hold H. unfold written_back. destruct (is_dirty_ old).
  - apply bind_Ok in H as (u8 & b8 & Hup & H).
    apply update_page_Ok in Hup as (p8 & _ & Hp8 & ->).
    rewrite Hold in Hp8. injection Hp8 as <-.
    injection H as _ <-. fields.
    split; [eapply lookup_updated; eauto | split; reflexivity].
  - injection H as _ <-. split; [exact Hold|].
    split; [reflexivity | now destruct b].
Qed.

(** [NewPgImp] with a frame on the free list. *)
Lemma NewPgImp_free_inv (b b' : BufferPoolManagerInstance) frame_id rest v :
  free_list_ b = frame_id :: rest ->
  NewPgImp b = Ok (v, b') ->
  exists old r1 r2,
    0 <= frame_id /\ pages_ b !! Z.to_nat frame_id = Some old /\
    Unpin frame_id (replacer_ b) = Ok (tt, r1) /\
    Pin frame_id r1 = Ok (tt, r2) /\
    v = (next_page_id_ b, Some frame_id) /\
    b' = mkBPM (pool_size_ b) (num_instances_ b) (instance_index_ b)
               (int32_wrap (next_page_id_ b + num_instances_ b))
               (<[Z.to_nat frame_id :=
                    fresh_frame (next_page_id_ b) (disk_manager_ b)]>
                  (pages_ b))
               r2 rest
               (table_insert (next_page_id_ b) frame_id (page_table_ b))
               (disk_read (next_page_id_ b) (disk_manager_ b)).2.
Proof.
  intros Hfl H. unfold NewPgImp in H.
  apply bind_Ok in H as (pid & b1 & Halloc & H).
  apply AllocatePage_Ok in Halloc as (-> & ->).
  apply bind_Ok in H as (fl & b2 & Hg & H). injection Hg as <- <-.
  cbn [free_list_ with_next_page_id] in H. rewrite Hfl in H.
  apply bind_Ok in H as (page & b3 & Htake & H).
  apply bind_Ok in Htake as (u & b4 & Hm & Htake).
  injection Hm as _ <-. injection Htake as <- <-.
  apply fill_frame_Ok in H as (old & H0 & Hold & H).
  apply pin_frame_Ok in H as (r1 & r2 & Hr1 & Hr2 & H).
  apply bind_Ok in H as (u' & b5 & Hm & H). injection Hm as _ <-.
  injection H as <- <-.
  exists old, r1, r2. fields. unfold fresh_frame.
  unfold set_page_id, set_is_dirty, set_pin_count, set_data.
  cbn [data_ page_id_ pin_count_ is_dirty_]. auto 10.
Qed.

(** [NewPgImp] with an empty free list. *)
Lemma NewPgImp_evict_inv (b b' : BufferPoolManagerInstance)
    page_id frame_id :
  free_list_ b = [] ->
  NewPgImp b = Ok ((page_id, Some frame_id), b') ->
  exists old r0 r1 r2,
    Victim (replacer_ b) = Ok (Some frame_id, r0) /\
    0 <= frame_id /\ pages_ b !! Z.to_nat frame_id = Some old /\
    Unpin frame_id r0 = Ok (tt, r1) /\
    Pin frame_id r1 = Ok (tt, r2) /\
    page_id = next_page_id_ b /\
    b' = mkBPM (pool_size_ b) (num_instances_ b) (instance_index_ b)
               (int32_wrap (next_page_id_ b + num_instances_ b))
               (<[Z.to_nat frame_id :=
                    fresh_frame page_id (written_back old (disk_manager_ b))]>
                  (pages_ b))
               r2 []
               (table_insert page_id frame_id
                  (delete (page_id_ old) (page_table_ b)))
               (disk_read page_id (written_back old (disk_manager_ b))).2.
Proof.
  intros Hfl H. unfold NewPgImp in H.
  apply bind_Ok in H as (pid & b1 & Halloc & H).
  apply AllocatePage_Ok in Halloc as (-> & ->).
  apply bind_Ok in H as (fl & b2 & Hg & H). injection Hg as <- <-.
  cbn [free_list_ with_next_page_id] in H. rewrite Hfl in H.
  apply bind_Ok in H as (page & b3 & Htake & H).
  apply bind_Ok in Htake as (found & b4 & Hvic & Htake).
  apply on_replacer_inv in Hvic as (r0 & Hr0 & ->). fields.
  destruct found as [f|].
  2:{ injection Htake as <- <-. discriminate. }
  apply bind_Ok in Htake as (old & b5 & Hat & Htake).
  apply page_at_Ok in Hat as (H0 & Hold & ->).
  apply bind_Ok in Htake as (u6 & b6 & Hwb & Htake).
  apply bind_Ok in Htake as (u7 & b7 & Hm & Htake).
  injection Hm as _ <-. injection Htake as <- <-.
  apply (write_back_Ok _ _ f old) in Hwb as (Hp6 & Hps6 & Hb6);
    [|exact Hold].
  fields.
  apply fill_frame_Ok in H as (old6 & _ & Hold6 & H).
  fields. rewrite Hp6 in Hold6. injection Hold6 as <-.
  apply pin_frame_Ok in H as (r1 & r2 & Hr1 & Hr2 & H).
  apply bind_Ok in H as (u' & b9 & Hm & H). injection Hm as _ <-.
  injection H as <- <- <-.
  exists old, r0, r1, r2.
  rewrite Hb6 in Hr1. fields.
  split; [exact Hr0|]. split; [exact H0|]. split; [exact Hold|].
  split; [exact Hr1|]. split; [exact Hr2|]. split; [reflexivity|].
  rewrite Hb6. fields. rewrite Hps6, <- Hfl. unfold fresh_frame.
  unfold set_page_id, set_is_dirty, set_pin_count, set_data.
  destruct (is_dirty_ old); cbn [data_ page_id_ pin_count_ is_dirty_];
    rewrite ?list_insert_insert_eq; reflexivity.
Qed.

Lemma table_insert_absent page_id frame_id (t : gmap Z Z) :
  t !! page_id = None ->
  table_insert page_id frame_id t = <[page_id := frame_id]> t.
Proof. intros H. unfold table_insert. now rewrite H. Qed.

Lemma table_insert_lookup page_id frame_id old_id (t : gmap Z Z) :
  t !! page_id = None ->
  table_insert page_id frame_id (delete old_id t) !! page_id = Some frame_id.
Proof.
  intros H. rewrite table_insert_absent.
  - apply lookup_insert_eq.
  - rewrite lookup_delete. case_decide; auto.
Qed.

(** [FetchPgImp] of a page that is not resident. *)
Lemma FetchPgImp_miss_inv (b b' : BufferPoolManagerInstance) page_id frame_id :
  page_table_ b !! page_id = None ->
  FetchPgImp page_id b = Ok (Some frame_id, b') ->
  exists old r0 r1 r2 rest,
    ((free_list_ b = frame_id :: rest /\ r0 = replacer_ b) \/
     (free_list_ b = [] /\ rest = [] /\
      Victim (replacer_ b) = Ok (Some frame_id, r0))) /\
    0 <= frame_id /\ pages_ b !! Z.to_nat frame_id = Some old /\
    Unpin frame_id r0 = Ok (tt, r1) /\
    Pin frame_id r1 = Ok (tt, r2) /\
    b' = mkBPM (pool_size_ b) (num_instances_ b) (instance_index_ b)
               (next_page_id_ b)
               (<[Z.to_nat frame_id :=
                    fresh_frame page_id (written_back old (disk_manager_ b))]>
                  (pages_ b))
               r2 rest
               (<[page_id := frame_id]> (delete (page_id_ old) (page_table_ b)))
               (disk_read page_id (written_back old (disk_manager_ b))).2.
Proof.
  intros Hnone H. unfold FetchPgImp in H.
  apply bind_Ok in H as (t & b0 & Hg & H). injection Hg as <- <-.
  rewrite Hnone in H.
  apply bind_Ok in H as (fl & b1 & Hg & H). injection Hg as <- <-.
  apply bind_Ok in H as (page & b2 & Htake & H).
  assert (Hsrc : exists r0 rest,
            page = Some frame_id ->
            ((free_list_ b = frame_id :: rest /\ r0 = replacer_ b) \/
             (free_list_ b = [] /\ rest = [] /\
              Victim (replacer_ b) = Ok (Some frame_id, r0))) /\
            b2 = with_free_list rest (with_replacer r0 b)).
  { destruct (free_list_ b) as [|f rest] eqn:Hfl.
    - apply on_replacer_inv in Htake as (r0 & Hr0 & ->).
      exists r0, []. intros ->. split; [right; auto|].
      destruct b; cbn in *; now subst.
    - apply bind_Ok in Htake as (u & b3 & Hm & Htake).
      injection Hm as _ <-. injection Htake as <- <-.
      exists (replacer_ b), rest. intros [= ->]. split; [left; auto|].
      now destruct b. }
  destruct page as [f|]; [|discriminate].
  assert (f = frame_id) as ->.
  { apply bind_Ok in H as (? & ? & _ & H).
    do 8 (apply bind_Ok in H as (? & ? & _ & H)). now injection H. }
  destruct Hsrc as (r0 & rest & Hsrc). destruct (Hsrc eq_refl) as [Hsrc' ->].
  clear Hsrc Htake.
  apply bind_Ok in H as (old & b3 & Hat & H).
  apply page_at_Ok in Hat as (H0 & Hold & ->). fields.
  apply bind_Ok in H as (u4 & b4 & Hwb & H).
  apply (write_back_Ok _ _ frame_id old) in Hwb as (Hp4 & Hps4 & Hb4);
    [|exact Hold].
  fields.
  apply bind_Ok in H as (u5 & b5 & Hm & H). injection Hm as _ <-.
  apply fill_frame_Ok in H as (old5 & _ & Hold5 & H).
  fields. rewrite Hp4 in Hold5. injection Hold5 as <-.
  apply pin_frame_Ok in H as (r1 & r2 & Hr1 & Hr2 & H).
  apply bind_Ok in H as (u' & b9 & Hm & H). injection Hm as _ <-.
  injection H as <-.
  exists old, r0, r1, r2, rest.
  rewrite Hb4 in Hr1. fields.
  split; [exact Hsrc'|]. split; [exact H0|]. split; [exact Hold|].
  split; [exact Hr1|]. split; [exact Hr2|].
  rewrite Hb4. fields. rewrite Hps4. unfold fresh_frame.
  rewrite table_insert_absent
    by (rewrite lookup_delete; case_decide; auto).
  unfold set_page_id, set_is_dirty, set_pin_count, set_data.
  destruct (is_dirty_ old); cbn [data_ page_id_ pin_count_ is_dirty_];
    rewrite ?list_insert_insert_eq; reflexivity.
Qed.

Lemma written_back_journal old (d : DiskManager) :
  journal (written_back old d) =
    journal d ++
    (if is_dirty_ old then [DiskWrite (page_id_ old) (data_ old)] else []).
Proof.
  unfold written_back. destruct (is_dirty_ old); [reflexivity|].
  now rewrite app_nil_r.
Qed.

Lemma written_back_other old (d : DiskManager) page_id :
  page_id_ old <> page_id ->
  blocks (written_back old d) !! page_id = blocks d !! page_id.
Proof.
  intros Hne. unfold written_back. destruct (is_dirty_ old); [|reflexivity].
  cbn. now rewrite lookup_insert_ne.
Qed.

Lemma two_frame_pool_new : BPM.new 2 1 0 used_disk = Ok two_frame_pool.
Proof. reflexivity. Qed.

Lemma two_dirty_pages_reached :
  run_calls [CallNew; CallNew; CallUnpin 0 true; CallUnpin 1 false]
            two_frame_pool
  = Ok (tt, two_dirty_pages).
Proof. vm_compute. reflexivity. Qed.

(** X9. NewPage always picks from the free list first: when the free list
    is not empty, a NewPgImp that returns has handed out the frame at the
    front of the free list and removed it from the list; the replacer was
    not asked for a victim (it only saw Unpin and Pin of that frame),
    nothing was written to disk, the frame holds what ReadPage delivered
    for the new page ID, with pin count 1 and a clear dirty flag, and the
    page table has got the new entry, unless it had one for that page
    ID. *)
Theorem NewPgImp_takes_free_frame (b b' : BufferPoolManagerInstance)
    frame_id rest v :
  free_list_ b = frame_id :: rest ->
  NewPgImp b = Ok (v, b') ->
  v = (next_page_id_ b, Some frame_id) /\
  free_list_ b' = rest /\
  (Unpin frame_id ;; Pin frame_id) (replacer_ b) = Ok (tt, replacer_ b') /\
  pages_ b' = <[Z.to_nat frame_id :=
                  fresh_frame (next_page_id_ b) (disk_manager_ b)]> (pages_ b) /\
  page_table_ b' = table_insert (next_page_id_ b) frame_id (page_table_ b) /\
  blocks (disk_manager_ b') = blocks (disk_manager_ b) /\
  journal (disk_manager_ b') =
    journal (disk_manager_ b) ++ [DiskRead (next_page_id_ b)].
Proof.
  intros Hfl H.
  destruct (NewPgImp_free_inv b b' frame_id rest v Hfl H)
    as (old & r1 & r2 & _ & _ & Hr1 & Hr2 & -> & ->).
  cbn [free_list_ replacer_ pages_ page_table_ disk_manager_].
  split; [reflexivity|]. split; [reflexivity|]. split.
  { unfold bind. now rewrite Hr1. }
  auto.
Qed.

Lemma NewPgImp_takes_free_frame_witness :
  free_list_ two_frame_pool = [0; 1] /\
  exists b',
    NewPgImp two_frame_pool = Ok ((0, Some 0), b') /\
    free_list_ b' = [1] /\
    frame_metas b' = [(0, 1, false); (-1, 0, false)] /\
    journal (disk_manager_ b') = [DiskRead 0].
Proof.
  split; [reflexivity|].
  pose (b' := match NewPgImp two_frame_pool with
              | Ok (_, s) => s
              | Fault _ => two_frame_pool
              end).
  assert (E : NewPgImp two_frame_pool = Ok ((0, Some 0), b'))
    by (vm_compute; reflexivity).
  destruct (NewPgImp_takes_free_frame two_frame_pool b' 0 [1] _ eq_refl E)
    as (_ & Hfl & _ & Hps & _ & _ & Hj).
  exists b'. split; [exact E|]. split; [exact Hfl|].
  unfold frame_metas. rewrite Hps, Hj. split; reflexivity.
Defined.

(** X10. With an empty free list, a NewPgImp that returns a frame has
    taken the frame Victim chose: if the page in that frame was dirty it
    was written to disk under its own page ID before the frame was read
    into, its page table entry was removed, and the entry of the new page
    was added, unless the table had one for that page ID; the frame holds
    what ReadPage delivered for the new page ID, with pin count 1 and a
    clear dirty flag. *)
Theorem NewPgImp_replaces_victim (b b' : BufferPoolManagerInstance)
    page_id frame_id :
  free_list_ b = [] ->
  NewPgImp b = Ok ((page_id, Some frame_id), b') ->
  exists old r0,
    Victim (replacer_ b) = Ok (Some frame_id, r0) /\
    pages_ b !! Z.to_nat frame_id = Some old /\
    (Unpin frame_id ;; Pin frame_id) r0 = Ok (tt, replacer_ b') /\
    page_id = next_page_id_ b /\
    pages_ b' = <[Z.to_nat frame_id :=
                    fresh_frame page_id (written_back old (disk_manager_ b))]>
                  (pages_ b) /\
    page_table_ b' =
      table_insert page_id frame_id (delete (page_id_ old) (page_table_ b)) /\
    journal (disk_manager_ b') =
      journal (disk_manager_ b) ++
      (if is_dirty_ old then [DiskWrite (page_id_ old) (data_ old)] else []) ++
      [DiskRead page_id] /\
    free_list_ b' = [].
Proof.
  intros Hfl H.
  destruct (NewPgImp_evict_inv b b' page_id frame_id Hfl H)
    as (old & r0 & r1 & r2 & Hr0 & _ & Hold & Hr1 & Hr2 & Hid & ->).
  exists old, r0.
  cbn [free_list_ replacer_ pages_ page_table_ disk_manager_].
  split; [exact Hr0|]. split; [exact Hold|]. split.
  { unfold bind. now rewrite Hr1. }
  split; [exact Hid|]. split; [reflexivity|]. split; [reflexivity|].
  split; [|reflexivity].
  cbn [disk_read snd journal]. now rewrite written_back_journal, <- app_assoc.
Qed.

Lemma NewPgImp_replaces_victim_witness :
  free_list_ two_dirty_pages = [] /\
  exists b',
    NewPgImp two_dirty_pages = Ok ((2, Some 0), b') /\
    frame_metas b' = [(2, 1, false); (1, 0, false)] /\
    page_table_ b' = {[2 := 0; 1 := 1]} /\
    journal (disk_manager_ b') =
      [DiskRead 0; DiskRead 1;
       DiskWrite 0 (replicate BUSTUB_PAGE_SIZE Byte.xab); DiskRead 2].
Proof.
  split; [reflexivity|].
  pose (b' := match NewPgImp two_dirty_pages with
              | Ok (_, s) => s
              | Fault _ => two_dirty_pages
              end).
  assert (E : NewPgImp two_dirty_pages = Ok ((2, Some 0), b'))
    by (vm_compute; reflexivity).
  destruct (NewPgImp_replaces_victim two_dirty_pages b' 2 0 eq_refl E)
    as (old & r0 & _ & Hold & _ & _ & Hps & Ht & Hj & _).
  assert (old = mkPage (replicate BUSTUB_PAGE_SIZE Byte.xab) 0 0 true) as ->
    by (now injection Hold as <-).
  exists b'. split; [exact E|].
  unfold frame_metas. rewrite Hps, Ht, Hj.
  split; [reflexivity|]. split; [|reflexivity].
  vm_compute. reflexivity.
Defined.

(** X11. A NewPgImp that returns nullptr had an empty free list and a
    Victim that found nothing; it has consumed a page ID all the same
    (next_page_id is advanced), and has changed nothing else but what
    the failed Victim did to the replacer. *)
Theorem NewPgImp_without_frame (b b' : BufferPoolManagerInstance) page_id :
  NewPgImp b = Ok ((page_id, None), b') ->
  exists r,
    free_list_ b = [] /\
    Victim (replacer_ b) = Ok (None, r) /\
    page_id = next_page_id_ b /\
    b' = with_replacer r
           (with_next_page_id
              (int32_wrap (next_page_id_ b + num_instances_ b)) b).
Proof.
  intros H. unfold NewPgImp in H.
  apply bind_Ok in H as (pid & b1 & Halloc & H).
  apply AllocatePage_Ok in Halloc as (-> & ->).
  apply bind_Ok in H as (fl & b2 & Hg & H). injection Hg as <- <-.
  cbn [free_list_ with_next_page_id] in H.
  apply bind_Ok in H as (page & b3 & Htake & H).
  destruct page as [f|].
  { do 7 (apply bind_Ok in H as (? & ? & _ & H)). discriminate. }
  injection H as <- <-.
  destruct (free_list_ b) as [|f rest].
  2:{ apply bind_Ok in Htake as (? & ? & _ & Htake). discriminate. }
  apply bind_Ok in Htake as (found & b4 & Hvic & Htake).
  apply on_replacer_inv in Hvic as (r & Hr & ->). fields.
  destruct found as [f|].
  { apply bind_Ok in Htake as (? & ? & _ & Htake).
    do 2 (apply bind_Ok in Htake as (? & ? & _ & Htake)). discriminate. }
  injection Htake as <-. exists r. auto.
Qed.

Lemma NewPgImp_without_frame_witness :
  exists b',
    NewPgImp one_page_pool = Ok ((1, None), b') /\
    next_page_id_ b' = 2 /\
    b' = with_next_page_id 2 one_page_pool.
Proof.
  pose (b' := match NewPgImp one_page_pool with
              | Ok (_, s) => s
              | Fault _ => one_page_pool
              end).
  assert (E : NewPgImp one_page_pool = Ok ((1, None), b'))
    by (vm_compute; reflexivity).
  destruct (NewPgImp_without_frame one_page_pool b' 1 E)
    as (r & _ & Hr & _ & Hb').
  assert (r = replacer_ one_page_pool) as ->.
  { assert (Hsame : Victim (replacer_ one_page_pool)
                    = Ok (None, replacer_ one_page_pool))
      by (vm_compute; reflexivity).
    congruence. }
  exists b'. split; [exact E|]. rewrite Hb'. split; reflexivity.
Defined.

(** X12. A FetchPgImp of a page that is not resident, when it returns a
    frame, has taken that frame from the front of the free list or, with
    an empty free list, from Victim; if the page in that frame was dirty
    it was written to disk under its own page ID first; afterwards the
    page table maps the fetched page to the frame (and no longer the page
    that was there), the frame holds what ReadPage delivered for the
    fetched page, with pin count 1 and a clear dirty flag, and
    next_page_id is unchanged. *)
Theorem FetchPgImp_brings_page_in (b b' : BufferPoolManagerInstance)
    page_id frame_id :
  page_table_ b !! page_id = None ->
  FetchPgImp page_id b = Ok (Some frame_id, b') ->
  exists old r0,
    ((free_list_ b = frame_id :: free_list_ b' /\ r0 = replacer_ b) \/
     (free_list_ b = [] /\ free_list_ b' = [] /\
      Victim (replacer_ b) = Ok (Some frame_id, r0))) /\
    pages_ b !! Z.to_nat frame_id = Some old /\
    (Unpin frame_id ;; Pin frame_id) r0 = Ok (tt, replacer_ b') /\
    pages_ b' = <[Z.to_nat frame_id :=
                    fresh_frame page_id (written_back old (disk_manager_ b))]>
                  (pages_ b) /\
    page_table_ b' !! page_id = Some frame_id /\
    page_table_ b' =
      <[page_id := frame_id]> (delete (page_id_ old) (page_table_ b)) /\
    journal (disk_manager_ b') =
      journal (disk_manager_ b) ++
      (if is_dirty_ old then [DiskWrite (page_id_ old) (data_ old)] else []) ++
      [DiskRead page_id] /\
    next_page_id_ b' = next_page_id_ b.
Proof.
  intros Hnone H.
  destruct (FetchPgImp_miss_inv b b' page_id frame_id Hnone H)
    as (old & r0 & r1 & r2 & rest & Hsrc & _ & Hold & Hr1 & Hr2 & ->).
  exists old, r0.
  cbn [free_list_ replacer_ pages_ page_table_ disk_manager_ next_page_id_].
  split.
  { destruct Hsrc as [[Hfl ->] | (Hfl & -> & Hv)]; [left | right]; auto. }
  split; [exact Hold|]. split.
  { unfold bind. now rewrite Hr1. }
  split; [reflexivity|]. split; [apply lookup_insert_eq|].
  split; [reflexivity|]. split; [|reflexivity].
  cbn [disk_read snd journal]. now rewrite written_back_journal, <- app_assoc.
Qed.

Lemma FetchPgImp_brings_page_in_witness :
  page_table_ two_dirty_pages !! 7 = None /\
  exists b',
    FetchPgImp 7 two_dirty_pages = Ok (Some 0, b') /\
    frame_metas b' = [(7, 1, false); (1, 0, false)] /\
    page_table_ b' !! 7 = Some 0 /\
    page_table_ b' !! 0 = None.
Proof.
  split; [reflexivity|].
  pose (b' := match FetchPgImp 7 two_dirty_pages with
              | Ok (_, s) => s
              | Fault _ => two_dirty_pages
              end).
  assert (E : FetchPgImp 7 two_dirty_pages = Ok (Some 0, b'))
    by (vm_compute; reflexivity).
  destruct (FetchPgImp_brings_page_in two_dirty_pages b' 7 0 eq_refl E)
    as (old & r0 & _ & Hold & _ & Hps & Ht7 & Ht & _).
  assert (old = mkPage (replicate BUSTUB_PAGE_SIZE Byte.xab) 0 0 true) as ->
    by (now injection Hold as <-).
  exists b'. split; [exact E|].
  unfold frame_metas. rewrite Hps. split; [reflexivity|].
  split; [exact Ht7|]. rewrite Ht. reflexivity.
Defined.

(** X13. FetchPage of a page that is not resident returns nullptr and
    changes nothing at all when the free list is empty and every
    descriptor of the (intact) ring is pinned. *)
Theorem FetchPgImp_all_pinned (b : BufferPoolManagerInstance) page_id l :
  page_table_ b !! page_id = None ->
  free_list_ b = [] ->
  chain (heap (replacer_ b)) (current_ (replacer_ b)) l
        (current_ (replacer_ b)) ->
  length l = Z.to_nat (clock_size_ (replacer_ b)) ->
  Forall (fun nd => pin_ nd = true) l ->
  FetchPgImp page_id b = Ok (None, b).
Proof.
  intros Hnone Hfl Hc Hlen Hp.
  unfold FetchPgImp. unfold bind at 1, gets at 1. rewrite Hnone.
  unfold bind at 1, gets at 1. rewrite Hfl.
  unfold bind at 1, on_replacer at 1.
  rewrite (Victim_all_pinned _ l Hc Hlen Hp).
  unfold ret. now rewrite with_replacer_same.
Qed.

Lemma FetchPgImp_all_pinned_witness :
  page_table_ one_page_pool !! 5 = None /\
  free_list_ one_page_pool = [] /\
  FetchPgImp 5 one_page_pool = Ok (None, one_page_pool).
Proof.
  split; [reflexivity|]. split; [reflexivity|].
  apply (FetchPgImp_all_pinned one_page_pool 5
           [mkListNode true true 0 (Some 0%nat)]).
  - reflexivity.
  - reflexivity.
  - constructor; [vm_compute; reflexivity | constructor].
  - reflexivity.
  - constructor; [reflexivity | constructor].
Defined.

(** X14. FetchPage of the page NewPage has just created is a hit on the
    frame NewPage returned: it only pins the frame in the replacer and
    does no I/O.  (The page ID must not have had a page table entry
    before NewPage, which keeps an existing entry.) *)
Theorem FetchPgImp_finds_new_page (b b1 : BufferPoolManagerInstance)
    page_id frame_id :
  page_table_ b !! page_id = None ->
  NewPgImp b = Ok ((page_id, Some frame_id), b1) ->
  FetchPgImp page_id b1 =
    match Pin frame_id (replacer_ b1) with
    | Ok (_, r) => Ok (Some frame_id, with_replacer r b1)
    | Fault f => Fault f
    end.
Proof.
  intros Hnone Hnew. apply FetchPgImp_on_resident.
  destruct (free_list_ b) as [|f rest] eqn:Hfl.
  - apply (NewPgImp_evict_inv b b1 page_id frame_id Hfl) in Hnew
      as (old & r0 & r1 & r2 & _ & _ & _ & _ & _ & Hid & ->).
    cbn [page_table_]. now apply table_insert_lookup.
  - destruct (NewPgImp_free_inv b b1 f rest _ Hfl Hnew)
      as (old & r1 & r2 & _ & _ & _ & _ & [= Hpid Hf] & Hb1).
    subst page_id frame_id. rewrite Hb1.
    cbn [page_table_]. rewrite table_insert_absent by exact Hnone.
    apply lookup_insert_eq.
Qed.

Lemma FetchPgImp_finds_new_page_witness :
  page_table_ two_frame_pool !! 0 = None /\
  exists b1,
    NewPgImp two_frame_pool = Ok ((0, Some 0), b1) /\
    eval (FetchPgImp 0) b1 = Ok (Some 0).
Proof.
  split; [reflexivity|].
  pose (b1 := match NewPgImp two_frame_pool with
              | Ok (_, s) => s
              | Fault _ => two_frame_pool
              end).
  assert (E : NewPgImp two_frame_pool = Ok ((0, Some 0), b1))
    by (vm_compute; reflexivity).
  exists b1. split; [exact E|].
  unfold eval.
  rewrite (FetchPgImp_finds_new_page two_frame_pool b1 0 0 eq_refl E).
  vm_compute. reflexivity.
Defined.

(** X15. A dirty page that is evicted comes back from the disk: if
    NewPage replaces a dirty page (held by no other frame), and that page
    is fetched again later, the frame FetchPage returns holds the data the
    page had when it was evicted, under its page ID, with pin count 1 and
    a clear dirty flag. *)
Theorem dirty_page_survives_eviction (b b1 b2 : BufferPoolManagerInstance)
    page_id frame_id old frame_id' :
  free_list_ b = [] ->
  pages_ b !! Z.to_nat frame_id = Some old ->
  is_dirty_ old = true ->
  page_id_ old <> page_id ->
  (forall i page, pages_ b !! i = Some page ->
                  page_id_ page = page_id_ old -> i = Z.to_nat frame_id) ->
  NewPgImp b = Ok ((page_id, Some frame_id), b1) ->
  FetchPgImp (page_id_ old) b1 = Ok (Some frame_id', b2) ->
  pages_ b2 !! Z.to_nat frame_id' =
    Some (mkPage (data_ old) (page_id_ old) 1 false).
Proof.
  intros Hfl Hold Hdirty Hne Huniq Hnew Hfetch.
  apply (NewPgImp_evict_inv b b1 page_id frame_id Hfl) in Hnew
    as (old' & r0 & r1 & r2 & _ & _ & Hold' & _ & _ & Hid & ->).
  rewrite Hold in Hold'. injection Hold' as <-.
  apply FetchPgImp_miss_inv in Hfetch
    as (old1 & r0' & r1' & r2' & rest & _ & _ & Hold1 & _ & _ & ->).
  2:{ cbn [page_table_]. unfold table_insert.
      destruct (delete (page_id_ old) (page_table_ b) !! page_id) eqn:E.
      - apply lookup_delete_eq.
      - rewrite lookup_insert_ne by congruence. apply lookup_delete_eq. }
  cbn [pages_ disk_manager_] in *.
  rewrite list_lookup_insert_eq by (eapply lookup_lt_Some; exact Hold1).
  unfold fresh_frame. f_equal. f_equal.
  unfold disk_read at 1. cbn [fst].
  assert (Hother : page_id_ old1 <> page_id_ old).
  { destruct (decide (Z.to_nat frame_id' = Z.to_nat frame_id)) as [E|E].
    - rewrite E, list_lookup_insert_eq in Hold1
        by (eapply lookup_lt_Some; exact Hold).
      injection Hold1 as <-. cbn. congruence.
    - rewrite list_lookup_insert_ne in Hold1 by congruence.
      intros Heq. apply E. eapply Huniq; eauto. }
  rewrite written_back_other by exact Hother.
  unfold disk_read. cbn [snd blocks]. unfold written_back. rewrite Hdirty.
  cbn [blocks disk_write]. now rewrite lookup_insert_eq.
Qed.

Lemma dirty_page_survives_eviction_witness :
  pages_ two_dirty_pages !! Z.to_nat 0 =
    Some (mkPage (replicate BUSTUB_PAGE_SIZE Byte.xab) 0 0 true) /\
  exists b1 b2,
    NewPgImp two_dirty_pages = Ok ((2, Some 0), b1) /\
    FetchPgImp 0 b1 = Ok (Some 1, b2) /\
    pages_ b2 !! Z.to_nat 1 =
      Some (mkPage (replicate BUSTUB_PAGE_SIZE Byte.xab) 0 1 false).
Proof.
  split; [reflexivity|].
  pose (b1 := match NewPgImp two_dirty_pages with
              | Ok (_, s) => s
              | Fault _ => two_dirty_pages
              end).
  pose (b2 := match FetchPgImp 0 b1 with
              | Ok (_, s) => s
              | Fault _ => b1
              end).
  assert (E1 : NewPgImp two_dirty_pages = Ok ((2, Some 0), b1))
    by (vm_compute; reflexivity).
  assert (E2 : FetchPgImp 0 b1 = Ok (Some 1, b2))
    by (vm_compute; reflexivity).
  exists b1, b2. split; [exact E1|]. split; [exact E2|].
  apply (dirty_page_survives_eviction two_dirty_pages b1 b2 2 0
           (mkPage (replicate BUSTUB_PAGE_SIZE Byte.xab) 0 0 true) 1).
  - reflexivity.
  - reflexivity.
  - reflexivity.
  - cbn. lia.
  - intros [|[|i]] page Hp Hid; [reflexivity | | discriminate].
    injection Hp as <-. discriminate.
  - exact E1.
  - exact E2.
Defined.

(** X16. After any UnpinPage of a resident page, a further UnpinPage of
    that page returns false: it overwrites the dirty flag with its
    argument once more, and changes nothing else (the replacer is not
    called). *)
Theorem UnpinPgImp_again_returns_false (b b1 : BufferPoolManagerInstance)
    page_id frame_id is_dirty is_dirty' v :
  page_table_ b !! page_id = Some frame_id ->
  UnpinPgImp page_id is_dirty b = Ok (v, b1) ->
  exists page,
    pages_ b1 !! Z.to_nat frame_id = Some page /\
    UnpinPgImp page_id is_dirty' b1 =
      Ok (false,
          with_pages (<[Z.to_nat frame_id := set_is_dirty is_dirty' page]>
                        (pages_ b1)) b1).
Proof.
  intros Ht H.
  assert (Hin : exists page, 0 <= frame_id /\
                  pages_ b !! Z.to_nat frame_id = Some page).
  { unfold UnpinPgImp in H.
    apply bind_Ok in H as (t & b0 & Hg & H). injection Hg as <- <-.
    rewrite Ht in H. apply bind_Ok in H as (u & b2 & Hup & _).
    apply update_page_Ok in Hup as (page & H0 & Hp & _). eauto. }
  destruct Hin as (page & H0 & Hp).
  rewrite (UnpinPgImp_on_resident b page_id is_dirty frame_id page Ht H0 Hp)
    in H.
  assert (Hlen : (Z.to_nat frame_id < length (pages_ b))%nat)
    by (eapply lookup_lt_Some; eauto).
  assert (Hb1 : exists page1,
            page_table_ b1 !! page_id = Some frame_id /\
            pages_ b1 !! Z.to_nat frame_id = Some page1 /\
            pin_count_ page1 <= 0).
  { destruct (0 <? pin_count_ page) eqn:E.
    - destruct (Unpin frame_id (replacer_ b)) as [[[] r]|]; [|discriminate].
      injection H as _ <-. eexists. cbn. split; [exact Ht|].
      split; [now apply list_lookup_insert_eq | cbn; lia].
    - injection H as _ <-. eexists. cbn. split; [exact Ht|].
      split; [now apply list_lookup_insert_eq | cbn; lia]. }
  destruct Hb1 as (page1 & Ht1 & Hp1 & Hpin).
  exists page1. split; [exact Hp1|].
  rewrite (UnpinPgImp_on_resident b1 page_id is_dirty' frame_id page1 Ht1 H0 Hp1).
  destruct (0 <? pin_count_ page1) eqn:E; [lia | reflexivity].
Qed.

Lemma UnpinPgImp_again_returns_false_witness :
  page_table_ one_page_pool !! 0 = Some 0 /\
  exists b1,
    UnpinPgImp 0 true one_page_pool = Ok (true, b1) /\
    eval (UnpinPgImp 0 false) b1 = Ok false /\
    match exec (UnpinPgImp 0 false) b1 with
    | Ok b2 => frame_meta 0 b2 = Some (0, 0, false)
    | Fault _ => False
    end.
Proof.
  split; [reflexivity|].
  pose (b1 := match UnpinPgImp 0 true one_page_pool with
              | Ok (_, s) => s
              | Fault _ => one_page_pool
              end).
  assert (E : UnpinPgImp 0 true one_page_pool = Ok (true, b1))
    by (vm_compute; reflexivity).
  exists b1. split; [exact E|].
  destruct (UnpinPgImp_again_returns_false one_page_pool b1 0 0 true false true
              eq_refl E) as (page & Hp & Hagain).
  unfold eval, exec. rewrite Hagain. split; [reflexivity|].
  unfold frame_meta. cbn [pages_ with_pages].
  rewrite (lookup_updated _ _ _ _ Hp).
  assert (page = mkPage zero_data 0 0 true) as ->
    by (now injection Hp as <-).
  reflexivity.
Defined.

(** * The buffer pool manager: FlushAllPgsImp *)

Lemma set_is_dirty_clean page :
  is_dirty_ page = false -> set_is_dirty false page = page.
Proof. destruct page. cbn. now intros ->. Qed.

(** One step of the loop: the frame is clean afterwards, and was written
    if it was dirty. *)
Lemma flush_entry_step (b : BufferPoolManagerInstance) page_id frame_id page :
  0 <= frame_id -> pages_ b !! Z.to_nat frame_id = Some page ->
  flush_entry (page_id, frame_id) b =
    Ok (tt, with_pages (<[Z.to_nat frame_id := set_is_dirty false page]>
                          (pages_ b))
              (with_disk_manager
                 (if is_dirty_ page
                  then disk_write page_id (data_ page) (disk_manager_ b)
                  else disk_manager_ b) b)).
Proof.
  intros H0 Hp. unfold flush_entry. unfold bind at 1.
  rewrite (page_at_lookup b frame_id page H0 Hp).
  destruct (is_dirty_ page) eqn:E.
  - unfold bind, WritePage, modify.
    now rewrite (update_page_lookup _ frame_id page) by assumption.
  - unfold ret. rewrite set_is_dirty_clean by exact E.
    rewrite list_insert_id by exact Hp. now destruct b.
Qed.

(** What the loop does, for any list of entries that point into the frame
    array: it returns; each frame keeps everything but its dirty flag,
    which is clear if the frame was a target; the disk manager has received
    writes of dirty target frames only, and one for every dirty target
    frame. *)
Lemma flush_entries_spec entries : forall b : BufferPoolManagerInstance,
  (forall page_id frame_id,
      (page_id, frame_id) ∈ entries ->
      0 <= frame_id /\ is_Some (pages_ b !! Z.to_nat frame_id)) ->
  exists ps ws,
    flush_entries entries b =
      Ok (tt, with_pages ps
                (with_disk_manager
                   (mkDiskManager
                      (blocks_after ws (blocks (disk_manager_ b)))
                      (journal (disk_manager_ b) ++ ws)) b)) /\
    length ps = length (pages_ b) /\
    (forall i page, pages_ b !! i = Some page ->
       exists page',
         ps !! i = Some page' /\
         set_is_dirty false page' = set_is_dirty false page /\
         (is_dirty_ page = false -> is_dirty_ page' = false) /\
         (targets entries i -> is_dirty_ page' = false) /\
         (~ targets entries i -> page' = page)) /\
    Forall (flushes entries b) ws /\
    (forall page_id frame_id page,
        (page_id, frame_id) ∈ entries ->
        pages_ b !! Z.to_nat frame_id = Some page ->
        is_dirty_ page = true ->
        exists page_id',
          (page_id', frame_id) ∈ entries /\
          DiskWrite page_id' (data_ page) ∈ ws).
Proof.
  induction entries as [|[pid f] es IH]; intros b Hin.
  { exists (pages_ b), []. cbn [flush_entries blocks_after foldl].
    rewrite app_nil_r.
    split; [destruct b as [? ? ? ? ? ? ? ? []]; reflexivity|].
    split; [reflexivity|]. split; [|split; [constructor|]].
    - intros i page Hp. exists page. repeat split; auto.
      intros (p' & f' & Hel & _). inversion Hel.
    - intros p' f' page Hel. inversion Hel. }
  destruct (Hin pid f) as [H0 [p0 Hp0]]; [left|].
  set (b1 := with_pages (<[Z.to_nat f := set_is_dirty false p0]> (pages_ b))
               (with_disk_manager
                  (if is_dirty_ p0
                   then disk_write pid (data_ p0) (disk_manager_ b)
                   else disk_manager_ b) b)).
  assert (Hlen0 : (Z.to_nat f < length (pages_ b))%nat)
    by (eapply lookup_lt_Some; eauto).
  destruct (IH b1) as (ps & ws & Hrun & Hlen & Hps & Hws & Hall).
  { intros p' f' Hel. destruct (Hin p' f') as [H0' [x Hx]]; [now right|].
    split; [exact H0'|]. subst b1. cbn [pages_ with_pages].
    apply lookup_lt_is_Some. rewrite length_insert.
    eapply lookup_lt_Some; eauto. }
  set (w0 := if is_dirty_ p0 then [DiskWrite pid (data_ p0)] else []).
  exists ps, (w0 ++ ws).
  split; [|split; [|split; [|split]]].
  - cbn [flush_entries]. unfold bind at 1.
    rewrite (flush_entry_step b pid f p0 H0 Hp0). fold b1. rewrite Hrun.
    subst b1 w0. cbn [pages_ disk_manager_ with_pages with_disk_manager
                       pool_size_ num_instances_ instance_index_ next_page_id_
                       replacer_ free_list_ page_table_].
    unfold blocks_after.
    destruct (is_dirty_ p0); cbn [disk_write blocks journal app foldl];
      rewrite <- ?app_assoc; reflexivity.
  - rewrite Hlen. subst b1. cbn. now rewrite length_insert.
  - intros i page Hp.
    destruct (decide (i = Z.to_nat f)) as [->|Hne].
    + rewrite Hp0 in Hp. injection Hp as <-.
      destruct (Hps (Z.to_nat f) (set_is_dirty false p0))
        as (page' & Hp' & Hsame & Hstay & Hclean & Hkeep).
      { subst b1. cbn. now apply list_lookup_insert_eq. }
      exists page'. split; [exact Hp'|]. split; [exact Hsame|].
      split; [|split].
      * intros _. now apply Hstay.
      * intros _. now apply Hstay.
      * intros Hnt. exfalso. apply Hnt. exists pid, f. split; [left|]; auto.
    + destruct (Hps i page) as (page' & Hp' & Hsame & Hstay & Hclean & Hkeep).
      { subst b1. cbn. now rewrite list_lookup_insert_ne by congruence. }
      exists page'. split; [exact Hp'|]. split; [exact Hsame|].
      split; [exact Hstay|]. split.
      * intros (p' & f' & Hel & Hi). apply Hclean.
        apply elem_of_cons in Hel as [[= -> ->] | Hel]; [congruence|].
        now exists p', f'.
      * intros Hnt. apply Hkeep. intros (p' & f' & Hel & Hi). apply Hnt.
        exists p', f'. split; [now right | exact Hi].
  - apply Forall_app. split.
    + subst w0. destruct (is_dirty_ p0) eqn:E; constructor; [|constructor].
      exists pid, f, p0. repeat split; auto. left.
    + eapply Forall_impl; [exact Hws|].
      intros c (p' & f' & page & Hel & Hp & Hd & ->).
      exists p', f', page. split; [now right|]. split; [|auto].
      subst b1. cbn in Hp.
      destruct (decide (Z.to_nat f' = Z.to_nat f)) as [E|E].
      * rewrite E, list_lookup_insert_eq in Hp by exact Hlen0.
        injection Hp as <-. discriminate.
      * now rewrite list_lookup_insert_ne in Hp by congruence.
  - intros p' f' page Hel Hp Hd.
    destruct (decide (Z.to_nat f' = Z.to_nat f)) as [E|E].
    + assert (f' = f) as ->.
      { destruct (Hin p' f' Hel) as [H0' _]. lia. }
      rewrite Hp0 in Hp. injection Hp as <-.
      exists pid. split; [left|]. subst w0. rewrite Hd.
      apply elem_of_app. left. left.
    + apply elem_of_cons in Hel as [[= -> ->] | Hel]; [congruence|].
      destruct (Hall p' f' page Hel) as (p'' & Hel' & Hw); [|exact Hd|].
      { subst b1. cbn. now rewrite list_lookup_insert_ne by congruence. }
      exists p''. split; [now right|]. apply elem_of_app. now right.
Qed.

Lemma entries_of_table (b : BufferPoolManagerInstance) entries page_id frame_id :
  entries ≡ₚ map_to_list (page_table_ b) ->
  (page_id, frame_id) ∈ entries <-> page_table_ b !! page_id = Some frame_id.
Proof. intros Hperm. rewrite Hperm. apply elem_of_map_to_list. Qed.

Lemma table_entries_in_range (b : BufferPoolManagerInstance) entries :
  entries ≡ₚ map_to_list (page_table_ b) ->
  table_in_range b ->
  forall page_id frame_id,
    (page_id, frame_id) ∈ entries ->
    0 <= frame_id /\ is_Some (pages_ b !! Z.to_nat frame_id).
Proof.
  intros Hperm Hrange p f Hel. apply Hrange with p.
  now apply (entries_of_table b entries).
Qed.

Lemma two_dirty_pages_in_range : table_in_range two_dirty_pages.
Proof.
  eapply (table_in_range_after_calls 2);
    [unfold INT_MAX; lia | exact two_frame_pool_new
    | exact two_dirty_pages_reached].
Qed.

(** X17. FlushAllPgs, in whatever order the page table is enumerated and
    whenever the page table points into the frame array (as it does in
    every state a pool of at most INT_MAX frames reaches): the loop
    returns; afterwards every frame the
    page table refers to is clean; every frame keeps its data, page ID and
    pin count; frames the page table does not refer to are untouched, a
    dirty one stays dirty; and nothing but frames and disk manager has
    changed. *)
Theorem FlushAllPgsImp_cleans_resident_frames
    (b : BufferPoolManagerInstance) entries :
  entries ≡ₚ map_to_list (page_table_ b) ->
  table_in_range b ->
  exists b',
    flush_entries entries b = Ok (tt, b') /\
    (forall page_id frame_id,
        page_table_ b !! page_id = Some frame_id ->
        exists page, pages_ b' !! Z.to_nat frame_id = Some page /\
                     is_dirty_ page = false) /\
    set_is_dirty false <$> pages_ b' = set_is_dirty false <$> pages_ b /\
    (forall i page,
        pages_ b !! i = Some page ->
        (forall page_id frame_id,
            page_table_ b !! page_id = Some frame_id -> Z.to_nat frame_id <> i) ->
        pages_ b' !! i = Some page) /\
    with_pages (pages_ b) (with_disk_manager (disk_manager_ b) b') = b.
Proof.
  intros Hperm Hrange.
  destruct (flush_entries_spec entries b
              (table_entries_in_range b entries Hperm Hrange))
    as (ps & ws & Hrun & Hlen & Hps & _ & _).
  eexists. split; [exact Hrun|]. cbn [pages_ with_pages].
  split; [|split; [|split]].
  - intros p f Ht. destruct (Hrange p f Ht) as [H0 [page Hp]].
    destruct (Hps _ page Hp) as (page' & Hp' & _ & _ & Hclean & _).
    exists page'. split; [exact Hp'|]. apply Hclean.
    exists p, f. split; [|reflexivity]. now apply (entries_of_table b entries).
  - apply list_eq. intros i. rewrite !list_lookup_fmap.
    destruct (pages_ b !! i) as [page|] eqn:Hp.
    + destruct (Hps i page Hp) as (page' & -> & Hsame & _). cbn. now f_equal.
    + apply lookup_ge_None in Hp. rewrite <- Hlen in Hp.
      apply lookup_ge_None in Hp. now rewrite Hp.
  - intros i page Hp Hnot.
    destruct (Hps i page Hp) as (page' & Hp' & _ & _ & _ & Hkeep).
    rewrite Hp'. f_equal. apply Hkeep.
    intros (p & f & Hel & Hi). apply (Hnot p f); [|exact Hi].
    now apply (entries_of_table b entries).
  - now destruct b.
Qed.

Lemma FlushAllPgsImp_cleans_resident_frames_witness :
  table_in_range two_dirty_pages /\
  frame_metas two_dirty_pages = [(0, 0, true); (1, 0, false)] /\
  exists b',
    FlushAllPgsImp two_dirty_pages = Ok (tt, b') /\
    frame_metas b' = [(0, 0, false); (1, 0, false)].
Proof.
  split; [exact two_dirty_pages_in_range|]. split; [reflexivity|].
  destruct (FlushAllPgsImp_cleans_resident_frames two_dirty_pages
              (map_to_list (page_table_ two_dirty_pages)))
    as (b' & Hrun & _ & Hsame & _); [reflexivity|exact two_dirty_pages_in_range|].
  exists b'. split; [exact Hrun|].
  assert (Hclean : Forall (fun p => is_dirty_ p = false) (pages_ b')).
  { vm_compute in Hrun. injection Hrun as <-.
    repeat constructor. }
  unfold frame_metas.
  assert (Heq : pages_ b' = set_is_dirty false <$> pages_ b').
  { clear Hsame Hrun. induction Hclean as [|p ps Hp _ IH]; [reflexivity|].
    cbn. now rewrite set_is_dirty_clean, <- IH. }
  rewrite Heq, Hsame. reflexivity.
Defined.

(** X18. FlushAllPgs writes exactly the dirty resident frames: the disk
    manager receives nothing but WritePage calls, each with the data of a
    frame that was dirty, under a page ID the page table maps to that
    frame; and for every dirty frame the page table refers to there is
    such a write.  A clean frame is not written. *)
Theorem FlushAllPgsImp_writes_dirty_frames
    (b : BufferPoolManagerInstance) entries :
  entries ≡ₚ map_to_list (page_table_ b) ->
  table_in_range b ->
  exists b' ws,
    flush_entries entries b = Ok (tt, b') /\
    journal (disk_manager_ b') = journal (disk_manager_ b) ++ ws /\
    blocks (disk_manager_ b') = blocks_after ws (blocks (disk_manager_ b)) /\
    (forall c, c ∈ ws ->
       exists page_id frame_id page,
         page_table_ b !! page_id = Some frame_id /\
         pages_ b !! Z.to_nat frame_id = Some page /\
         is_dirty_ page = true /\
         c = DiskWrite page_id (data_ page)) /\
    (forall page_id frame_id page,
        page_table_ b !! page_id = Some frame_id ->
        pages_ b !! Z.to_nat frame_id = Some page ->
        is_dirty_ page = true ->
        exists page_id',
          page_table_ b !! page_id' = Some frame_id /\
          DiskWrite page_id' (data_ page) ∈ ws).
Proof.
  intros Hperm Hrange.
  destruct (flush_entries_spec entries b
              (table_entries_in_range b entries Hperm Hrange))
    as (ps & ws & Hrun & _ & _ & Hws & Hall).
  eexists. exists ws. split; [exact Hrun|].
  cbn [disk_manager_ with_pages with_disk_manager journal blocks].
  split; [reflexivity|]. split; [reflexivity|]. split.
  - intros c Hc. rewrite Forall_forall in Hws.
    destruct (Hws c Hc) as (p & f & page & Hel & Hp & Hd & ->).
    exists p, f, page. split; [|auto].
    now apply (entries_of_table b entries).
  - intros p f page Ht Hp Hd.
    destruct (Hall p f page) as (p' & Hel & Hw); auto.
    { now apply (entries_of_table b entries). }
    exists p'. split; [|exact Hw]. now apply (entries_of_table b entries) in Hel.
Qed.

Lemma FlushAllPgsImp_writes_dirty_frames_witness :
  table_in_range two_dirty_pages /\
  exists b',
    FlushAllPgsImp two_dirty_pages = Ok (tt, b') /\
    journal (disk_manager_ b') =
      [DiskRead 0; DiskRead 1;
       DiskWrite 0 (replicate BUSTUB_PAGE_SIZE Byte.xab)].
Proof.
  split; [exact two_dirty_pages_in_range|].
  destruct (FlushAllPgsImp_writes_dirty_frames two_dirty_pages
              (map_to_list (page_table_ two_dirty_pages)))
    as (b' & ws & Hrun & Hj & _);
    [reflexivity | exact two_dirty_pages_in_range |].
  exists b'. split; [exact Hrun|].
  vm_compute in Hrun. injection Hrun as <-. reflexivity.
Defined.

(** * The buffer pool manager: what every sequence of public calls keeps *)

Lemma all_frames_flush_entries (P : Page -> Prop) entries :
  (forall p, P p -> P (set_is_dirty false p)) ->
  preserves (all_frames P) (flush_entries entries).
Proof.
  intros HP. induction entries as [|[p f] es IH]; cbn [flush_entries].
  - apply preserves_ret.
  - apply preserves_bind; [|intros _; exact IH].
    unfold flush_entry.
    apply preserves_bind; [apply all_frames_page_at|]. intros page.
    destruct (is_dirty_ page); [|apply preserves_ret].
    apply preserves_bind; [apply all_frames_WritePage|]. intros _.
    now apply all_frames_update_page.
Qed.

Lemma range_flush_entries n entries :
  preserves (frames_in_range n) (flush_entries entries).
Proof.
  induction entries as [|[p f] es IH]; cbn [flush_entries].
  - apply preserves_ret.
  - apply preserves_bind; [|intros _; exact IH].
    unfold flush_entry.
    apply preserves_bind; [apply range_page_at|]. intros page.
    destruct (is_dirty_ page); [|apply preserves_ret].
    apply preserves_bind; [apply range_WritePage|]. intros _.
    apply range_update_page.
Qed.

Lemma preserves_run_call {I : BufferPoolManagerInstance -> Prop} c :
  preserves I (run_calls [c]) -> preserves I (run_call c).
Proof.
  intros Hc b u b' Hb Hrun. apply (Hc b tt b' Hb).
  cbn [run_calls]. unfold bind. rewrite Hrun. now destruct u.
Qed.

Lemma all_frames_run_requests (P : Page -> Prop) qs :
  (forall d p, P p -> P (set_data d p)) ->
  (forall i p, P p -> P (set_page_id i p)) ->
  (forall d p, P p -> P (set_is_dirty d p)) ->
  (forall p, P p -> P (set_pin_count 0 p)) ->
  (forall p, P p -> P (set_pin_count 1 p)) ->
  preserves (all_frames P) (run_requests qs).
Proof.
  intros H1 H2 H3 H4 H5.
  induction qs as [|q qs IH]; cbn [run_requests]; [apply preserves_ret|].
  apply preserves_bind; [|intros _; exact IH].
  destruct q as [c|]; cbn [run_request].
  - apply preserves_run_call. now apply all_frames_run_calls.
  - unfold FlushAllPgsImp.
    apply preserves_bind; [apply preserves_gets|]. intros t.
    apply all_frames_flush_entries. apply H3.
Qed.

Lemma range_run_requests n qs :
  preserves (frames_in_range n) (run_requests qs).
Proof.
  induction qs as [|q qs IH]; cbn [run_requests]; [apply preserves_ret|].
  apply preserves_bind; [|intros _; exact IH].
  destruct q as [c|]; cbn [run_request].
  - apply preserves_run_call. apply range_run_calls.
  - unfold FlushAllPgsImp.
    apply preserves_bind; [apply preserves_gets|]. intros t.
    apply range_flush_entries.
Qed.

(** X19. The pin count is a flag: after any sequence of public calls
    (NewPage, FetchPage, UnpinPage, FlushPage, DeletePage, FlushAllPages)
    on a freshly constructed instance, every frame has pin count 0 or 1.
    No call counts the users of a page. *)
Theorem pin_count_is_a_flag pool_size num_instances instance_index disk
    qs (b b' : BufferPoolManagerInstance) u :
  BPM.new pool_size num_instances instance_index disk = Ok b ->
  run_requests qs b = Ok (u, b') ->
  Forall pin_count_0_or_1 (pages_ b').
Proof.
  intros Hnew Hrun.
  eapply (all_frames_run_requests pin_count_0_or_1); try exact Hrun;
    try (unfold pin_count_0_or_1; cbn; intros; tauto).
  unfold BPM.new in Hnew.
  destruct (negb (0 <? num_instances)); [discriminate|].
  destruct (negb (instance_index <? num_instances)); [discriminate|].
  injection Hnew as <-. unfold all_frames. cbn.
  apply Forall_replicate. now left.
Qed.

Lemma pin_count_is_a_flag_witness :
  BPM.new 2 1 0 used_disk = Ok two_frame_pool /\
  exists b',
    run_requests mixed_requests two_frame_pool = Ok (tt, b') /\
    Forall pin_count_0_or_1 (pages_ b').
Proof.
  split; [reflexivity|].
  pose (b' := match run_requests mixed_requests two_frame_pool with
              | Ok (_, s) => s
              | Fault _ => two_frame_pool
              end).
  assert (E : run_requests mixed_requests two_frame_pool = Ok (tt, b'))
    by (vm_compute; reflexivity).
  exists b'. split; [exact E|].
  exact (pin_count_is_a_flag 2 1 0 used_disk mixed_requests
           two_frame_pool b' tt eq_refl E).
Defined.

(** X20. Frame IDs stay inside the frame array, on a pool whose frame IDs
    fit the 32-bit signed frame ID type (pool_size <= INT_MAX; the
    constructor fills the free list with static_cast<int>(i), which is
    negative for larger i): after any sequence of public calls on a
    freshly constructed instance, the frame array still has pool_size
    frames, and every frame ID held by the page table, by the free list or
    by a descriptor of the replacer lies in [0, pool_size).  So no call
    that returns has indexed the frame array out of bounds. *)
Theorem frame_ids_stay_in_range pool_size num_instances instance_index disk
    qs (b b' : BufferPoolManagerInstance) u :
  pool_size <= INT_MAX ->
  BPM.new pool_size num_instances instance_index disk = Ok b ->
  run_requests qs b = Ok (u, b') ->
  frames_in_range (Z.of_nat (Z.to_nat pool_size)) b'.
Proof.
  intros Hsize Hnew Hrun.
  eapply range_run_requests; [|exact Hrun].
  eapply frames_in_range_new; eauto.
Qed.

Lemma frame_ids_stay_in_range_witness :
  2 <= INT_MAX /\
  BPM.new 2 1 0 used_disk = Ok two_frame_pool /\
  exists b',
    run_requests mixed_requests two_frame_pool = Ok (tt, b') /\
    frames_in_range 2 b'.
Proof.
  assert (Hsize : 2 <= INT_MAX) by (unfold INT_MAX; lia).
  split; [exact Hsize|]. split; [reflexivity|].
  pose (b' := match run_requests mixed_requests two_frame_pool with
              | Ok (_, s) => s
              | Fault _ => two_frame_pool
              end).
  assert (E : run_requests mixed_requests two_frame_pool = Ok (tt, b'))
    by (vm_compute; reflexivity).
  exists b'. split; [exact E|].
  exact (frame_ids_stay_in_range 2 1 0 used_disk mixed_requests
           two_frame_pool b' tt Hsize eq_refl E).
Defined.

(** ** The free list *)

Section FreeList.

Variable l : list Z.

Lemma left_page_at f : preserves (free_list_left l) (page_at f).
Proof.
  intros b p b' HI H. apply page_at_Ok in H as (_ & _ & ->). exact HI.
Qed.

Lemma left_update_page f g : preserves (free_list_left l) (update_page f g).
Proof.
  intros b u b' HI H. apply update_page_Ok in H as (p & _ & _ & ->). exact HI.
Qed.

Lemma left_on_replacer {A} (m : M ClockReplacer A) :
  preserves (free_list_left l) (on_replacer m).
Proof.
  intros b a b' HI H. apply on_replacer_Ok in H as (r & ->). exact HI.
Qed.

Ltac left_alone :=
  repeat first
    [ apply preserves_ret | apply preserves_gets | apply preserves_fail
    | apply left_page_at | apply left_update_page
    | apply left_on_replacer
    | apply preserves_modify; intros ? Hkept; exact Hkept
    | apply preserves_bind; [|intros ?]
    | match goal with
      | |- preserves _ (if ?c then _ else _) => destruct c
      | |- preserves _ (match ?c with Some _ => _ | None => _ end) => destruct c
      end ].

(** Reading the free list. *)
Lemma left_take {A} (k : list Z -> M BufferPoolManagerInstance A) :
  (forall fl, fl `suffix_of` l ->
              preserves (free_list_left l) (k fl)) ->
  preserves (free_list_left l) (let* fl := gets free_list_ in k fl).
Proof.
  intros Hk. apply (establishes_bind _ (fun fl => fl `suffix_of` l)).
  - apply establishes_gets. auto.
  - exact Hk.
Qed.

(** Taking the front frame off the free list. *)
Lemma left_pop f rest :
  f :: rest `suffix_of` l ->
  preserves (free_list_left l) (modify (with_free_list rest)).
Proof.
  intros Hs. apply preserves_modify. intros b _. unfold free_list_left. cbn.
  eapply suffix_cons_l; eauto.
Qed.

Lemma left_NewPgImp : preserves (free_list_left l) NewPgImp.
Proof.
  unfold NewPgImp.
  apply preserves_bind;
    [unfold AllocatePage, ValidatePageId; left_alone|]. intros page_id.
  apply left_take. intros fl Hfl.
  apply preserves_bind.
  - destruct fl as [|f rest].
    + unfold WritePage. left_alone.
    + apply preserves_bind; [eapply left_pop; eauto|]. intros _.
      apply preserves_ret.
  - intros page. unfold ReadPage. left_alone.
Qed.

Lemma left_FetchPgImp i : preserves (free_list_left l) (FetchPgImp i).
Proof.
  unfold FetchPgImp.
  apply preserves_bind; [apply preserves_gets|]. intros t.
  destruct (t !! i); [left_alone|].
  apply left_take. intros fl Hfl.
  apply preserves_bind.
  - destruct fl as [|f rest]; [left_alone|].
    apply preserves_bind; [eapply left_pop; eauto|]. intros _.
    apply preserves_ret.
  - intros page. unfold ReadPage, WritePage. left_alone.
Qed.

Lemma left_run_call c : preserves (free_list_left l) (run_call c).
Proof.
  destruct c; cbn [run_call];
    (apply preserves_bind; [|intros ?; apply preserves_ret]).
  - apply left_NewPgImp.
  - apply left_FetchPgImp.
  - unfold UnpinPgImp. left_alone.
  - unfold FlushPgImp, WritePage. left_alone.
  - unfold DeletePgImp. left_alone.
Qed.

Lemma left_flush_entries entries :
  preserves (free_list_left l) (flush_entries entries).
Proof.
  induction entries as [|[p f] es IH]; cbn [flush_entries].
  - apply preserves_ret.
  - apply preserves_bind; [|intros _; exact IH].
    unfold flush_entry, WritePage. left_alone.
Qed.

Lemma left_run_requests qs : preserves (free_list_left l) (run_requests qs).
Proof.
  induction qs as [|q qs IH]; cbn [run_requests]; [apply preserves_ret|].
  apply preserves_bind; [|intros _; exact IH].
  destruct q as [c|]; cbn [run_request]; [apply left_run_call|].
  unfold FlushAllPgsImp.
  apply preserves_bind; [apply preserves_gets | intros t].
  apply left_flush_entries.
Qed.

End FreeList.

(** X21. The free list never grows: from any state, after any sequence of
    public calls, the free list is a suffix of what it was.  NewPage and
    FetchPage take frames from its front, and no call, DeletePage
    included, ever puts a frame back. *)
Theorem free_list_never_grows qs (b b' : BufferPoolManagerInstance) u :
  run_requests qs b = Ok (u, b') ->
  free_list_ b' `suffix_of` free_list_ b.
Proof.
  intros Hrun.
  exact (left_run_requests (free_list_ b) qs b u b' (reflexivity _) Hrun).
Qed.

Lemma free_list_never_grows_witness :
  exists b',
    run_requests mixed_requests two_frame_pool = Ok (tt, b') /\
    free_list_ b' `suffix_of` [0; 1].
Proof.
  pose (b' := match run_requests mixed_requests two_frame_pool with
              | Ok (_, s) => s
              | Fault _ => two_frame_pool
              end).
  assert (E : run_requests mixed_requests two_frame_pool = Ok (tt, b'))
    by (vm_compute; reflexivity).
  exists b'. split; [exact E|].
  exact (free_list_never_grows mixed_requests two_frame_pool b' tt E).
Defined.

(** * Filling a fresh pool *)

(** ** The replacer while frames are only added and pinned *)

Lemma ring_nodes_chain h k m : forall j,
  (j + m = k)%nat ->
  (forall a, (a < k)%nat -> h !! a = Some (pinned_node k a)) ->
  achain h (Some (if decide (j = k) then 0%nat else j)) (ring_nodes k j m)
         (Some 0%nat).
Proof.
  induction m as [|m IH]; intros j Hj Hh.
  - rewrite decide_True by lia. constructor.
  - rewrite decide_False by lia. unfold ring_nodes. cbn [seq fmap list_fmap].
    constructor; [apply Hh; lia|].
    cbn [next_ pinned_node]. apply (IH (S j)); [lia | exact Hh].
Qed.

Lemma ring_nodes_addresses k j m : (ring_nodes k j m).*1 = seq j m.
Proof.
  unfold ring_nodes. rewrite <- list_fmap_compose.
  apply list_fmap_id.
Qed.

Lemma ring_nodes_unknown k j m f :
  (j + m <= f)%nat -> unknown_frame (Z.of_nat f) (ring_nodes k j m).
Proof.
  intros Hf. unfold unknown_frame, ring_nodes.
  apply Forall_fmap, Forall_forall. intros a Ha.
  apply elem_of_seq in Ha. cbn. lia.
Qed.

Lemma ring_nodes_pinned k j m :
  Forall (fun nd => pin_ nd = true) (ring_nodes k j m).*2.
Proof.
  unfold ring_nodes. rewrite <- list_fmap_compose.
  apply Forall_fmap, Forall_forall. intros a _. reflexivity.
Qed.

Lemma ring_nodes_snoc k m :
  ring_nodes k 0 (S m) = ring_nodes k 0 m ++ [(m, pinned_node k m)].
Proof. unfold ring_nodes. now rewrite seq_S, fmap_app. Qed.

(** A new frame enters the ring of pinned frames: [Unpin] appends its
    descriptor and [Pin] pins it. *)
Lemma pinned_ring_grows k r :
  pinned_ring k r ->
  Z.of_nat k < capacity_ r -> capacity_ r < 2 ^ 64 ->
  exists r1 r2,
    Unpin (Z.of_nat k) r = Ok (tt, r1) /\
    Pin (Z.of_nat k) r1 = Ok (tt, r2) /\
    pinned_ring (S k) r2 /\ capacity_ r2 = capacity_ r.
Proof.
  intros (Hbrk & Hcs & Hhead & Htail & Hheap) Hroom Hcap.
  destruct k as [|k].
  - (* the first frame *)
    eexists. eexists. split; [now apply Unpin_on_empty|].
    rewrite Hbrk. split.
    + eapply (Pin_found _ _ 0%nat _ None).
      * cbn. lia.
      * cbn [clock_size_ head_]. change (Z.to_nat 1) with 1%nat.
        cbn [search_loop]. unfold bind, load. cbn [heap].
        rewrite lookup_insert_eq. cbn [frame_id_]. now rewrite Z.eqb_refl.
      * apply lookup_insert_eq.
    + unfold pinned_ring.
      cbn [brk clock_size_ head_ current_ heap capacity_ with_pin_size
           with_heap frame_id_ next_].
      split; [|reflexivity]. split; [reflexivity|]. split; [reflexivity|].
      split; [auto|]. split; [lia|]. intros a. rewrite ?insert_insert_eq.
      destruct (decide (a < 1)%nat) as [Ha|Ha].
      * assert (a = 0%nat) as -> by lia. now rewrite lookup_insert_eq.
      * rewrite lookup_insert_ne by lia. rewrite Hheap. reflexivity.
  - (* a further frame *)
    destruct Hhead as [Hh Hc]; [lia|].
    assert (Hlive : forall a, (a < S k)%nat ->
                      heap r !! a = Some (pinned_node (S k) a)).
    { intros a Ha. rewrite Hheap. now rewrite decide_True. }
    pose proof (ring_nodes_chain (heap r) (S k) (S k) 0 eq_refl Hlive) as Hring.
    rewrite decide_False in Hring by lia.
    assert (Hfresh : heap r !! brk r = None).
    { rewrite Hbrk, Hheap. now rewrite decide_False by lia. }
    assert (Hlen : length (ring_nodes (S k) 0 (S k)) = S k).
    { unfold ring_nodes. now rewrite length_fmap, length_seq. }
    assert (Hunpin : Unpin (Z.of_nat (S k)) r =
              Ok (tt, mkClockReplacer
                        (<[k := set_next (Some (brk r)) (pinned_node (S k) k)]>
                           (<[brk r := mkListNode false true (Z.of_nat (S k))
                                                  (head_ r)]> (heap r)))
                        (S (brk r)) (capacity_ r)
                        (size_t_wrap (clock_size_ r + 1))
                        (pin_size_ r) (head_ r) (Some (brk r)) (current_ r))).
    { apply Unpin_not_found.
      - lia.
      - rewrite Hh.
        rewrite (search_loop_unknown _ r _ _ (Some 0%nat) (Some 0%nat) None
                   Hring).
        + rewrite ring_nodes_snoc. unfold last_ptr. now rewrite last_snoc.
        + left. rewrite Hlen, Hcs. lia.
        + apply ring_nodes_unknown. lia.
      - apply Hlive. lia.
      - lia.
      - lia. }
    eexists. eexists. split; [exact Hunpin|].
    set (h1 := <[k := _]> _).
    assert (Hk : h1 !! k = Some (set_next (Some (brk r)) (pinned_node (S k) k)))
      by (subst h1; apply lookup_insert_eq).
    assert (Hnew : h1 !! brk r =
                     Some (mkListNode false true (Z.of_nat (S k)) (head_ r))).
    { subst h1. rewrite lookup_insert_ne by lia. apply lookup_insert_eq. }
    assert (Hold : forall a, (a < k)%nat -> h1 !! a = heap r !! a).
    { intros a Ha. subst h1. now rewrite !lookup_insert_ne by lia. }
    split.
    + eapply (Pin_found _ _ (brk r) _
                (last_ptr (ring_nodes (S k) 0 k ++
                           [(k, set_next (Some (brk r)) (pinned_node (S k) k))])
                          None)).
      * cbn [clock_size_]. rewrite Hcs, size_t_wrap_id by lia. lia.
      * cbn [clock_size_ head_ heap].
        eapply (search_loop_first
                  (ring_nodes (S k) 0 k ++
                   [(k, set_next (Some (brk r)) (pinned_node (S k) k));
                    (brk r, mkListNode false true (Z.of_nat (S k)) (head_ r))])
                  _ _ _ _ (head_ r)).
        -- cbn [heap]. rewrite ring_nodes_snoc in Hring.
           destruct (achain_app_inv _ _ _ _ _ Hring) as (q & Hc1 & Hc2).
           inversion Hc2 as [|a' nd' al' q' Ha Hnil]; subst.
           eapply achain_app.
           ++ rewrite Hh.
              assert (Hin : forall a, a ∈ (ring_nodes (S k) 0 k).*1 ->
                                      (a < k)%nat).
              { intros a Ha'. rewrite ring_nodes_addresses in Ha'.
                apply elem_of_seq in Ha'. lia. }
              apply achain_insert_fresh.
              ** apply achain_insert_fresh; [exact Hc1|].
                 intros Hin'. apply Hin in Hin'. lia.
              ** intros Hin'. apply Hin in Hin'. lia.
           ++ constructor; [exact Hk|]. cbn [next_ set_next].
              constructor; [exact Hnew|]. cbn [next_]. constructor.
        -- now rewrite <- app_assoc.
        -- apply Forall_app. split; [apply ring_nodes_unknown; lia|].
           constructor; [cbn; lia | constructor].
        -- reflexivity.
        -- rewrite length_app. unfold ring_nodes.
           rewrite length_fmap, length_seq. cbn [length].
           rewrite Hcs, size_t_wrap_id by lia. lia.
      * exact Hnew.
    + unfold pinned_ring.
      cbn [brk clock_size_ head_ current_ heap capacity_ with_pin_size
           with_heap frame_id_ next_].
      split; [|reflexivity]. split; [now rewrite Hbrk|].
      split; [rewrite Hcs, size_t_wrap_id by lia; lia|].
      split; [auto|]. split; [intros _; rewrite Hbrk; f_equal; lia|].
      intros a. subst h1. rewrite Hbrk, Hh.
      destruct (decide (a = S k)) as [->|Ha1].
      { rewrite lookup_insert_eq, decide_True by lia.
        unfold pinned_node. now rewrite decide_True. }
      rewrite lookup_insert_ne by congruence.
      destruct (decide (a = k)) as [->|Ha2].
      { rewrite lookup_insert_eq, decide_True by lia.
        unfold pinned_node, set_next. cbn.
        now rewrite decide_False by lia. }
      rewrite !lookup_insert_ne by congruence. rewrite Hheap.
      destruct (decide (a < S k)%nat) as [Hlt|Hge].
      * rewrite decide_True by lia. unfold pinned_node.
        rewrite !decide_False by lia. reflexivity.
      * now rewrite decide_False by lia.
Qed.

(** On the ring of pinned frames [Victim] finds nothing and changes
    nothing. *)
Lemma pinned_ring_no_victim k r :
  pinned_ring k r -> Victim r = Ok (None, r).
Proof.
  intros (Hbrk & Hcs & Hhead & _ & Hheap).
  destruct k as [|k].
  - apply (Victim_all_pinned r []); [constructor | now rewrite Hcs | constructor].
  - destruct Hhead as [Hh Hc]; [lia|].
    apply (Victim_all_pinned r (ring_nodes (S k) 0 (S k)).*2).
    + rewrite Hc. apply achain_chain.
      pose proof (ring_nodes_chain (heap r) (S k) (S k) 0 eq_refl) as Hring.
      rewrite decide_False in Hring by lia. apply Hring.
      intros a Ha. rewrite Hheap. now rewrite decide_True.
    + unfold ring_nodes. rewrite !length_fmap, length_seq, Hcs. lia.
    + apply ring_nodes_pinned.
Qed.

(** ** The pool while pages are only created *)

(** [NewPgImp] with a frame on the free list, run forward. *)
Lemma NewPgImp_free_run (b : BufferPoolManagerInstance) frame_id rest old r1 r2 :
  free_list_ b = frame_id :: rest ->
  0 <= frame_id -> pages_ b !! Z.to_nat frame_id = Some old ->
  num_instances_ b <> 0 ->
  uint32_wrap (next_page_id_ b) mod num_instances_ b = instance_index_ b ->
  Unpin frame_id (replacer_ b) = Ok (tt, r1) ->
  Pin frame_id r1 = Ok (tt, r2) ->
  NewPgImp b =
    Ok ((next_page_id_ b, Some frame_id),
        mkBPM (pool_size_ b) (num_instances_ b) (instance_index_ b)
              (int32_wrap (next_page_id_ b + num_instances_ b))
              (<[Z.to_nat frame_id :=
                   fresh_frame (next_page_id_ b) (disk_manager_ b)]>
                 (pages_ b))
              r2 rest
              (table_insert (next_page_id_ b) frame_id (page_table_ b))
              (disk_read (next_page_id_ b) (disk_manager_ b)).2).
Proof.
  intros Hfl H0 Hold HN Hv Hr1 Hr2.
  assert (Hlen : (Z.to_nat frame_id < length (pages_ b))%nat)
    by (eapply lookup_lt_Some; eauto).
  unfold NewPgImp. unfold bind at 1.
  rewrite AllocatePage_checked by assumption.
  unfold bind at 1, gets at 1. cbn [free_list_ with_next_page_id].
  rewrite Hfl. unfold bind at 1. unfold bind at 1, modify at 1, ret at 1.
  unfold bind at 1.
  erewrite ReadPage_lookup by (fields; eauto).
  unfold bind at 1.
  erewrite update_page_lookup
    by (fields; first [assumption | now apply list_lookup_insert_eq]).
  unfold bind at 1.
  erewrite update_page_lookup
    by (fields; first [assumption
                      | apply list_lookup_insert_eq;
                        now rewrite ?length_insert]).
  unfold bind at 1.
  erewrite update_page_lookup
    by (fields; first [assumption
                      | apply list_lookup_insert_eq;
                        now rewrite ?length_insert]).
  unfold bind at 1, on_replacer at 1. fields. rewrite Hr1.
  unfold bind at 1, on_replacer at 1. fields. rewrite Hr2.
  unfold bind, modify, ret. fields.
  rewrite !list_insert_insert_eq. reflexivity.
Qed.

(** One more page on a pool that still has free frames. *)
Lemma filled_up_to_step n N i k (b : BufferPoolManagerInstance) :
  0 < N -> 0 <= i < N ->
  i + Z.of_nat (S k) * N <= INT_MAX ->
  Z.of_nat n <= INT_MAX ->
  (k < n)%nat ->
  filled_up_to n N i k b ->
  exists b',
    NewPgImp b = Ok ((i + Z.of_nat k * N, Some (Z.of_nat k)), b') /\
    filled_up_to n N i (S k) b'.
Proof.
  intros HN Hi Hmax Hn Hk
         (HbN & Hbi & Hnext & Hlen & Hfl & Hring & Hcap & Htable & Hpins).
  unfold INT_MAX in *.
  destruct (pinned_ring_grows k (replacer_ b) Hring)
    as (r1 & r2 & Hr1 & Hr2 & Hring2 & Hcap2); [lia | lia |].
  destruct (lookup_lt_is_Some_2 (pages_ b) k) as [old Hold]; [lia|].
  assert (Hfl' : free_list_ b = Z.of_nat k :: (Z.of_nat <$> seq (S k) (n - S k))).
  { rewrite Hfl. replace (n - k)%nat with (S (n - S k)) by lia. reflexivity. }
  eexists. split.
  - rewrite <- Hnext.
    apply (NewPgImp_free_run b (Z.of_nat k)
             (Z.of_nat <$> seq (S k) (n - S k)) old r1 r2); auto.
    + lia.
    + now rewrite Nat2Z.id.
    + lia.
    + rewrite HbN, Hbi, Hnext, uint32_wrap_id by nia.
      rewrite Z.mod_add by lia. apply Z.mod_small. lia.
  - assert (Hnew : page_table_ b !! next_page_id_ b = None).
    { destruct (page_table_ b !! next_page_id_ b) as [f|] eqn:E; [|reflexivity].
      apply Htable in E as (j & Hj & E & _). nia. }
    unfold filled_up_to.
    cbn [num_instances_ instance_index_ next_page_id_ pages_ free_list_
         replacer_ page_table_].
    rewrite length_insert, (table_insert_absent _ _ _ Hnew), Nat2Z.id.
    split; [exact HbN|]. split; [exact Hbi|].
    split; [rewrite Hnext, HbN, int32_wrap_id by nia; nia|].
    split; [exact Hlen|]. split; [reflexivity|]. split; [exact Hring2|].
    split; [congruence|]. split.
    + intros page_id f. rewrite lookup_insert. case_decide as Hpid.
      * subst page_id. split.
        -- intros [= <-]. exists k. split; [lia | auto].
        -- intros (j & Hj & E & ->). do 2 f_equal. nia.
      * rewrite Htable. split.
        -- intros (j & Hj & E). exists j. split; [lia | exact E].
        -- intros (j & Hj & E & Ef). exists j.
           split; [|split; assumption].
           destruct (decide (j = k)) as [->|]; [congruence | lia].
    + intros j Hj. destruct (decide (j = k)) as [->|Hjk].
      * eexists. split; [apply list_lookup_insert_eq; lia | reflexivity].
      * rewrite list_lookup_insert_ne by congruence. apply Hpins. lia.
Qed.

(** The pages created on such a pool, up to the moment every frame is
    taken. *)
Lemma new_pages_fill n N i m : forall k (b : BufferPoolManagerInstance),
  0 < N -> 0 <= i < N ->
  i + Z.of_nat n * N <= INT_MAX ->
  Z.of_nat n <= INT_MAX ->
  (k + m = n)%nat ->
  filled_up_to n N i k b ->
  exists b',
    new_pages m b =
      Ok ((fun j => (i + Z.of_nat j * N, Some (Z.of_nat j))) <$> seq k m, b') /\
    filled_up_to n N i n b'.
Proof.
  induction m as [|m IH]; intros k b HN Hi Hmax Hn Hkm Hb.
  - exists b. split; [reflexivity|].
    assert (k = n) as -> by lia. exact Hb.
  - destruct (filled_up_to_step n N i k b) as (b1 & Hnew & Hb1); auto;
      [nia | lia |].
    destruct (IH (S k) b1) as (b' & Hrest & Hb'); auto; [lia|].
    exists b'. split; [|exact Hb'].
    cbn [new_pages seq fmap list_fmap]. unfold bind at 1. rewrite Hnew.
    unfold bind at 1. rewrite Hrest. reflexivity.
Qed.

Lemma new_pages_app m1 : forall m2 (s s1 : BufferPoolManagerInstance) vs1,
  new_pages m1 s = Ok (vs1, s1) ->
  new_pages (m1 + m2) s =
    match new_pages m2 s1 with
    | Ok (vs2, s2) => Ok (vs1 ++ vs2, s2)
    | Fault f => Fault f
    end.
Proof.
  induction m1 as [|m1 IH]; intros m2 s s1 vs1 H1.
  - injection H1 as <- <-. cbn. now destruct (new_pages m2 s) as [[]|].
  - cbn [new_pages Nat.add] in *.
    apply bind_Ok in H1 as (v & s' & Hv & H1).
    apply bind_Ok in H1 as (vs & s'' & Hvs & H1). injection H1 as <- <-.
    unfold bind at 1. rewrite Hv. unfold bind at 1.
    rewrite (IH m2 s' s'' vs Hvs).
    now destruct (new_pages m2 s'') as [[]|].
Qed.

(** The constructor leaves a pool on which no page was created. *)
Lemma new_filled_up_to n N i disk :
  0 < N -> 0 <= i < N -> i <= INT_MAX -> Z.of_nat n <= INT_MAX ->
  exists b, BPM.new (Z.of_nat n) N i disk = Ok b /\ filled_up_to n N i 0 b.
Proof.
  intros HN Hi Hmax Hn. unfold BPM.new.
  destruct (0 <? N) eqn:E1; [|lia].
  destruct (i <? N) eqn:E2; [|lia].
  cbn [negb]. rewrite Nat2Z.id. eexists. split; [reflexivity|].
  unfold filled_up_to, pinned_ring, Clock.new.
  cbn [num_instances_ instance_index_ next_page_id_ pages_ free_list_
       replacer_ page_table_ brk clock_size_ head_ current_ tail_ heap
       capacity_].
  rewrite length_replicate, Nat.sub_0_r, free_list_new by lia.
  unfold INT_MAX in *.
  rewrite int32_wrap_id, size_t_wrap_id by lia.
  split; [reflexivity|]. split; [reflexivity|]. split; [lia|].
  split; [reflexivity|]. split; [reflexivity|]. split.
  { split; [reflexivity|]. split; [reflexivity|]. split; [congruence|].
    split; [lia|]. intros a. now rewrite lookup_empty, decide_False by lia. }
  split; [reflexivity|]. split.
  - intros page_id f. rewrite lookup_empty. split; [discriminate|].
    intros (j & Hj & _). lia.
  - intros j Hj. lia.
Qed.

(** X22. A fresh pool hands out its frames in order and then runs out: on
    an instance constructed with pool_size n (and num_instances N,
    instance_index i), the first n NewPage calls return the page IDs
    i, i+N, i+2N, ... in the frames 0, 1, ..., n-1, and the next NewPage
    returns nullptr, since every frame is pinned; no call faults.  (The
    page IDs and n fit into the 32-bit signed types.) *)
Theorem fresh_pool_fills_up (n : nat) N i disk :
  0 < N -> 0 <= i < N ->
  i + Z.of_nat n * N <= INT_MAX ->
  Z.of_nat n <= INT_MAX ->
  session (Z.of_nat n) N i disk (new_pages (S n)) =
    Ok (((fun j => (i + Z.of_nat j * N, Some (Z.of_nat j))) <$> seq 0 n) ++
        [(i + Z.of_nat n * N, None)]).
Proof.
  intros HN Hi Hmax Hn. unfold session.
  destruct (new_filled_up_to n N i disk) as (b & -> & Hb); auto; [nia|].
  destruct (new_pages_fill n N i n 0 b) as (b' & Hrun & Hb'); auto.
  destruct Hb' as (HbN & Hbi & Hnext & Hlen & Hfl & Hring & Hcap & _).
  assert (Hlast : NewPgImp b' =
            Ok ((i + Z.of_nat n * N, None),
                with_next_page_id
                  (int32_wrap (next_page_id_ b' + num_instances_ b')) b')).
  { rewrite <- Hnext.
    rewrite (NewPgImp_exhausted b' (replacer_ b')).
    - reflexivity.
    - rewrite Hfl, Nat.sub_diag. reflexivity.
    - lia.
    - unfold INT_MAX in *.
      rewrite HbN, Hbi, Hnext, uint32_wrap_id by nia.
      rewrite Z.mod_add by lia. apply Z.mod_small. lia.
    - eapply pinned_ring_no_victim; eauto. }
  unfold eval.
  replace (S n) with (n + 1)%nat by lia.
  rewrite (new_pages_app n 1%nat b b' _ Hrun).
  cbn [new_pages]. unfold bind at 1. rewrite Hlast. reflexivity.
Qed.

Lemma fresh_pool_fills_up_witness :
  session 3 2 1 blank_disk (new_pages 4) =
    Ok [(1, Some 0); (3, Some 1); (5, Some 2); (7, None)].
Proof.
  exact (fresh_pool_fills_up 3 2 1 blank_disk
           ltac:(lia) ltac:(lia) ltac:(unfold INT_MAX; cbn; lia)
           ltac:(unfold INT_MAX; cbn; lia)).
Defined.

(** * The buffer pool manager: a replacement on a ring in order *)

(** The steps [NewPgImp] and [FetchPgImp] share once the frame is
    chosen. *)
Ltac refill Hfl Hr1 Hr2 :=
  unfold bind at 1;
  erewrite ReadPage_lookup
    by (fields; first [eassumption | now apply list_lookup_insert_eq]);
  do 3 (unfold bind at 1;
        erewrite update_page_lookup
          by (fields; first [assumption
                            | apply list_lookup_insert_eq;
                              now rewrite ?length_insert]));
  unfold bind at 1, on_replacer at 1; fields; rewrite Hr1;
  unfold bind at 1, on_replacer at 1; fields; rewrite Hr2;
  unfold bind, modify, ret; fields;
  rewrite !list_insert_insert_eq, <- Hfl; reflexivity.

(** [NewPgImp] when it has to evict, run forwards. *)
Lemma NewPgImp_evict_run (b : BufferPoolManagerInstance) f old r0 r1 r2 :
  free_list_ b = [] ->
  0 <= f -> pages_ b !! Z.to_nat f = Some old ->
  num_instances_ b <> 0 ->
  uint32_wrap (next_page_id_ b) mod num_instances_ b = instance_index_ b ->
  Victim (replacer_ b) = Ok (Some f, r0) ->
  Unpin f r0 = Ok (tt, r1) ->
  Pin f r1 = Ok (tt, r2) ->
  NewPgImp b =
    Ok ((next_page_id_ b, Some f),
        mkBPM (pool_size_ b) (num_instances_ b) (instance_index_ b)
              (int32_wrap (next_page_id_ b + num_instances_ b))
              (<[Z.to_nat f :=
                   fresh_frame (next_page_id_ b)
                               (written_back old (disk_manager_ b))]>
                 (pages_ b))
              r2 []
              (table_insert (next_page_id_ b) f
                 (delete (page_id_ old) (page_table_ b)))
              (disk_read (next_page_id_ b)
                         (written_back old (disk_manager_ b))).2).
Proof.
  intros Hfl H0 Hold HN Hv Hr0 Hr1 Hr2.
  assert (Hlen : (Z.to_nat f < length (pages_ b))%nat)
    by (eapply lookup_lt_Some; eauto).
  unfold NewPgImp. unfold bind at 1.
  rewrite AllocatePage_checked by assumption.
  unfold bind at 1, gets at 1. cbn [free_list_ with_next_page_id].
  rewrite Hfl. unfold bind at 1. unfold bind at 1, on_replacer at 1.
  fields. rewrite Hr0. unfold bind at 1.
  erewrite page_at_lookup by (fields; eauto).
  unfold written_back. destruct (is_dirty_ old) eqn:Edirty.
  - unfold bind at 1. unfold bind at 1.
    erewrite update_page_lookup by (fields; eauto).
    unfold WritePage at 1, modify at 1.
    unfold bind at 1, modify at 1, ret at 1.
    refill Hfl Hr1 Hr2.
  - unfold bind at 1. unfold ret at 1.
    unfold bind at 1, modify at 1, ret at 1.
    refill Hfl Hr1 Hr2.
Qed.

(** [FetchPgImp] of a page that is not resident, when it has to evict, run
    forwards. *)
Lemma FetchPgImp_evict_run (b : BufferPoolManagerInstance) page_id f old
    r0 r1 r2 :
  page_table_ b !! page_id = None ->
  free_list_ b = [] ->
  0 <= f -> pages_ b !! Z.to_nat f = Some old ->
  Victim (replacer_ b) = Ok (Some f, r0) ->
  Unpin f r0 = Ok (tt, r1) ->
  Pin f r1 = Ok (tt, r2) ->
  FetchPgImp page_id b =
    Ok (Some f,
        mkBPM (pool_size_ b) (num_instances_ b) (instance_index_ b)
              (next_page_id_ b)
              (<[Z.to_nat f :=
                   fresh_frame page_id (written_back old (disk_manager_ b))]>
                 (pages_ b))
              r2 []
              (table_insert page_id f (delete (page_id_ old) (page_table_ b)))
              (disk_read page_id (written_back old (disk_manager_ b))).2).
Proof.
  intros Hmiss Hfl H0 Hold Hr0 Hr1 Hr2.
  assert (Hlen : (Z.to_nat f < length (pages_ b))%nat)
    by (eapply lookup_lt_Some; eauto).
  unfold FetchPgImp. unfold bind at 1, gets at 1. rewrite Hmiss.
  unfold bind at 1, gets at 1. rewrite Hfl.
  unfold bind at 1, on_replacer at 1. rewrite Hr0.
  unfold bind at 1.
  erewrite page_at_lookup by (fields; eauto).
  unfold written_back. destruct (is_dirty_ old) eqn:Edirty.
  - unfold bind at 1. unfold bind at 1.
    erewrite update_page_lookup by (fields; eauto).
    unfold WritePage at 1, modify at 1.
    unfold bind at 1, modify at 1.
    refill Hfl Hr1 Hr2.
  - unfold bind at 1. unfold ret at 1.
    unfold bind at 1, modify at 1.
    refill Hfl Hr1 Hr2.
Qed.

(** On a ring in the state [ring_at_head], with a frame that is not
    pinned, the three calls of a replacement return, and [Victim] reports
    the frame of the clock policy. *)
Lemma ring_eviction r al :
  ring_at_head r al ->
  Forall (fun nd => frame_id_ nd < INT_MAX) al.*2 ->
  Exists (fun nd => pin_ nd = false) al.*2 ->
  exists f r0 r1 r2,
    Victim r = Ok (Some f, r0) /\
    Unpin f r0 = Ok (tt, r1) /\
    Pin f r1 = Ok (tt, r2) /\
    clock_choice al.*2 (Some f) /\
    f ∈ frame_id_ <$> al.*2.
Proof.
  intros (Hc & Hnd & Hfr & Hlen & Hcur & Htail & Hroom & Hcap & Hfresh)
         Hmax Hex.
  destruct (list_snoc_cases al) as [-> | (init & x & Hal)];
    [now apply Exists_nil in Hex|].
  assert (Hhead : exists h, head_ r = Some h /\ is_Some (heap r !! h)).
  { destruct al as [|[a nd] al']; [now destruct init|].
    inversion Hc as [|a' nd' al'' q' Ha Hrest Hh]; subst. eauto. }
  assert (Htl : clock_size_ r <> 1 ->
                exists t, tail_ r = Some t /\ is_Some (heap r !! t)).
  { intros Hcs. exists x.1. rewrite (Htail Hcs), Hal, last_ptr_snoc.
    split; [reflexivity|]. exists x.2.
    apply (achain_lookup _ _ _ _ _ _ Hc). rewrite Hal.
    apply elem_of_app. right. destruct x. now left. }
  pose proof Hc as Hc'. rewrite <- Hcur in Hc'.
  destruct (Victim_returns r al (current_ r) Hhead Htl Hc' Hnd Hlen)
    as (v & r0 & HV).
  assert (Hchoice : clock_choice al.*2 v).
  { apply (Victim_choice r al (current_ r) v r0); auto.
    destruct Hhead as (h & Hh & _). congruence. }
  destruct v as [f|].
  2:{ cbn in Hchoice. apply Exists_exists in Hex as (nd & Hin & Hpin).
      rewrite Forall_forall in Hchoice. specialize (Hchoice nd Hin).
      congruence. }
  destruct (replacement_on_ring r al f r0 Hc Hnd Hfr Hlen Hcur Htail Hroom
              Hcap Hfresh HV)
    as (l1 & a & nd & l2 & al' & r2 & Hal' & Hf & Hrun & _).
  apply bind_Ok in Hrun as ([] & r1 & Hr1 & Hr2).
  exists f, r0, r1, r2. repeat (split; [assumption|]).
  rewrite Hal', !fmap_app. cbn. rewrite Hf.
  apply elem_of_app. right. now left.
Qed.

(** X25. When the free list is empty and some frame is unpinned, NewPgImp
    replaces a page, provided the ring of the replacer is in order (listed
    from the head: clock_size distinct nodes with distinct frames that are
    frames of the pool, the hand on the head, tail on the last node) and
    the next page ID passes the assertion of ValidatePageId: it does not
    fault, returns the next page ID in the frame the clock policy
    prescribes, writes that frame's page to disk first if it was dirty,
    removes its page table entry and adds the entry of the new page,
    unless the table had one for that page ID. *)
Theorem NewPgImp_evicts_the_clock_choice (b : BufferPoolManagerInstance) al :
  free_list_ b = [] ->
  ring_at_head (replacer_ b) al ->
  Forall (fun nd => 0 <= frame_id_ nd < Z.of_nat (length (pages_ b)) /\
                    frame_id_ nd < INT_MAX) al.*2 ->
  Exists (fun nd => pin_ nd = false) al.*2 ->
  num_instances_ b <> 0 ->
  uint32_wrap (next_page_id_ b) mod num_instances_ b = instance_index_ b ->
  exists f old b',
    NewPgImp b = Ok ((next_page_id_ b, Some f), b') /\
    clock_choice al.*2 (Some f) /\
    pages_ b !! Z.to_nat f = Some old /\
    pages_ b' = <[Z.to_nat f :=
                    fresh_frame (next_page_id_ b)
                                (written_back old (disk_manager_ b))]>
                  (pages_ b) /\
    page_table_ b' =
      table_insert (next_page_id_ b) f
                   (delete (page_id_ old) (page_table_ b)) /\
    journal (disk_manager_ b') =
      journal (disk_manager_ b) ++
      (if is_dirty_ old then [DiskWrite (page_id_ old) (data_ old)] else []) ++
      [DiskRead (next_page_id_ b)] /\
    free_list_ b' = [].
Proof.
  intros Hfl Hring Hin Hex HN Hv.
  destruct (ring_eviction (replacer_ b) al Hring) as
    (f & r0 & r1 & r2 & Hr0 & Hr1 & Hr2 & Hchoice & Hf); [|exact Hex|].
  { eapply Forall_impl; [exact Hin|]. now intros nd [_ H]. }
  apply list_elem_of_fmap in Hf as (nd & -> & Hnd).
  rewrite Forall_forall in Hin. destruct (Hin nd Hnd) as [[H0 Hlt] _].
  destruct (lookup_lt_is_Some_2 (pages_ b) (Z.to_nat (frame_id_ nd)))
    as [old Hold]; [lia|].
  exists (frame_id_ nd), old. eexists. split.
  { apply (NewPgImp_evict_run b (frame_id_ nd) old r0 r1 r2); assumption. }
  cbn [pages_ page_table_ disk_manager_ free_list_].
  split; [exact Hchoice|]. split; [exact Hold|].
  split; [reflexivity|]. split; [reflexivity|]. split; [|reflexivity].
  cbn [disk_read snd journal]. now rewrite written_back_journal, <- app_assoc.
Qed.

Lemma two_dirty_pages_ring :
  ring_at_head (replacer_ two_dirty_pages) two_dirty_nodes.
Proof.
  split.
  { unfold two_dirty_nodes.
    repeat (constructor; [vm_compute; reflexivity|]). constructor. }
  split; [apply (bool_decide_unpack _); vm_compute; exact I|].
  split; [apply (bool_decide_unpack _); vm_compute; exact I|].
  split; [reflexivity|]. split; [reflexivity|]. split; [reflexivity|].
  split; [cbn; lia|]. split; reflexivity.
Qed.

Lemma two_dirty_nodes_in_pool :
  Forall (fun nd => 0 <= frame_id_ nd
                         < Z.of_nat (length (pages_ two_dirty_pages)) /\
                    frame_id_ nd < INT_MAX) two_dirty_nodes.*2.
Proof.
  change (length (pages_ two_dirty_pages)) with 2%nat.
  unfold INT_MAX, two_dirty_nodes. cbn [fmap list_fmap snd].
  repeat (apply Forall_cons; split; [cbn [frame_id_]; lia|]). constructor.
Qed.

Lemma NewPgImp_evicts_the_clock_choice_witness :
  ring_at_head (replacer_ two_dirty_pages) two_dirty_nodes /\
  exists f old b',
    NewPgImp two_dirty_pages = Ok ((2, Some f), b') /\
    clock_choice two_dirty_nodes.*2 (Some f) /\
    pages_ two_dirty_pages !! Z.to_nat f = Some old /\
    pages_ b' = <[Z.to_nat f :=
                    fresh_frame 2 (written_back old (disk_manager_ two_dirty_pages))]>
                  (pages_ two_dirty_pages) /\
    page_table_ b' =
      table_insert 2 f (delete (page_id_ old) (page_table_ two_dirty_pages)) /\
    journal (disk_manager_ b') =
      journal (disk_manager_ two_dirty_pages) ++
      (if is_dirty_ old then [DiskWrite (page_id_ old) (data_ old)] else []) ++
      [DiskRead 2] /\
    free_list_ b' = [].
Proof.
  split; [exact two_dirty_pages_ring|].
  apply (NewPgImp_evicts_the_clock_choice two_dirty_pages two_dirty_nodes).
  - reflexivity.
  - exact two_dirty_pages_ring.
  - exact two_dirty_nodes_in_pool.
  - apply Exists_cons_hd. reflexivity.
  - cbn. lia.
  - reflexivity.
Defined.

(** X26. The same for FetchPgImp of a page that is not resident: with an
    empty free list, an unpinned frame and the ring in order, it does not
    fault and brings the page into the frame the clock policy prescribes;
    the page evicted from it is written to disk first if it was dirty, and
    the requested page is then read from disk. *)
Theorem FetchPgImp_evicts_the_clock_choice (b : BufferPoolManagerInstance)
    al page_id :
  page_table_ b !! page_id = None ->
  free_list_ b = [] ->
  ring_at_head (replacer_ b) al ->
  Forall (fun nd => 0 <= frame_id_ nd < Z.of_nat (length (pages_ b)) /\
                    frame_id_ nd < INT_MAX) al.*2 ->
  Exists (fun nd => pin_ nd = false) al.*2 ->
  exists f old b',
    FetchPgImp page_id b = Ok (Some f, b') /\
    clock_choice al.*2 (Some f) /\
    pages_ b !! Z.to_nat f = Some old /\
    pages_ b' = <[Z.to_nat f :=
                    fresh_frame page_id (written_back old (disk_manager_ b))]>
                  (pages_ b) /\
    page_table_ b' =
      table_insert page_id f (delete (page_id_ old) (page_table_ b)) /\
    journal (disk_manager_ b') =
      journal (disk_manager_ b) ++
      (if is_dirty_ old then [DiskWrite (page_id_ old) (data_ old)] else []) ++
      [DiskRead page_id] /\
    next_page_id_ b' = next_page_id_ b.
Proof.
  intros Hmiss Hfl Hring Hin Hex.
  destruct (ring_eviction (replacer_ b) al Hring) as
    (f & r0 & r1 & r2 & Hr0 & Hr1 & Hr2 & Hchoice & Hf); [|exact Hex|].
  { eapply Forall_impl; [exact Hin|]. now intros nd [_ H]. }
  apply list_elem_of_fmap in Hf as (nd & -> & Hnd).
  rewrite Forall_forall in Hin. destruct (Hin nd Hnd) as [[H0 Hlt] _].
  destruct (lookup_lt_is_Some_2 (pages_ b) (Z.to_nat (frame_id_ nd)))
    as [old Hold]; [lia|].
  exists (frame_id_ nd), old. eexists. split.
  { apply (FetchPgImp_evict_run b page_id (frame_id_ nd) old r0 r1 r2); assumption. }
  cbn [pages_ page_table_ disk_manager_ next_page_id_].
  split; [exact Hchoice|]. split; [exact Hold|].
  split; [reflexivity|]. split; [reflexivity|]. split; [|reflexivity].
  cbn [disk_read snd journal]. now rewrite written_back_journal, <- app_assoc.
Qed.

Lemma FetchPgImp_evicts_the_clock_choice_witness :
  page_table_ two_dirty_pages !! 5 = None /\
  exists f old b',
    FetchPgImp 5 two_dirty_pages = Ok (Some f, b') /\
    clock_choice two_dirty_nodes.*2 (Some f) /\
    pages_ two_dirty_pages !! Z.to_nat f = Some old /\
    pages_ b' = <[Z.to_nat f :=
                    fresh_frame 5 (written_back old (disk_manager_ two_dirty_pages))]>
                  (pages_ two_dirty_pages) /\
    page_table_ b' =
      table_insert 5 f (delete (page_id_ old) (page_table_ two_dirty_pages)) /\
    journal (disk_manager_ b') =
      journal (disk_manager_ two_dirty_pages) ++
      (if is_dirty_ old then [DiskWrite (page_id_ old) (data_ old)] else []) ++
      [DiskRead 5] /\
    next_page_id_ b' = 2.
Proof.
  split; [reflexivity|].
  apply (FetchPgImp_evicts_the_clock_choice two_dirty_pages two_dirty_nodes 5).
  - reflexivity.
  - reflexivity.
  - exact two_dirty_pages_ring.
  - exact two_dirty_nodes_in_pool.
  - apply Exists_cons_hd. reflexivity.
Defined.

(** * A full pool reuses the frame of an unpinned page *)

(** [Unpin], once the search has found the node [a]. *)
Lemma Unpin_found r f a nd pre1 :
  clock_size_ r <> 0 ->
  search_loop (Z.to_nat (clock_size_ r)) f (head_ r) None r
    = Ok ((Some a, pre1), r) ->
  heap r !! a = Some nd ->
  Unpin f r =
    Ok (tt, if pin_ nd
            then with_pin_size (size_t_wrap (pin_size_ r - 1))
                   (with_heap (<[a := set_pin false nd]> (heap r)) r)
            else r).
Proof.
  intros Hcs Hs Ha. unfold Unpin. unfold bind at 1, gets at 1.
  destruct (clock_size_ r =? 0) eqn:E; [lia|].
  unfold bind at 1, gets at 1. unfold bind at 1. rewrite Hs.
  unfold bind at 1, load at 1. rewrite Ha.
  destruct (pin_ nd); [|reflexivity].
  unfold store, bind, load, modify. now rewrite Ha.
Qed.

(** Replacing a node of a run by one with the same successor. *)
Lemma achain_update h p l1 a nd nd' l2 q :
  achain h p (l1 ++ (a, nd) :: l2) q ->
  a ∉ l1.*1 -> a ∉ l2.*1 -> next_ nd' = next_ nd ->
  achain (<[a := nd']> h) p (l1 ++ (a, nd') :: l2) q.
Proof.
  intros Hc H1 H2 Hn. apply achain_app_inv in Hc as (s & Hc1 & Hc2).
  inversion Hc2 as [|a' nd0 al' q' Ha Hrest]; subst.
  eapply achain_app; [apply achain_insert_fresh; eassumption|].
  constructor; [apply lookup_insert_eq|]. rewrite Hn.
  now apply achain_insert_fresh.
Qed.

Lemma ring_nodes_split k j m :
  (j < m)%nat ->
  ring_nodes k 0 m =
    ring_nodes k 0 j ++ (j, pinned_node k j) :: ring_nodes k (S j) (m - S j).
Proof.
  intros Hj. unfold ring_nodes.
  replace m with (j + S (m - S j))%nat at 1 by lia.
  now rewrite seq_app, fmap_app.
Qed.

Lemma ring_with_unpinned_addresses k j :
  (j < k)%nat -> (ring_with_unpinned k j).*1 = seq 0 k.
Proof.
  intros Hj. rewrite <- (ring_nodes_addresses k 0 k), (ring_nodes_split k j k Hj).
  unfold ring_with_unpinned. now rewrite !fmap_app.
Qed.

Lemma ring_with_unpinned_frames k j :
  (j < k)%nat ->
  frame_id_ <$> (ring_with_unpinned k j).*2 = Z.of_nat <$> seq 0 k.
Proof.
  intros Hj.
  assert (E : forall a m, frame_id_ <$> (ring_nodes k a m).*2
                          = Z.of_nat <$> seq a m).
  { intros a m. unfold ring_nodes. now rewrite <- !list_fmap_compose. }
  unfold ring_with_unpinned. rewrite !fmap_app, !fmap_cons, !E.
  replace k with (j + S (k - S j))%nat at 3 by lia.
  now rewrite seq_app, fmap_app.
Qed.

Lemma last_ptr_addresses (al : list (nat * ListNode)) p :
  last_ptr al p = match last al.*1 with Some a => Some a | None => p end.
Proof. unfold last_ptr. rewrite fmap_last. now destruct (last al). Qed.

(** The only frame the clock policy can choose on that ring. *)
Lemma ring_with_unpinned_choice k j f :
  clock_choice (ring_with_unpinned k j).*2 (Some f) -> f = Z.of_nat j.
Proof.
  intros Hchoice.
  assert (Hnd : exists nd, nd ∈ (ring_with_unpinned k j).*2 /\
                           pin_ nd = false /\ frame_id_ nd = f).
  { destruct Hchoice as [(l1 & nd & l2 & E & [Hp _] & _ & Hf) | (_ & H & _)];
      [|exact H].
    exists nd. split; [|auto]. rewrite E. apply elem_of_app. right. now left. }
  destruct Hnd as (nd & Hin & Hpin & <-).
  unfold ring_with_unpinned in Hin. rewrite fmap_app, fmap_cons in Hin.
  pose proof (ring_nodes_pinned k 0 j) as P1.
  pose proof (ring_nodes_pinned k (S j) (k - S j)) as P2.
  rewrite Forall_forall in P1, P2.
  apply elem_of_app in Hin as [Hin | Hin]; [apply P1 in Hin; congruence|].
  apply elem_of_cons in Hin as [-> | Hin]; [reflexivity|].
  apply P2 in Hin. congruence.
Qed.

(** The replacer of a full pool after one frame was unpinned. *)
Lemma pinned_ring_unpin k j r :
  pinned_ring k r -> (j < k)%nat ->
  Z.of_nat k <= capacity_ r -> capacity_ r < 2 ^ 64 ->
  exists r1,
    Unpin (Z.of_nat j) r = Ok (tt, r1) /\
    ring_at_head r1 (ring_with_unpinned k j).
Proof.
  intros (Hbrk & Hcs & Hhead & Htail & Hheap) Hj Hroom Hcap.
  destruct Hhead as [Hh Hcur]; [lia|].
  assert (Hlive : forall a, (a < k)%nat -> heap r !! a = Some (pinned_node k a)).
  { intros a Ha. rewrite Hheap. now rewrite decide_True. }
  pose proof (ring_nodes_chain (heap r) k k 0 eq_refl Hlive) as Hring.
  rewrite decide_False in Hring by lia.
  rewrite (ring_nodes_split k j k Hj) in Hring.
  assert (Hseq : NoDup (seq 0 k)) by apply NoDup_seq.
  pose proof Hseq as Hsplit.
  rewrite <- (ring_nodes_addresses k 0 k), (ring_nodes_split k j k Hj),
    fmap_app, fmap_cons in Hsplit.
  apply NoDup_app in Hsplit as (_ & Hdis & Hnd2).
  apply NoDup_cons in Hnd2 as [Hj2 _].
  assert (Hj1 : j ∉ (ring_nodes k 0 j).*1).
  { intros Hin. apply (Hdis j Hin). now left. }
  eexists. split.
  { erewrite (Unpin_found r _ j (pinned_node k j)).
    - reflexivity.
    - lia.
    - rewrite Hh.
      eapply (search_loop_first _ r _ _ (Some 0%nat) (Some 0%nat) None);
        [exact Hring | reflexivity | | reflexivity |].
      + apply ring_nodes_unknown. lia.
      + unfold ring_nodes. rewrite length_fmap, length_seq, Hcs. lia.
    - apply Hlive, Hj. }
  cbn [pin_ pinned_node].
  unfold ring_at_head.
  cbn [heap head_ tail_ current_ brk clock_size_ capacity_ with_pin_size
       with_heap].
  rewrite Hh, Hcur, Hcs.
  split; [now apply (achain_update _ _ _ _ (pinned_node k j))|].
  split; [now rewrite ring_with_unpinned_addresses|].
  split.
  { rewrite ring_with_unpinned_frames by assumption.
    apply NoDup_fmap; [intros x y; apply Nat2Z.inj | exact Hseq]. }
  split.
  { rewrite <- (length_fmap fst), ring_with_unpinned_addresses, length_seq
      by assumption. lia. }
  split; [reflexivity|]. split.
  { intros Hk. rewrite Htail by lia.
    rewrite last_ptr_addresses, ring_with_unpinned_addresses by assumption.
    replace k with (S (k - 1)) at 2 by lia.
    now rewrite seq_S, last_snoc. }
  split; [exact Hroom|]. split; [exact Hcap|].
  rewrite lookup_insert_ne by lia. rewrite Hbrk, Hheap.
  now rewrite decide_False by lia.
Qed.

(** On a full pool, unpinning the page in frame [j] and creating a page. *)
Lemma full_pool_reuse n N i j (b : BufferPoolManagerInstance) is_dirty :
  0 < N -> 0 <= i < N ->
  i + Z.of_nat n * N <= INT_MAX ->
  Z.of_nat n <= INT_MAX ->
  (j < n)%nat ->
  filled_up_to n N i n b ->
  exists b1 b2,
    UnpinPgImp (i + Z.of_nat j * N) is_dirty b = Ok (true, b1) /\
    NewPgImp b1 = Ok ((i + Z.of_nat n * N, Some (Z.of_nat j)), b2).
Proof.
  intros HN Hi Hmax Hn Hj
         (HbN & Hbi & Hnext & Hlen & Hfl & Hring & Hcap & Htable & Hpins).
  unfold INT_MAX in *.
  destruct (Hpins j Hj) as (p & Hp & Hpc).
  assert (Ht : page_table_ b !! (i + Z.of_nat j * N) = Some (Z.of_nat j))
    by (apply Htable; eauto).
  destruct (pinned_ring_unpin n j (replacer_ b) Hring Hj)
    as (r1 & Hr1 & Hring1); [lia | lia |].
  set (b1 := with_pages (<[Z.to_nat (Z.of_nat j) :=
                             mkPage (data_ p) (page_id_ p) 0 is_dirty]>
                           (pages_ b))
                        (with_replacer r1 b)).
  assert (Hunpin : UnpinPgImp (i + Z.of_nat j * N) is_dirty b = Ok (true, b1)).
  { rewrite (UnpinPgImp_on_resident b _ is_dirty (Z.of_nat j) p Ht);
      [|lia | now rewrite Nat2Z.id].
    rewrite Hpc, Hr1. reflexivity. }
  assert (Hmaxf : Forall (fun nd => frame_id_ nd < 2147483647)
                         (ring_with_unpinned n j).*2).
  { apply Forall_fmap with (f := frame_id_) (P := fun f => f < 2147483647).
    rewrite ring_with_unpinned_frames by assumption.
    apply Forall_fmap, Forall_forall. intros a Ha.
    apply elem_of_seq in Ha. cbn. lia. }
  destruct (ring_eviction r1 (ring_with_unpinned n j) Hring1 Hmaxf)
    as (f & r0 & r2 & r3 & Hv & Hu & Hpin & Hchoice & _).
  { unfold ring_with_unpinned. rewrite fmap_app, fmap_cons.
    apply Exists_app. right. now left. }
  apply ring_with_unpinned_choice in Hchoice. subst f.
  exists b1. eexists. split; [exact Hunpin|].
  rewrite <- Hnext.
  change (next_page_id_ b) with (next_page_id_ b1).
  apply (NewPgImp_evict_run b1 (Z.of_nat j)
           (mkPage (data_ p) (page_id_ p) 0 is_dirty) r0 r2 r3);
    subst b1; fields; try assumption.
  - rewrite Hfl, Nat.sub_diag. reflexivity.
  - lia.
  - apply list_lookup_insert_eq. rewrite Nat2Z.id. lia.
  - lia.
  - rewrite HbN, Hbi, Hnext, uint32_wrap_id by nia.
    rewrite Z.mod_add by lia. apply Z.mod_small. lia.
Qed.

(** X27. A full pool reuses the frame of an unpinned page.  On an instance
    constructed with pool_size n (and num_instances N, instance_index i),
    after the n NewPage calls that fill the pool, UnpinPage of any one of
    the created pages returns true, and the next NewPage does not fail: it
    returns the next page ID in the frame of the page that was unpinned.
    No call faults.  (The page IDs and n fit into the 32-bit signed
    types.) *)
Theorem full_pool_reuses_the_unpinned_frame (n j : nat) N i disk is_dirty :
  0 < N -> 0 <= i < N ->
  i + Z.of_nat n * N <= INT_MAX ->
  Z.of_nat n <= INT_MAX ->
  (j < n)%nat ->
  session (Z.of_nat n) N i disk
    (new_pages n ;;
     let* u := UnpinPgImp (i + Z.of_nat j * N) is_dirty in
     let* v := NewPgImp in
     ret (u, v))
  = Ok (true, (i + Z.of_nat n * N, Some (Z.of_nat j))).
Proof.
  intros HN Hi Hmax Hn Hj. unfold session.
  destruct (new_filled_up_to n N i disk) as (b & -> & Hb); auto; [nia|].
  destruct (new_pages_fill n N i n 0 b) as (b' & Hrun & Hb'); auto.
  destruct (full_pool_reuse n N i j b' is_dirty HN Hi Hmax Hn Hj Hb')
    as (b1 & b2 & Hu & Hv).
  unfold eval, bind. now rewrite Hrun, Hu, Hv.
Qed.

Lemma full_pool_reuses_the_unpinned_frame_witness :
  session 3 2 1 blank_disk
    (new_pages 3 ;;
     let* u := UnpinPgImp 3 true in
     let* v := NewPgImp in
     ret (u, v))
  = Ok (true, (7, Some 1)).
Proof.
  exact (full_pool_reuses_the_unpinned_frame 3 1 2 1 blank_disk true
           ltac:(lia) ltac:(lia) ltac:(unfold INT_MAX; cbn; lia)
           ltac:(unfold INT_MAX; cbn; lia) ltac:(lia)).
Defined.
